(** * WCAGAII backend: browser pool, circuit breaker and scan orchestration

    A shallow embedding of the resource-management core of the backend:

    - [CircuitBreaker]: class [CircuitBreaker] of the circuit breaker
      service (in [backend/src/schemas/validation.js]);
    - [BrowserPool]: class [BrowserPool] of the browser pool service
      (in [backend/src/services/grokAI.js]);
    - [Scanner]: [scanURL] of the scanner built on the pool
      (in [backend/src/routes/keywordScanLite.js]);
    - [BulkScan]: [processBulkScan] of the server ([unnamed/part_008]).

    JavaScript objects become records, [async] methods become functions on
    an explicit state.  A method runs to completion, with everything it
    awaits, before the next event: overlapping calls are not modelled, with
    one exception.  A [createBrowser()] that is started and not awaited
    (by the constructor through [initialize()], by [release] for a
    replacement) returns at once and its launch settles later, as an event
    of its own.  What the source takes from its surroundings (the clock,
    the outcome of a launch, a browser losing its connection, a timer
    firing, the outcome of a page analysis) is an explicit input or an
    event.  Log output and the per-browser [_poolMetadata] never influence
    control flow and are left out, with one exception: the log record of
    the breaker's [onFailure] reads [error.message], which throws when the
    action rejected with [null] or [undefined].  Event listeners are left
    out as well; they are taken not to throw [null] or [undefined], which
    [emit] could not log. *)

From Stdlib Require Import ZArith Lia List String.
From stdpp Require Import base option list strings gmap sets.
Import ListNotations.

(** ** Circuit breaker *)

Module CircuitBreaker.

Local Open Scope Z_scope.

Inductive State := CLOSED | OPEN | HALF_OPEN.

Definition State_eqb (a b : State) : bool :=
  match a, b with
  | CLOSED, CLOSED | OPEN, OPEN | HALF_OPEN, HALF_OPEN => true
  | _, _ => false
  end.

Record Metrics := mkMetrics {
  totalRequests : Z;
  totalSuccesses : Z;
  totalFailures : Z;
  totalFallbacks : Z;
  totalRejections : Z;
  stateChanges : Z
}.

Record Breaker := mkBreaker {
  name : string;
  state : State;
  failures : Z;
  successes : Z;
  lastFailTime : option Z;
  lastSuccessTime : option Z;
  lastStateChange : Z;
  failureThreshold : Z;
  successThreshold : Z;
  timeout : Z;
  resetTimeout : Z;
  metrics : Metrics
}.

(** [options.x || d]: a missing or zero option falls back to the default. *)
Definition or_default (o : option Z) (d : Z) : Z :=
  match o with
  | Some v => if v =? 0 then d else v
  | None => d
  end.

Record Options := mkOptions {
  opt_name : option string;
  opt_failureThreshold : option Z;
  opt_successThreshold : option Z;
  opt_timeout : option Z;
  opt_resetTimeout : option Z
}.

(** [constructor(options)], called at time [now]. *)
Definition new (options : Options) (now : Z) : Breaker :=
  {| name := match opt_name options with
             | Some n => if String.eqb n EmptyString then "default"%string else n
             | None => "default"%string
             end;
     state := CLOSED;
     failures := 0;
     successes := 0;
     lastFailTime := None;
     lastSuccessTime := None;
     lastStateChange := now;
     failureThreshold := or_default (opt_failureThreshold options) 5;
     successThreshold := or_default (opt_successThreshold options) 2;
     timeout := or_default (opt_timeout options) 60000;
     resetTimeout := or_default (opt_resetTimeout options) 30000;
     metrics := mkMetrics 0 0 0 0 0 0 |}.

Definition with_metrics (f : Metrics -> Metrics) (cb : Breaker) : Breaker :=
  {| name := name cb; state := state cb; failures := failures cb;
     successes := successes cb; lastFailTime := lastFailTime cb;
     lastSuccessTime := lastSuccessTime cb;
     lastStateChange := lastStateChange cb;
     failureThreshold := failureThreshold cb;
     successThreshold := successThreshold cb;
     timeout := timeout cb; resetTimeout := resetTimeout cb;
     metrics := f (metrics cb) |}.

Definition incr_totalRequests (m : Metrics) : Metrics :=
  mkMetrics (totalRequests m + 1) (totalSuccesses m) (totalFailures m)
            (totalFallbacks m) (totalRejections m) (stateChanges m).
Definition incr_totalSuccesses (m : Metrics) : Metrics :=
  mkMetrics (totalRequests m) (totalSuccesses m + 1) (totalFailures m)
            (totalFallbacks m) (totalRejections m) (stateChanges m).
Definition incr_totalFailures (m : Metrics) : Metrics :=
  mkMetrics (totalRequests m) (totalSuccesses m) (totalFailures m + 1)
            (totalFallbacks m) (totalRejections m) (stateChanges m).
Definition incr_totalFallbacks (m : Metrics) : Metrics :=
  mkMetrics (totalRequests m) (totalSuccesses m) (totalFailures m)
            (totalFallbacks m + 1) (totalRejections m) (stateChanges m).
Definition incr_totalRejections (m : Metrics) : Metrics :=
  mkMetrics (totalRequests m) (totalSuccesses m) (totalFailures m)
            (totalFallbacks m) (totalRejections m + 1) (stateChanges m).
Definition incr_stateChanges (m : Metrics) : Metrics :=
  mkMetrics (totalRequests m) (totalSuccesses m) (totalFailures m)
            (totalFallbacks m) (totalRejections m) (stateChanges m + 1).

(** [transitionTo(newState)] at time [now]. *)
Definition transitionTo (newState : State) (now : Z) (cb : Breaker) : Breaker :=
  {| name := name cb;
     state := newState;
     failures := match newState with CLOSED => 0 | _ => failures cb end;
     successes := match newState with
                  | CLOSED | HALF_OPEN => 0
                  | OPEN => successes cb
                  end;
     lastFailTime := lastFailTime cb;
     lastSuccessTime := lastSuccessTime cb;
     lastStateChange := now;
     failureThreshold := failureThreshold cb;
     successThreshold := successThreshold cb;
     timeout := timeout cb; resetTimeout := resetTimeout cb;
     metrics := incr_stateChanges (metrics cb) |}.

(** [shouldAttemptReset()] at time [now]. *)
Definition shouldAttemptReset (now : Z) (cb : Breaker) : bool :=
  resetTimeout cb <=? now - lastStateChange cb.

(** [onSuccess()] at time [now]. *)
Definition onSuccess (now : Z) (cb : Breaker) : Breaker :=
  let cb := with_metrics incr_totalSuccesses cb in
  let cb :=
    {| name := name cb; state := state cb; failures := failures cb;
       successes := successes cb; lastFailTime := lastFailTime cb;
       lastSuccessTime := Some now;
       lastStateChange := lastStateChange cb;
       failureThreshold := failureThreshold cb;
       successThreshold := successThreshold cb;
       timeout := timeout cb; resetTimeout := resetTimeout cb;
       metrics := metrics cb |} in
  match state cb with
  | HALF_OPEN =>
      let cb :=
        {| name := name cb; state := state cb; failures := failures cb;
           successes := successes cb + 1; lastFailTime := lastFailTime cb;
           lastSuccessTime := lastSuccessTime cb;
           lastStateChange := lastStateChange cb;
           failureThreshold := failureThreshold cb;
           successThreshold := successThreshold cb;
           timeout := timeout cb; resetTimeout := resetTimeout cb;
           metrics := metrics cb |} in
      if successThreshold cb <=? successes cb
      then transitionTo CLOSED now cb
      else cb
  | _ =>
      {| name := name cb; state := state cb; failures := 0;
         successes := successes cb; lastFailTime := lastFailTime cb;
         lastSuccessTime := lastSuccessTime cb;
         lastStateChange := lastStateChange cb;
         failureThreshold := failureThreshold cb;
         successThreshold := successThreshold cb;
         timeout := timeout cb; resetTimeout := resetTimeout cb;
         metrics := metrics cb |}
  end.

(** What a call can fail with: the breaker's own rejection, the timeout of
    [executeWithTimeout], whatever the action or the fallback throws (a
    value with its [message], [null] or [undefined]), and the [TypeError]
    JavaScript raises on reading a property of [null] or [undefined]. *)
Inductive Error :=
| CircuitOpen (breaker : string)
| RequestTimeout
| Thrown (message : string)
| ThrownNull
| ThrownUndefined
| TypeError.

(** [error.message] can be read of every value but [null] and
    [undefined]. *)
Definition nullish (error : Error) : bool :=
  match error with
  | ThrownNull | ThrownUndefined => true
  | _ => false
  end.

(** [onFailure(error)] at time [now]: the breaker it leaves and what it
    throws, if it does.  The log record reads [error.message] after the
    counters and before the test of the state. *)
Definition onFailure (now : Z) (error : Error) (cb : Breaker)
    : Breaker * option Error :=
  let cb := with_metrics incr_totalFailures cb in
  let cb :=
    {| name := name cb; state := state cb; failures := failures cb + 1;
       successes := successes cb; lastFailTime := Some now;
       lastSuccessTime := lastSuccessTime cb;
       lastStateChange := lastStateChange cb;
       failureThreshold := failureThreshold cb;
       successThreshold := successThreshold cb;
       timeout := timeout cb; resetTimeout := resetTimeout cb;
       metrics := metrics cb |} in
  if nullish error then (cb, Some TypeError)
  else
    (match state cb with
     | HALF_OPEN => transitionTo OPEN now cb
     | _ =>
         if failureThreshold cb <=? failures cb
         then transitionTo OPEN now cb
         else cb
     end, None).

(** [open()] and [close()]: the manual controls. *)
Definition open (now : Z) (cb : Breaker) : Breaker := transitionTo OPEN now cb.
Definition close (now : Z) (cb : Breaker) : Breaker := transitionTo CLOSED now cb.

(** [setTimeout(callback, delay)] of Node.js: a delay below 1 or above
    2^31 - 1 is set to 1. *)
Definition timer_delay (delay : Z) : Z :=
  if (delay <? 1) || (2147483647 <? delay) then 1 else delay.

Section Execute.

(** [W] is whatever the action and the fallback act on (so that a call
    that is not made leaves it untouched), [A] the type of results. *)
Context {W A : Type}.

Inductive Settled := Fulfilled (v : A) | Rejected (e : Error).

(** The promise returned by [fn()]: it settles [after] milliseconds, or
    never. *)
Inductive Run := Settles (after : Z) (r : Settled) | Hangs.

Definition Action := W -> W * Run.
Definition Fallback := W -> W * Settled.

(** [executeWithTimeout(fn)]: the race of [fn()] against a timer of
    [timeout] ms, which is started after [fn()] has been called; gives the
    time the race took and how it settled.  A promise that settles when
    the timer is due wins the race. *)
Definition executeWithTimeout (cb : Breaker) (fn : Action) (w : W)
  : W * Z * Settled :=
  let '(w', run) := fn w in
  match run with
  | Settles after r =>
      if after <=? timer_delay (timeout cb) then (w', after, r)
      else (w', timer_delay (timeout cb), Rejected RequestTimeout)
  | Hangs => (w', timer_delay (timeout cb), Rejected RequestTimeout)
  end.

(** The synchronous head of [execute]: count the request and look at the
    circuit.  [true] lets the call through. *)
Definition enter (now : Z) (cb : Breaker) : Breaker * bool :=
  let cb := with_metrics incr_totalRequests cb in
  match state cb with
  | OPEN =>
      if shouldAttemptReset now cb
      then (transitionTo HALF_OPEN now cb, true)
      else (with_metrics incr_totalRejections cb, false)
  | _ => (cb, true)
  end.

(** [execute(fn, fallback)] entered at time [now].  What [onFailure]
    throws leaves the [catch] block: the call is rejected with it and the
    fallback is not reached. *)
Definition execute (now : Z) (fn : Action) (fallback : option Fallback)
    (cbw : Breaker * W) : Breaker * W * Settled :=
  let '(cb, w) := cbw in
  match enter now cb with
  | (cb, false) =>
      match fallback with
      | Some fb =>
          let cb := with_metrics incr_totalFallbacks cb in
          let '(w, r) := fb w in
          (cb, w, r)
      | None => (cb, w, Rejected (CircuitOpen (name cb)))
      end
  | (cb, true) =>
      let '(w, elapsed, r) := executeWithTimeout cb fn w in
      match r with
      | Fulfilled v => (onSuccess (now + elapsed) cb, w, Fulfilled v)
      | Rejected error =>
          match onFailure (now + elapsed) error cb with
          | (cb, Some thrown) => (cb, w, Rejected thrown)
          | (cb, None) =>
              match fallback with
              | Some fb =>
                  let cb := with_metrics incr_totalFallbacks cb in
                  let '(w, r) := fb w in
                  (cb, w, r)
              | None => (cb, w, Rejected error)
              end
          end
      end
  end.

(** The call fails: [fn()] rejects, or does not fulfil within [limit]. *)
Definition fails (limit : Z) (run : Run) : bool :=
  match run with
  | Settles after (Fulfilled _) => timer_delay limit <? after
  | Settles _ (Rejected _) => true
  | Hangs => true
  end.

(** The call fails and [onFailure] can read the error of the race: it is
    the timeout, or a value other than [null] and [undefined]. *)
Definition fails_with_error (limit : Z) (run : Run) : bool :=
  match run with
  | Settles after (Fulfilled _) => timer_delay limit <? after
  | Settles after (Rejected e) => (timer_delay limit <? after) || negb (nullish e)
  | Hangs => true
  end.

Record Call := mkCall {
  call_at : Z;
  call_fn : Action;
  call_fallback : option Fallback
}.

Definition execute_call (cbw : Breaker * W) (c : Call) : Breaker * W :=
  fst (execute (call_at c) (call_fn c) (call_fallback c) cbw).

(** Calls made one after the other. *)
Definition execute_all (calls : list Call) (cbw : Breaker * W) : Breaker * W :=
  fold_left execute_call calls cbw.

(** A call whose action fails whatever it finds. *)
Definition failing (limit : Z) (c : Call) : Prop :=
  forall w, fails limit (snd (call_fn c w)) = true.

(** A call whose action fails with an error whatever it finds. *)
Definition failing_with_error (limit : Z) (c : Call) : Prop :=
  forall w, fails_with_error limit (snd (call_fn c w)) = true.

End Execute.

Arguments Settled : clear implicits.
Arguments Run : clear implicits.
Arguments Action : clear implicits.
Arguments Fallback : clear implicits.
Arguments Call : clear implicits.

(** The steps of [execute] that touch the breaker, and the manual
    controls, each at the time it happens. *)
Inductive ExecStep :=
| Enter (now : Z)
| Succeed (now : Z)
| Fail (now : Z) (error : Error).
Inductive ManualStep := Open (now : Z) | Close (now : Z).

Definition exec_step (e : ExecStep) (cb : Breaker) : Breaker :=
  match e with
  | Enter now => fst (enter now cb)
  | Succeed now => onSuccess now cb
  | Fail now error => fst (onFailure now error cb)
  end.

Definition manual_step (m : ManualStep) (cb : Breaker) : Breaker :=
  match m with
  | Open now => open now cb
  | Close now => close now cb
  end.

(** The four transitions of the state machine, with what triggers each;
    a failure triggers one when [onFailure] gets past its log record. *)
Inductive transition (cb : Breaker) : ExecStep -> State -> State -> Prop :=
| trip now error :
    nullish error = false ->
    state cb = CLOSED -> failureThreshold cb <= failures cb + 1 ->
    transition cb (Fail now error) CLOSED OPEN
| probe now :
    state cb = OPEN -> resetTimeout cb <= now - lastStateChange cb ->
    transition cb (Enter now) OPEN HALF_OPEN
| recover now :
    state cb = HALF_OPEN -> successThreshold cb <= successes cb + 1 ->
    transition cb (Succeed now) HALF_OPEN CLOSED
| retrip now error :
    nullish error = false ->
    state cb = HALF_OPEN ->
    transition cb (Fail now error) HALF_OPEN OPEN.

(** The pairs of states the four transitions connect. *)
Definition listed (old new : State) : bool :=
  match old, new with
  | CLOSED, OPEN | OPEN, HALF_OPEN | HALF_OPEN, CLOSED | HALF_OPEN, OPEN => true
  | _, _ => false
  end.

(** *** Vocabulary of the properties *)

(** A breaker made with the default settings at time 0, and the same
    breaker opened by hand. *)
Definition fresh : Breaker := new (mkOptions None None None None None) 0.
Definition tripped : Breaker := open 0 fresh.

(** The settings of a breaker, which no call changes. *)
Definition settings (cb : Breaker) : string * Z * Z * Z * Z :=
  (name cb, failureThreshold cb, successThreshold cb, timeout cb, resetTimeout cb).

(** Two breakers with the same circuit: they differ at most in the
    counters kept for monitoring and in the times of the last results. *)
Definition circuit (cb : Breaker) : State * Z * Z * Z :=
  (state cb, failures cb, successes cb, lastStateChange cb).

(** An action that counts its invocations and always throws. *)
Definition boom : Action nat string :=
  fun n => (S n, Settles 10 (Rejected (Thrown "boom"))).

Definition boom_call (t : Z) : Call nat string := mkCall t boom None.

Definition cached : Fallback nat string := fun n => (n, Fulfilled "cached"%string).

(** Actions that count their invocations and reject with [undefined], as
    [() => Promise.reject()] does, and with [null]. *)
Definition reject_undefined : Action nat string :=
  fun n => (S n, Settles 10 (Rejected ThrownUndefined)).

Definition reject_null : Action nat string :=
  fun n => (S n, Settles 10 (Rejected ThrownNull)).

Definition reject_undefined_call (t : Z) : Call nat string :=
  mkCall t reject_undefined None.

(** A breaker with the default settings that is half open at time 30000. *)
Definition probing : Breaker := transitionTo HALF_OPEN 30000 tripped.

End CircuitBreaker.

(** ** Browser pool *)

Module BrowserPool.

Local Open Scope Z_scope.

(** A browser object and a promise are known by their identity. *)
Abbreviation Browser := nat.
Abbreviation PromiseId := nat.

(** What the outside world knows of a browser object: [isConnected()] is
    true exactly for [Connected]; [close()] makes it [Closed] (destroyed). *)
Inductive Status := Connected | Disconnected | Closed.

Inductive PoolError :=
| LaunchFailed                (* puppeteer.launch rejected *)
| AcquireTimeout (ms : Z)     (* Browser acquire timeout after ms *)
| ShuttingDown.               (* Browser pool is shutting down *)

Inductive Settlement := Resolved (b : Browser) | Rejected (e : PoolError).

(** Function values are compared by reference ([===]): the [resolve] and
    [reject] a promise executor receives, and the closures around them that
    [acquire] stores in the queue. *)
Inductive ResolveFn :=
| PromiseResolve (p : PromiseId)
| WaiterResolve (p : PromiseId).

Inductive RejectFn :=
| PromiseReject (p : PromiseId)
| WaiterReject (p : PromiseId).

Definition ResolveFn_eqb (f g : ResolveFn) : bool :=
  match f, g with
  | PromiseResolve p, PromiseResolve q => Nat.eqb p q
  | WaiterResolve p, WaiterResolve q => Nat.eqb p q
  | _, _ => false
  end.

(** A queue entry; its [enqueuedAt] is written and never read. *)
Record Waiter := mkWaiter {
  resolve : ResolveFn;
  reject : RejectFn
}.

Record Metrics := mkMetrics {
  totalAcquired : Z;
  totalReleased : Z;
  totalCreated : Z;
  totalDestroyed : Z;
  queueHighWaterMark : Z;
  errors : Z
}.

(** The pool object, followed by what it acts on: the browsers and the
    launches still to come, the promises and the timers of the event loop. *)
Record State := mkState {
  minSize : Z;
  maxSize : Z;
  pool : list Browser;
  activeCount : Z;
  queue : list Waiter;
  metrics : Metrics;
  (* browsers *)
  browsers : gmap nat Status;
  nextBrowser : nat;
  launches : list bool;   (* outcomes of the next launches; then they succeed *)
  inflight : nat;         (* launches started and not awaited, still to settle *)
  (* event loop *)
  settled : gmap nat Settlement;
  timers : gmap nat Z;    (* armed timers, with the timeout they were set for *)
  nextPromise : nat
}.

Definition set_pool (v : list Browser) (s : State) : State :=
  mkState (minSize s) (maxSize s) v (activeCount s) (queue s) (metrics s)
    (browsers s) (nextBrowser s) (launches s) (inflight s)
    (settled s) (timers s) (nextPromise s).
Definition set_activeCount (v : Z) (s : State) : State :=
  mkState (minSize s) (maxSize s) (pool s) v (queue s) (metrics s)
    (browsers s) (nextBrowser s) (launches s) (inflight s)
    (settled s) (timers s) (nextPromise s).
Definition set_queue (v : list Waiter) (s : State) : State :=
  mkState (minSize s) (maxSize s) (pool s) (activeCount s) v (metrics s)
    (browsers s) (nextBrowser s) (launches s) (inflight s)
    (settled s) (timers s) (nextPromise s).
Definition set_metrics (v : Metrics) (s : State) : State :=
  mkState (minSize s) (maxSize s) (pool s) (activeCount s) (queue s) v
    (browsers s) (nextBrowser s) (launches s) (inflight s)
    (settled s) (timers s) (nextPromise s).
Definition set_browsers (v : gmap nat Status) (s : State) : State :=
  mkState (minSize s) (maxSize s) (pool s) (activeCount s) (queue s) (metrics s)
    v (nextBrowser s) (launches s) (inflight s)
    (settled s) (timers s) (nextPromise s).
Definition set_nextBrowser (v : nat) (s : State) : State :=
  mkState (minSize s) (maxSize s) (pool s) (activeCount s) (queue s) (metrics s)
    (browsers s) v (launches s) (inflight s)
    (settled s) (timers s) (nextPromise s).
Definition set_launches (v : list bool) (s : State) : State :=
  mkState (minSize s) (maxSize s) (pool s) (activeCount s) (queue s) (metrics s)
    (browsers s) (nextBrowser s) v (inflight s)
    (settled s) (timers s) (nextPromise s).
Definition set_inflight (v : nat) (s : State) : State :=
  mkState (minSize s) (maxSize s) (pool s) (activeCount s) (queue s) (metrics s)
    (browsers s) (nextBrowser s) (launches s) v
    (settled s) (timers s) (nextPromise s).
Definition set_settled (v : gmap nat Settlement) (s : State) : State :=
  mkState (minSize s) (maxSize s) (pool s) (activeCount s) (queue s) (metrics s)
    (browsers s) (nextBrowser s) (launches s) (inflight s)
    v (timers s) (nextPromise s).
Definition set_timers (v : gmap nat Z) (s : State) : State :=
  mkState (minSize s) (maxSize s) (pool s) (activeCount s) (queue s) (metrics s)
    (browsers s) (nextBrowser s) (launches s) (inflight s)
    (settled s) v (nextPromise s).
Definition set_nextPromise (v : nat) (s : State) : State :=
  mkState (minSize s) (maxSize s) (pool s) (activeCount s) (queue s) (metrics s)
    (browsers s) (nextBrowser s) (launches s) (inflight s)
    (settled s) (timers s) v.

Definition incr_totalAcquired (s : State) : State :=
  let m := metrics s in
  set_metrics (mkMetrics (totalAcquired m + 1) (totalReleased m) (totalCreated m)
                 (totalDestroyed m) (queueHighWaterMark m) (errors m)) s.
Definition incr_totalReleased (s : State) : State :=
  let m := metrics s in
  set_metrics (mkMetrics (totalAcquired m) (totalReleased m + 1) (totalCreated m)
                 (totalDestroyed m) (queueHighWaterMark m) (errors m)) s.
Definition incr_totalCreated (s : State) : State :=
  let m := metrics s in
  set_metrics (mkMetrics (totalAcquired m) (totalReleased m) (totalCreated m + 1)
                 (totalDestroyed m) (queueHighWaterMark m) (errors m)) s.
Definition incr_totalDestroyed (s : State) : State :=
  let m := metrics s in
  set_metrics (mkMetrics (totalAcquired m) (totalReleased m) (totalCreated m)
                 (totalDestroyed m + 1) (queueHighWaterMark m) (errors m)) s.
Definition incr_errors (s : State) : State :=
  let m := metrics s in
  set_metrics (mkMetrics (totalAcquired m) (totalReleased m) (totalCreated m)
                 (totalDestroyed m) (queueHighWaterMark m) (errors m + 1)) s.
Definition set_queueHighWaterMark (v : Z) (s : State) : State :=
  let m := metrics s in
  set_metrics (mkMetrics (totalAcquired m) (totalReleased m) (totalCreated m)
                 (totalDestroyed m) v (errors m)) s.

(** [this.pool.length], [this.queue.length]. *)
Definition poolLength (s : State) : Z := Z.of_nat (length (pool s)).
Definition queueLength (s : State) : Z := Z.of_nat (length (queue s)).

(** *** The browsers *)

Definition isConnected (s : State) (b : Browser) : bool :=
  match browsers s !! b with
  | Some Connected => true
  | _ => false
  end.

(** [browser.close()]; a rejection of it is caught wherever it is called. *)
Definition closeBrowser (b : Browser) (s : State) : State :=
  set_browsers (<[b := Closed]> (browsers s)) s.

(** The browser process dies or loses its connection: not a method of the
    pool, something that happens to it. *)
Definition disconnect (b : Browser) (s : State) : State :=
  match browsers s !! b with
  | Some Connected => set_browsers (<[b := Disconnected]> (browsers s)) s
  | _ => s
  end.

(** [puppeteer.launch(...)] settles: a new connected browser, or a failure
    when the next scripted outcome is [false]. *)
Definition launch (s : State) : State * option Browser :=
  match launches s with
  | false :: rest => (set_launches rest s, None)
  | _ =>
      let b := nextBrowser s in
      (set_launches (tail (launches s))
         (set_nextBrowser (S b) (set_browsers (<[b := Connected]> (browsers s)) s)),
       Some b)
  end.

(** *** Promises and timers *)

(** Settling a promise a second time does nothing. *)
Definition settle (p : PromiseId) (v : Settlement) (s : State) : State :=
  match settled s !! p with
  | None => set_settled (<[p := v]> (settled s)) s
  | Some _ => s
  end.

Definition clearTimeout (p : PromiseId) (s : State) : State :=
  set_timers (delete p (timers s)) s.

Definition call_resolve (f : ResolveFn) (b : Browser) (s : State) : State :=
  match f with
  | PromiseResolve p => settle p (Resolved b) s
  | WaiterResolve p => settle p (Resolved b) (clearTimeout p s)
  end.

Definition call_reject (f : RejectFn) (e : PoolError) (s : State) : State :=
  match f with
  | PromiseReject p => settle p (Rejected e) s
  | WaiterReject p => settle p (Rejected e) (clearTimeout p s)
  end.

(** *** Arrays *)

(** [Array.prototype.pop]: the last element and the rest. *)
Definition pop {A} (l : list A) : option (A * list A) :=
  match last l with
  | Some x => Some (x, removelast l)
  | None => None
  end.

(** [Array.prototype.findIndex]; [None] stands for [-1]. *)
Fixpoint findIndex {A} (f : A -> bool) (l : list A) : option nat :=
  match l with
  | [] => None
  | x :: l' => if f x then Some O else option_map S (findIndex f l')
  end.

(** [Array.prototype.indexOf] on browsers. *)
Definition indexOf (b : Browser) (l : list Browser) : option nat :=
  findIndex (Nat.eqb b) l.

(** [array.splice(index, 1)]. *)
Definition splice1 {A} (index : nat) (l : list A) : list A := delete index l.

(** *** The methods *)

(** [createBrowser()], from the call to the settlement of the launch. *)
Definition createBrowser (s : State) : State * (Browser + PoolError) :=
  match launch s with
  | (s, Some browser) =>
      let s := set_pool (pool s ++ [browser]) s in
      let s := incr_totalCreated s in
      (s, inl browser)
  | (s, None) =>
      let s := incr_errors s in
      (s, inr LaunchFailed)
  end.

(** A [createBrowser()] that nobody awaits: the call returns at once and
    the launch settles later, in [settleLaunch]. *)
Definition startCreateBrowser (s : State) : State :=
  set_inflight (S (inflight s)) s.

Definition settleLaunch (s : State) : State :=
  match inflight s with
  | O => s
  | S n => fst (createBrowser (set_inflight n s))
  end.

(** [n] calls of [createBrowser()], all awaited; [false] if one failed. *)
Fixpoint createBrowsers (n : nat) (s : State) : State * bool :=
  match n with
  | O => (s, true)
  | S n' =>
      let '(s, r) := createBrowser s in
      let '(s, ok) := createBrowsers n' s in
      (s, match r with inl _ => ok | inr _ => false end)
  end.

(** [initialize()], awaited. *)
Definition initialize (s : State) : State * option PoolError :=
  let '(s, ok) := createBrowsers (Z.to_nat (minSize s)) s in
  (s, if ok then None else Some LaunchFailed).

(** The first digit of a positive integer written in decimal, and the
    power of ten at that digit. *)
Fixpoint leading_digit_from (fuel : nat) (v : Z) : Z :=
  match fuel with
  | O => v
  | S fuel' => if v <? 10 then v else leading_digit_from fuel' (v / 10)
  end.

Fixpoint leading_power_from (fuel : nat) (v : Z) : Z :=
  match fuel with
  | O => 1
  | S fuel' => if v <? 10 then 1 else 10 * leading_power_from fuel' (v / 10)
  end.

Definition leading_digit (v : Z) : Z := leading_digit_from (Z.to_nat (Z.log2 v)) v.
Definition leading_power (v : Z) : Z := leading_power_from (Z.to_nat (Z.log2 v)) v.

(** The digit before the point when a number [v >= 10^21] is printed:
    JavaScript prints it in exponent notation with the fewest digits
    that still round to [v], as in [1e+21] and [1.5e+21].  With
    [v = m * 2^e] and [2^52 <= m < 2^53], what rounds to [v] lies within
    half a step [2^e] of it (a quarter below a power of two), the ends
    included when [m] is even.  A one-digit number [d * 10^k] in that
    range is printed as it is; otherwise all of the range has the first
    digit of [v]. *)
Definition printed_leading_digit (v : Z) : Z :=
  let e := Z.log2 v - 52 in
  let above := 2 ^ (e - 1) in
  let below := if v =? 2 ^ Z.log2 v then 2 ^ (e - 2) else above in
  let p := leading_power v in
  let c := (v + p / 2) / p * p in
  let rounds_to_v :=
    if Z.even (v / 2 ^ e)
    then (v - below <=? c) && (c <=? v + above)
    else (v - below <? c) && (c <? v + above) in
  if rounds_to_v then leading_digit c else leading_digit v.

(** [parseInt(v)] of a number with an integer value: the number is
    printed and the digits at the head of the print are read.  Below
    10^21 the number is printed in full and read back as it is. *)
Definition parseInt_number (v : Z) : Z :=
  if Z.abs v <? 10 ^ 21 then v
  else Z.sgn v * printed_leading_digit (Z.abs v).

(** [parseInt(option || env || d)]: the option counts unless missing or 0,
    then the environment variable (a non-empty string, so 0 counts), given
    by the integer [parseInt] reads from it. *)
Definition size_setting (option env : option Z) (d : Z) : Z :=
  match option with
  | Some v => if v =? 0 then default (parseInt_number d) env else parseInt_number v
  | None => default (parseInt_number d) env
  end.

(** [new BrowserPool(options)]: the fields, and an [initialize()] that is
    started and not awaited. *)
Definition new (opt_min env_min opt_max env_max : option Z)
    (script : list bool) : State :=
  let min := size_setting opt_min env_min 2 in
  {| minSize := min;
     maxSize := size_setting opt_max env_max 5;
     pool := []; activeCount := 0; queue := [];
     metrics := mkMetrics 0 0 0 0 0 0;
     browsers := ∅; nextBrowser := O; launches := script;
     inflight := Z.to_nat min;
     settled := ∅; timers := ∅; nextPromise := O |}.

Inductive AcquireResult :=
| Acquired (browser : Browser)
| Failed (e : PoolError)
| Pending (p : PromiseId).

(** [acquire(timeout)].  It calls itself after throwing away a dead idle
    browser, so it is defined by recursion on [idle], the length of the
    idle list: [S _] is the test [this.pool.length > 0]. *)
Fixpoint acquire_rec (idle : nat) (timeout : Z) (s : State)
    : State * AcquireResult :=
  let s := incr_totalAcquired s in
  match idle, pop (pool s) with
  | S idle', Some (browser, rest) =>
      let s := set_pool rest s in
      let s := set_activeCount (activeCount s + 1) s in
      if negb (isConnected s browser) then
        let s := closeBrowser browser s in
        let s := set_activeCount (activeCount s - 1) s in
        let s := incr_totalDestroyed s in
        acquire_rec idle' timeout s
      else (s, Acquired browser)
  | _, _ =>
      if activeCount s <? maxSize s then
        let s := set_activeCount (activeCount s + 1) s in
        match createBrowser s with
        | (s, inl browser) =>
            let s := set_pool (removelast (pool s)) s in
            (s, Acquired browser)
        | (s, inr error) =>
            let s := set_activeCount (activeCount s - 1) s in
            (s, Failed error)
        end
      else
        let s := set_queueHighWaterMark
                   (Z.max (queueHighWaterMark (metrics s)) (queueLength s + 1)) s in
        let p := nextPromise s in
        let s := set_nextPromise (S p) s in
        let s := set_timers (<[p := timeout]> (timers s)) s in
        let s := set_queue (queue s ++ [mkWaiter (WaiterResolve p) (WaiterReject p)]) s in
        (s, Pending p)
  end.

Definition acquire (timeout : Z) (s : State) : State * AcquireResult :=
  acquire_rec (length (pool s)) timeout s.

(** The timer that [acquire] armed for promise [p] fires. *)
Definition fireTimeout (p : PromiseId) (s : State) : State :=
  match timers s !! p with
  | None => s
  | Some timeout =>
      let s := set_timers (delete p (timers s)) s in
      let index :=
        findIndex (fun item => ResolveFn_eqb (resolve item) (PromiseResolve p))
                  (queue s) in
      let s := match index with
               | Some i => set_queue (splice1 i (queue s)) s
               | None => s
               end in
      call_reject (PromiseReject p) (AcquireTimeout timeout) s
  end.

(** [release(browser)]. *)
Definition release (browser : Browser) (s : State) : State :=
  let s := incr_totalReleased s in
  let s := set_activeCount (activeCount s - 1) s in
  if negb (isConnected s browser) then
    let s := closeBrowser browser s in
    let s := incr_totalDestroyed s in
    if poolLength s + activeCount s <? minSize s
    then startCreateBrowser s
    else s
  else
    match queue s with
    | item :: rest =>
        let s := set_queue rest s in
        let s := set_activeCount (activeCount s + 1) s in
        call_resolve (resolve item) browser s
    | [] =>
        if poolLength s <? maxSize s then
          set_pool (pool s ++ [browser]) s
        else
          let s := closeBrowser browser s in
          incr_totalDestroyed s
    end.

(** The [while] loop of [healthCheck]: create browsers while the pool is
    below [minSize]; a failed launch is logged and the loop goes on. *)
Fixpoint replenish (fuel : nat) (s : State) : State :=
  if poolLength s + activeCount s <? minSize s then
    match fuel with
    | S fuel' => replenish fuel' (fst (createBrowser s))
    | O => s
    end
  else s.

Definition removeUnhealthy (s : State) (browser : Browser) : State :=
  let s := match indexOf browser (pool s) with
           | Some index => set_pool (splice1 index (pool s)) s
           | None => s
           end in
  let s := closeBrowser browser s in
  incr_totalDestroyed s.

Record HealthReport := mkHealthReport {
  removedUnhealthy : nat;
  currentSize : nat
}.

(** [healthCheck()].  The launches that fail are finitely many, so the
    replenishing loop ends within the fuel given here. *)
Definition healthCheck (s : State) : State * HealthReport :=
  let unhealthyBrowsers :=
    List.filter (fun browser => negb (isConnected s browser)) (pool s) in
  let s := fold_left removeUnhealthy unhealthyBrowsers s in
  let s := match unhealthyBrowsers with
           | [] => s
           | _ :: _ =>
               replenish (length (launches s)
                          + Z.to_nat (minSize s - (poolLength s + activeCount s))) s
           end in
  (s, mkHealthReport (length unhealthyBrowsers) (length (pool s))).

(** The first loop of [cleanup]: shift and reject every queued request. *)
Fixpoint rejectQueued (q : list Waiter) (s : State) : State :=
  match q with
  | [] => s
  | item :: rest =>
      rejectQueued rest (call_reject (reject item) ShuttingDown (set_queue rest s))
  end.

(** [cleanup()]. *)
Definition cleanup (s : State) : State :=
  let s := rejectQueued (queue s) s in
  let s := fold_left (fun s browser => closeBrowser browser s) (pool s) s in
  let s := set_pool [] s in
  set_activeCount 0 s.

Record Stats := mkStats {
  stat_poolSize : Z;
  stat_activeCount : Z;
  stat_queueSize : Z
}.

(** [getStats()], without the copies of the settings and counters. *)
Definition getStats (s : State) : Stats :=
  mkStats (poolLength s) (activeCount s) (queueLength s).

(** What can happen to a pool: the calls of its methods, each run to
    completion, and what its surroundings do. *)
Inductive Event :=
| Acquire (timeout : Z)
| Release (browser : Browser)
| HealthCheck
| Initialize
| Cleanup
| FireTimeout (p : PromiseId)
| SettleLaunch
| Disconnect (browser : Browser).

Definition step (s : State) (e : Event) : State :=
  match e with
  | Acquire timeout => fst (acquire timeout s)
  | Release browser => release browser s
  | HealthCheck => fst (healthCheck s)
  | Initialize => fst (initialize s)
  | Cleanup => cleanup s
  | FireTimeout p => fireTimeout p s
  | SettleLaunch => settleLaunch s
  | Disconnect browser => disconnect browser s
  end.

Definition run (events : list Event) (s : State) : State :=
  fold_left step events s.

(** The bound the pool is meant to keep. *)
Definition within_maxSize (s : State) : bool :=
  activeCount s + poolLength s <=? maxSize s.

(** *** Vocabulary of the properties *)

(** The branch of [acquire] taken when no browser is idle: create one, or
    queue the request. *)
Definition acquire_fresh (timeout : Z) (s : State) : State * AcquireResult :=
  if activeCount s <? maxSize s then
    let s := set_activeCount (activeCount s + 1) s in
    match createBrowser s with
    | (s, inl browser) =>
        let s := set_pool (removelast (pool s)) s in
        (s, Acquired browser)
    | (s, inr error) =>
        let s := set_activeCount (activeCount s - 1) s in
        (s, Failed error)
    end
  else
    let s := set_queueHighWaterMark
               (Z.max (queueHighWaterMark (metrics s)) (queueLength s + 1)) s in
    let p := nextPromise s in
    let s := set_nextPromise (S p) s in
    let s := set_timers (<[p := timeout]> (timers s)) s in
    let s := set_queue (queue s ++ [mkWaiter (WaiterResolve p) (WaiterReject p)]) s in
    (s, Pending p).

(** The state in which [acquire] hands out the idle browser it popped, and
    the state in which it calls itself after finding that browser dead. *)
Definition popped (rest : list Browser) (s : State) : State :=
  set_activeCount (activeCount s + 1) (set_pool rest (incr_totalAcquired s)).

Definition discarded (browser : Browser) (rest : list Browser) (s : State) : State :=
  let s := closeBrowser browser (popped rest s) in
  incr_totalDestroyed (set_activeCount (activeCount s - 1) s).

(** What [acquire] does to the rest of the state, and what it returns. *)
Definition acquire_post (timeout : Z) (s : State) (r : State * AcquireResult) : Prop :=
  let s' := fst r in
  settled s' = settled s /\
  minSize s' = minSize s /\ maxSize s' = maxSize s /\
  inflight s' = inflight s /\
  (activeCount s + poolLength s <= maxSize s ->
   activeCount s' + poolLength s' <= maxSize s) /\
  match snd r with
  | Acquired b =>
      browsers s' !! b = Some Connected /\ queue s' = queue s /\
      timers s' = timers s
  | Failed _ => queue s' = queue s /\ timers s' = timers s
  | Pending p =>
      p = nextPromise s /\
      queue s' = queue s ++ [mkWaiter (WaiterResolve p) (WaiterReject p)] /\
      timers s' = <[p := timeout]> (timers s)
  end.

(** The promise a function of a queue entry settles. *)
Definition resolveTarget (f : ResolveFn) : PromiseId :=
  match f with PromiseResolve p | WaiterResolve p => p end.
Definition rejectTarget (f : RejectFn) : PromiseId :=
  match f with PromiseReject p | WaiterReject p => p end.

(** The part of the state that creating and closing browsers leaves alone. *)
Definition waiting (s : State) : list Waiter * gmap nat Settlement * gmap nat Z :=
  (queue s, settled s, timers s).

(** The queue entries made by [acquire]: both functions are the closures
    around the promise's own. *)
Definition queued_by_acquire (item : Waiter) : Prop :=
  exists p, item = mkWaiter (WaiterResolve p) (WaiterReject p).

(** The browsers the pool counts, and its two settings. *)
Definition counted (s : State) : Z := activeCount s + poolLength s.
Definition sizes (s : State) : Z * Z := (minSize s, maxSize s).

(** A pool with the default sizes, 2 to 5, once the two launches of its
    constructor have settled. *)
Definition warm : State :=
  run [SettleLaunch; SettleLaunch] (new None None None None []).

(** A pool of exactly one browser, and a pool of exactly two. *)
Definition solo : State :=
  run [SettleLaunch] (new (Some 1) None (Some 1) None []).
Definition pair : State :=
  run [SettleLaunch; SettleLaunch] (new (Some 2) None (Some 2) None []).

End BrowserPool.

(** ** Single scans: [scanURL] over the pool *)

Module Scanner.

Import BrowserPool.
Local Open Scope Z_scope.

Definition MAX_RETRIES : nat := 3.

(** [browserPool.acquire()] is called without argument: [timeout = 30000]. *)
Definition ACQUIRE_TIMEOUT : Z := 30000.

(** What an attempt threw: the rejection of [acquire], or an error of the
    page (navigation, analysis), known by its message. *)
Inductive Cause :=
| PoolFailure (e : PoolError)
| PageFailure (message : string).

Inductive ScanError :=
| PrivateURL                                 (* the SSRF check refused the URL *)
| ScanFailed (retries : nat) (cause : Cause). (* Scan failed after N retries: cause *)

Section ScanURL.

Context {AxeResults ScanResult : Type}.

(** The URL check and the formatting of a result are taken as given. *)
Variable isPrivateIP : string -> bool.
Variable formatScanResults : string -> AxeResults -> ScanResult.

Inductive ScanOutcome :=
| Scanned (result : ScanResult)
| Threw (e : ScanError)
| ReturnedUndefined.

(** What the page does in one attempt, from [newPage()] to
    [page.close()]: the analysis or the message of the error thrown, and
    whether the browser loses its connection on the way. *)
Record PageRun := mkPageRun {
  crashes : bool;
  analysis : AxeResults + string
}.

(** One turn of the loop: the [try] block and, when it throws, the clean
    up of the [catch] block.  The scan runs alone: a queued [acquire] is
    not served by anybody and its timer fires. *)
Definition attempt (page : PageRun) (s : State) : State * (AxeResults + Cause) :=
  match acquire ACQUIRE_TIMEOUT s with
  | (s, Acquired browser) =>
      let s := if crashes page then disconnect browser s else s in
      match analysis page with
      | inl axeResults =>
          let s := release browser s in
          (s, inl axeResults)
      | inr message =>
          let s := release browser s in
          (s, inr (PageFailure message))
      end
  | (s, Pending p) =>
      (fireTimeout p s, inr (PoolFailure (AcquireTimeout ACQUIRE_TIMEOUT)))
  | (s, Failed e) => (s, inr (PoolFailure e))
  end.

(** The [while (retries < MAX_RETRIES)] loop; [todo] is
    [MAX_RETRIES - retries].  [waits] collects the delays slept between
    attempts. *)
Fixpoint scanLoop (todo retries : nat) (url : string) (pages : nat -> PageRun)
    (s : State) (waits : list Z) : State * list Z * ScanOutcome :=
  match todo with
  | O => (s, waits, ReturnedUndefined)
  | S todo' =>
      match attempt (pages retries) s with
      | (s, inl axeResults) =>
          (s, waits, Scanned (formatScanResults url axeResults))
      | (s, inr cause) =>
          let retries := S retries in
          if (MAX_RETRIES <=? retries)%nat
          then (s, waits, Threw (ScanFailed MAX_RETRIES cause))
          else scanLoop todo' retries url pages s
                 (waits ++ [1000 * Z.of_nat retries])
      end
  end.

(** [scanURL(url)]; [pages n] is what the page does in the attempt made
    after [n] failures. *)
Definition scanURL (url : string) (pages : nat -> PageRun) (s : State)
    : State * list Z * ScanOutcome :=
  if isPrivateIP url then (s, [], Threw PrivateURL)
  else scanLoop MAX_RETRIES 0 url pages s [].

(** The state in which the attempt after [n] failures starts. *)
Fixpoint stateBefore (n : nat) (pages : nat -> PageRun) (s : State) : State :=
  match n with
  | O => s
  | S n' => fst (attempt (pages n') (stateBefore n' pages s))
  end.

(** The delays slept after failures [1] to [n]. *)
Definition backoff (n : nat) : list Z :=
  map (fun k => 1000 * Z.of_nat k) (seq 1 n).

(** The attempt made after [n] failures fails. *)
Definition fails_at (pages : nat -> PageRun) (s : State) (n : nat) : Prop :=
  exists cause, snd (attempt (pages n) (stateBefore n pages s)) = inr cause.

End ScanURL.

(** *** Examples *)

(** A page that times out in every attempt, and one that does so twice
    before the analysis succeeds; neither loses the browser. *)
Definition never_loads : nat -> @PageRun string :=
  fun _ => mkPageRun false (inr "Navigation timeout"%string).

Definition loads_at_third : nat -> @PageRun string :=
  fun n => match n with
           | 2%nat => mkPageRun false (inl "no violations"%string)
           | _ => mkPageRun false (inr "Navigation timeout"%string)
           end.

Definition public : string -> bool := fun _ => false.
Definition report (url axeResults : string) : string * string := (url, axeResults).

End Scanner.

(** ** Bulk scans: [processBulkScan] *)

Module BulkScan.

Local Open Scope Z_scope.

(** [parseInt(process.env.SCAN_CONCURRENCY) || 3]. *)
Definition concurrency_setting (env : option Z) : Z :=
  match env with
  | Some n => if n =? 0 then 3 else n
  | None => 3
  end.

(** An index argument of [Array.prototype.slice] on an array of [len]
    elements: counted from the end when negative, and clamped. *)
Definition slice_index (k len : Z) : Z :=
  if k <? 0 then Z.max (len + k) 0 else Z.min k len.

(** [l.slice(start, end)]. *)
Definition slice {A} (start_ end_ : Z) (l : list A) : list A :=
  let len := Z.of_nat (length l) in
  let from := slice_index start_ len in
  let to := slice_index end_ len in
  take (Z.to_nat (to - from)) (drop (Z.to_nat from) l).

Inductive BatchState := Processing | Completed.

(** [batches] cuts [l] into consecutive waves of [c] elements, the last
    one possibly shorter and none empty. *)
Inductive waves_of {A} (c : nat) : list (list A) -> list A -> Prop :=
| waves_none : waves_of c [] []
| waves_last batch :
    (0 < length batch <= c)%nat -> waves_of c [batch] batch
| waves_next batch rest l :
    length batch = c -> rest <> [] -> waves_of c rest l ->
    waves_of c (batch :: rest) (batch ++ l).

Section Bulk.

Context {ScanResult : Type}.

(** How a promise of [scanURL] settles, as [Promise.allSettled] reports
    it: the value, or the message of the reason. *)
Inductive Settled := Fulfilled (value : ScanResult) | Rejected (message : string).

(** The scans themselves are taken as given. *)
Variable scanURL : string -> Settled.

Record ResultEntry := mkResultEntry { result_url : string; result_value : ScanResult }.
Record ErrorEntry := mkErrorEntry { error_url : string; error_message : string }.

(** An entry of [bulkScanResults]; the times of the completed entry are
    left out. *)
Record BatchStatus := mkBatchStatus {
  status : BatchState;
  progress : Z;
  total : Z;
  results : list ResultEntry;
  errors : list ErrorEntry
}.

(** The [forEach] over the settled promises of a batch. *)
Definition collect (acc : list ResultEntry * list ErrorEntry)
    (settled : string * Settled) : list ResultEntry * list ErrorEntry :=
  let '(results, errors) := acc in
  let '(url, result) := settled in
  match result with
  | Fulfilled value => (results ++ [mkResultEntry url value], errors)
  | Rejected message => (results, errors ++ [mkErrorEntry url message])
  end.

(** What the function has done so far: the two arrays, the map of batch
    statuses, and for reference every batch handed to
    [Promise.allSettled] and every status written, in order. *)
Record Run := mkRun {
  run_results : list ResultEntry;
  run_errors : list ErrorEntry;
  bulkScanResults : gmap string BatchStatus;
  batches : list (list string);
  written : list BatchStatus
}.

Definition write (batchId : string) (st : BatchStatus) (r : Run) : Run :=
  mkRun (run_results r) (run_errors r)
        (<[batchId := st]> (bulkScanResults r))
        (batches r) (written r ++ [st]).

(** The [for (let i = 0; i < urls.length; i += concurrency)] loop; it
    needs one unit of [fuel] per batch. *)
Fixpoint waves (fuel : nat) (i concurrency : Z) (batchId : string)
    (urls : list string) (r : Run) : option Run :=
  let n := Z.of_nat (length urls) in
  if i <? n then
    match fuel with
    | O => None
    | S fuel' =>
        let batch := slice i (i + concurrency) urls in
        let batchResults := map scanURL batch in
        let '(results, errors) :=
          fold_left collect (combine batch batchResults)
                    (run_results r, run_errors r) in
        let r := mkRun results errors (bulkScanResults r)
                       (batches r ++ [batch]) (written r) in
        let r := write batchId
                   (mkBatchStatus Processing (Z.min (i + concurrency) n) n
                                  results errors) r in
        waves fuel' (i + concurrency) concurrency batchId urls r
    end
  else Some r.

(** [processBulkScan(batchId, urls, options)]; [env] is the value of
    [SCAN_CONCURRENCY] and [store] the map [bulkScanResults] when the
    function is called.  [None] when the loop does not end. *)
Definition processBulkScan (batchId : string) (urls : list string)
    (env : option Z) (store : gmap string BatchStatus) : option Run :=
  let n := Z.of_nat (length urls) in
  let r := write batchId (mkBatchStatus Processing 0 n [] [])
                 (mkRun [] [] store [] []) in
  let concurrency := concurrency_setting env in
  match waves (length urls) 0 concurrency batchId urls r with
  | Some r =>
      Some (write batchId
              (mkBatchStatus Completed n n (run_results r) (run_errors r)) r)
  | None => None
  end.

Definition fulfilled (url : string) : bool :=
  match scanURL url with Fulfilled _ => true | Rejected _ => false end.

(** The results and the errors are those of the first [k] URLs, in the
    order of the URLs. *)
Definition covers (k : nat) (urls : list string)
    (results : list ResultEntry) (errors : list ErrorEntry) : Prop :=
  map result_url results = List.filter fulfilled (take k urls) /\
  map error_url errors = List.filter (fun url => negb (fulfilled url)) (take k urls).

(** What one wave writes under [batchId] while [i] URLs are done. *)
Definition wave_status (urls : list string) (i c k : nat)
    (st : BatchStatus) : Prop :=
  status st = Processing /\
  total st = Z.of_nat (length urls) /\
  progress st = Z.min (Z.of_nat (i + S k * c)) (Z.of_nat (length urls)) /\
  covers (Z.to_nat (progress st)) urls (results st) (errors st).

End Bulk.

Arguments Settled : clear implicits.
Arguments ResultEntry : clear implicits.
Arguments BatchStatus : clear implicits.
Arguments Run : clear implicits.

(** *** Examples *)

(** Ten URLs of which the fourth and the eighth cannot be scanned. *)
Definition ten : list string :=
  ["u0"; "u1"; "u2"; "u3"; "u4"; "u5"; "u6"; "u7"; "u8"; "u9"]%string.

Definition scan_but_two (url : string) : Settled nat :=
  if (String.eqb url "u3" || String.eqb url "u7")%bool
  then Rejected "Scan failed after 3 retries: Navigation timeout"
  else Fulfilled (String.length url).

End BulkScan.

(** * Further parts of the backend

    What surrounds the four parts above: the manager, the counters and
    the listeners of the circuit breakers, [scanHTML] and the URL check
    of the scanner, the SSRF check of the server ([unnamed/part_007])
    and the cache client in its in-memory mode ([unnamed/part_009]).
    Strings are taken to hold ASCII characters only, as URLs and host
    names do once parsed. *)

(** ** More of the circuit breaker: counters and manager *)

Module CircuitBreakerManager.

Import CircuitBreaker.
Local Open Scope Z_scope.

(** [resetMetrics()]: the counters go back to 0, [stateChanges] stays. *)
Definition resetMetrics (cb : Breaker) : Breaker :=
  with_metrics (fun m => mkMetrics 0 0 0 0 0 (stateChanges m)) cb.

(** [this.breakers], a [Map] from names to breakers. *)
Abbreviation Manager := (gmap string Breaker).

(** [{ ...options, name }]. *)
Definition with_name (name : string) (options : Options) : Options :=
  mkOptions (Some name) (opt_failureThreshold options)
            (opt_successThreshold options) (opt_timeout options)
            (opt_resetTimeout options).

(** [getBreaker(name, options)], called at time [now]. *)
Definition getBreaker (name : string) (options : Options) (now : Z)
    (m : Manager) : Manager * Breaker :=
  match m !! name with
  | Some cb => (m, cb)
  | None =>
      let cb := new (with_name name options) now in
      (<[name := cb]> m, cb)
  end.

(** [resetAll()]; [clock name] is the time at which the breaker [name]
    is closed. *)
Definition resetAll (clock : string -> Z) (m : Manager) : Manager :=
  map_imap (fun name cb => Some (close (clock name) cb)) m.

Section Ops.

Context {W A : Type}.

(** What can be done with a breaker: a call of [execute], a manual
    control, a reset of the counters. *)
Inductive Op :=
| Exec (c : Call W A)
| Manual (m : ManualStep)
| ResetMetrics.

Definition apply_op (cbw : Breaker * W) (op : Op) : Breaker * W :=
  match op with
  | Exec c => execute_call cbw c
  | Manual m => (manual_step m (fst cbw), snd cbw)
  | ResetMetrics => (resetMetrics (fst cbw), snd cbw)
  end.

Definition apply_ops (ops : list Op) (cbw : Breaker * W) : Breaker * W :=
  fold_left apply_op ops cbw.

(** A call whose action fulfils in time whatever it finds. *)
Definition succeeding (limit : Z) (c : Call W A) : Prop :=
  forall w, fails limit (snd (call_fn c w)) = false.

(** The call ends as announced: [true] for a success. *)
Definition behaves (limit : Z) (c : Call W A) (ok : bool) : Prop :=
  if ok then succeeding limit c else failing limit c.

(** What a call does to the world when only its fallback runs. *)
Definition fallback_only (w : W) (c : Call W A) : W :=
  match call_fallback c with
  | Some fb => fst (fb w)
  | None => w
  end.

End Ops.

Arguments Op : clear implicits.

(** *** Vocabulary of the properties *)

(** The counters add up: every request ended as a success, a failure or
    a rejection, and a fallback was used only for one of the last two. *)
Definition accounted (cb : Breaker) : Prop :=
  let m := metrics cb in
  totalRequests m = totalSuccesses m + totalFailures m + totalRejections m /\
  0 <= totalSuccesses m /\ 0 <= totalFailures m /\ 0 <= totalRejections m /\
  0 <= totalFallbacks m <= totalFailures m + totalRejections m.

(** No [threshold] failures in a row, [streak] failures having just
    been counted. *)
Fixpoint calm (threshold streak : Z) (outcomes : list bool) : bool :=
  match outcomes with
  | [] => true
  | true :: rest => calm threshold 0 rest
  | false :: rest => (streak + 1 <? threshold) && calm threshold (streak + 1) rest
  end.

(** The failures in a row at the end of [outcomes]. *)
Fixpoint streak_after (streak : Z) (outcomes : list bool) : Z :=
  match outcomes with
  | [] => streak
  | true :: rest => streak_after 0 rest
  | false :: rest => streak_after (streak + 1) rest
  end.

(** An action that counts its invocations and answers at once. *)
Definition ping : Action nat string :=
  fun n => (S n, Settles 10 (Fulfilled "pong"%string)).

Definition ping_call (t : Z) : Call nat string := mkCall t ping None.

(** An action that answers after 60000 ms, when the timer of a breaker
    with the default [timeout] is due. *)
Definition on_the_dot : Action nat string :=
  fun n => (S n, Settles 60000 (Fulfilled "pong"%string)).

End CircuitBreakerManager.

(** ** Strings and regular expressions of JavaScript *)

Module JsString.

Import Stdlib.Strings.Ascii.
Local Open Scope string_scope.

(** [s.startsWith(t)], [s.endsWith(t)], [s.includes(t)]. *)
Fixpoint startsWith (s t : string) {struct t} : bool :=
  match t, s with
  | EmptyString, _ => true
  | String a t', String b s' => Ascii.eqb a b && startsWith s' t'
  | String _ _, EmptyString => false
  end.

Fixpoint endsWith (s t : string) : bool :=
  String.eqb s t ||
  match s with
  | EmptyString => false
  | String _ s' => endsWith s' t
  end.

Fixpoint includes (s t : string) : bool :=
  startsWith s t ||
  match s with
  | EmptyString => false
  | String _ s' => includes s' t
  end.

(** [s.toLowerCase()]. *)
Definition lower (c : ascii) : ascii :=
  let n := nat_of_ascii c in
  if (65 <=? n)%nat && (n <=? 90)%nat then ascii_of_nat (n + 32) else c.

Fixpoint toLowerCase (s : string) : string :=
  match s with
  | EmptyString => EmptyString
  | String c s' => String (lower c) (toLowerCase s')
  end.

(** [s.replace(c, '')] for a one-character string [c]: its first
    occurrence goes. *)
Fixpoint remove_first (c : ascii) (s : string) : string :=
  match s with
  | EmptyString => EmptyString
  | String d s' => if Ascii.eqb c d then s' else String d (remove_first c s')
  end.

(** [s.split(c)] for a one-character string [c]. *)
Fixpoint split (c : ascii) (s : string) : list string :=
  match s with
  | EmptyString => [EmptyString]
  | String d s' =>
      if Ascii.eqb c d then EmptyString :: split c s'
      else match split c s' with
           | part :: parts => String d part :: parts
           | [] => [String d EmptyString]
           end
  end.

(** The last character of [s], if it has one. *)
Fixpoint last_char (s : string) : option ascii :=
  match s with
  | EmptyString => None
  | String c EmptyString => Some c
  | String _ s' => last_char s'
  end.

(** The class [\d]. *)
Definition is_digit (c : ascii) : bool :=
  let n := nat_of_ascii c in (48 <=? n)%nat && (n <=? 57)%nat.

Fixpoint all_digits (s : string) : bool :=
  match s with
  | EmptyString => true
  | String c s' => is_digit c && all_digits s'
  end.

(** The value of a string of digits. *)
Fixpoint decimal_from (acc : Z) (s : string) : Z :=
  match s with
  | EmptyString => acc
  | String c s' =>
      decimal_from (10 * acc + Z.of_nat (nat_of_ascii c - 48))%Z s'
  end.

Definition decimal (s : string) : Z := decimal_from 0 s.

End JsString.

Module Regex.

Import Stdlib.Strings.Ascii.
Import JsString.
Local Open Scope string_scope.

(** The regular expressions the sources use. *)
Inductive Re :=
| Lit (s : string)        (* a sequence of literal characters *)
| Digit                   (* \d *)
| Digits                  (* \d+ *)
| Range (lo hi : ascii)   (* [lo-hi] *)
| Seq (r1 r2 : Re)
| Alt (r1 r2 : Re)        (* r1|r2 *)
| Opt (r : Re).           (* r? *)

(** What is left of [s] after the literal prefix [p]. *)
Fixpoint strip (p s : string) {struct p} : option string :=
  match p, s with
  | EmptyString, _ => Some s
  | String a p', String b s' => if Ascii.eqb a b then strip p' s' else None
  | String _ _, EmptyString => None
  end.

(** What can be left of [s] after one digit or more. *)
Fixpoint after_digits (s : string) : list string :=
  match s with
  | String c s' => if is_digit c then s' :: after_digits s' else []
  | EmptyString => []
  end.

(** Every way [r] matches at the start of [s], as what is left of [s]. *)
Fixpoint run (r : Re) (s : string) : list string :=
  match r with
  | Lit p => match strip p s with Some rest => [rest] | None => [] end
  | Digit => match s with
             | String c s' => if is_digit c then [s'] else []
             | EmptyString => []
             end
  | Digits => after_digits s
  | Range lo hi =>
      match s with
      | String c s' =>
          if (nat_of_ascii lo <=? nat_of_ascii c)%nat
             && (nat_of_ascii c <=? nat_of_ascii hi)%nat
          then [s'] else []
      | EmptyString => []
      end
  | Seq r1 r2 => flat_map (run r2) (run r1 s)
  | Alt r1 r2 => (run r1 s ++ run r2 s)%list
  | Opt r => (run r s ++ [s])%list
  end.

(** [/^r/.test(s)]: [r] matches at the start of [s]. *)
Definition test_start (r : Re) (s : string) : bool :=
  match run r s with [] => false | _ :: _ => true end.

(** [/^r$/.test(s)]: [r] matches all of [s]. *)
Definition test_whole (r : Re) (s : string) : bool :=
  existsb (String.eqb EmptyString) (run r s).

(** Expressions written one after the other. *)
Fixpoint seq (rs : list Re) : Re :=
  match rs with
  | [] => Lit ""
  | [r] => r
  | r :: rs' => Seq r (seq rs')
  end.

End Regex.

(** ** The listeners of a circuit breaker *)

Module BreakerEvents.

Import Stdlib.Strings.Ascii.
Import CircuitBreaker JsString.
Local Open Scope string_scope.

(** A callback is known by its identity. *)
Abbreviation Callback := nat.

(** [this.listeners]: an object with one array of callbacks per event. *)
Abbreviation Listeners := (gmap string (list Callback)).

(** The table the constructor makes. *)
Definition no_listeners : Listeners :=
  list_to_map [("open", []); ("close", []); ("halfOpen", []);
               ("failure", []); ("success", []); ("fallback", [])].

(** The members every object inherits: [this.listeners[event]] finds one
    of them, and no array, when [event] is one of these names. *)
Definition Object_prototype : list string :=
  [ "constructor"; "__proto__"; "hasOwnProperty"; "isPrototypeOf";
    "propertyIsEnumerable"; "toLocaleString"; "toString"; "valueOf";
    "__defineGetter__"; "__defineSetter__"; "__lookupGetter__";
    "__lookupSetter__" ].

(** [on(event, callback)]; [None] when [push] is called on an inherited
    member and throws. *)
Definition on (event : string) (callback : Callback) (l : Listeners)
    : option Listeners :=
  match l !! event with
  | Some callbacks => Some (<[event := (callbacks ++ [callback])%list]> l)
  | None =>
      if existsb (String.eqb event) Object_prototype then None else Some l
  end.

(** [emit(event, data)] for the names the class emits: the callbacks it
    calls, in order.  What a callback throws is caught and logged. *)
Definition emit (event : string) (l : Listeners) : list Callback :=
  default [] (l !! event).

(** The names of the states. *)
Definition state_name (st : State) : string :=
  match st with
  | CLOSED => "CLOSED"
  | OPEN => "OPEN"
  | HALF_OPEN => "HALF_OPEN"
  end.

(** The event that [transitionTo(newState)] emits:
    [newState.toLowerCase().replace('_', '')]. *)
Definition transition_event (newState : State) : string :=
  remove_first "_" (toLowerCase (state_name newState)).

(** *** Vocabulary of the properties *)

(** Registrations made one after the other. *)
Fixpoint register (registrations : list (string * Callback)) (l : Listeners)
    : option Listeners :=
  match registrations with
  | [] => Some l
  | (event, callback) :: rest =>
      match on event callback l with
      | Some l' => register rest l'
      | None => None
      end
  end.

(** The callbacks registered for [event], in order. *)
Definition registered (event : string) (registrations : list (string * Callback))
    : list Callback :=
  map snd (List.filter (fun r => String.eqb (fst r) event) registrations).

End BreakerEvents.

(** ** More of the browser pool *)

Module BrowserPoolLaunches.

Import BrowserPool.
Local Open Scope Z_scope.



(** The longest the queue is along the events, from [s] on. *)
Fixpoint peak (events : list Event) (s : State) : Z :=
  match events with
  | [] => queueLength s
  | e :: rest => Z.max (queueLength s) (peak rest (step s e))
  end.

(** The two numbers the high-water mark is about. *)
Definition marks (s : State) : Z * Z :=
  (queueHighWaterMark (metrics s), queueLength s).

End BrowserPoolLaunches.

(** ** More of the scanner: [scanHTML] and the URL check *)

Module ScanHTML.

Import BrowserPool Scanner.
Local Open Scope Z_scope.

Section ScanHTML.

Context {AxeResults ScanResult : Type}.

Variable formatScanResults : string -> AxeResults -> ScanResult.

(** [scanHTML(html)]: one attempt; what it catches it throws again as it
    is, after the clean up that [scanURL] does too. *)
Definition scanHTML (page : @PageRun AxeResults) (s : State)
    : State * (ScanResult + Cause) :=
  match acquire ACQUIRE_TIMEOUT s with
  | (s, Acquired browser) =>
      let s := if crashes page then disconnect browser s else s in
      match analysis page with
      | inl axeResults =>
          let s := release browser s in
          (s, inl (formatScanResults "[HTML Content]" axeResults))
      | inr message =>
          let s := release browser s in
          (s, inr (PageFailure message))
      end
  | (s, Pending p) =>
      (fireTimeout p s, inr (PoolFailure (AcquireTimeout ACQUIRE_TIMEOUT)))
  | (s, Failed e) => (s, inr (PoolFailure e))
  end.

End ScanHTML.

(** *** Vocabulary of the properties *)

(** The pool has room: nobody waits and a browser may still be lent. *)
Definition has_room (s : State) : Prop :=
  queue s = [] /\ activeCount s < maxSize s.

(** What a scan can leave changed in the books of the pool. *)
Definition lent (s : State) : Z * list Waiter * Z :=
  (activeCount s, queue s, maxSize s).

End ScanHTML.

Module PrivateURL.

Import Stdlib.Strings.Ascii.
Import JsString Regex.
Local Open Scope string_scope.

(** [https?:\/\/]. *)
Definition scheme : Re := seq [Lit "http"; Opt (Lit "s"); Lit "://"].

(** [privateRanges] of [isPrivateIP]. *)
Definition privateRanges : list Re :=
  [ Seq scheme (Alt (Lit "localhost")
                    (seq [Lit "127."; Digits; Lit "."; Digits; Lit "."; Digits]));
    Seq scheme (seq [Lit "10."; Digits; Lit "."; Digits; Lit "."; Digits]);
    Seq scheme (seq [Lit "172.";
                     Alt (Seq (Lit "1") (Range "6" "9"))
                         (Alt (Seq (Lit "2") Digit) (Seq (Lit "3") (Range "0" "1")));
                     Lit "."; Digits; Lit "."; Digits]);
    Seq scheme (seq [Lit "192.168."; Digits; Lit "."; Digits]);
    Lit "file://" ].

(** [isPrivateIP(url)] of the scanner. *)
Definition isPrivateIP (url : string) : bool :=
  existsb (fun regex => test_start regex url) privateRanges.

(** *** Vocabulary of the properties *)

(** How the URLs that [isPrivateIP] refuses begin. *)
Definition refused_beginnings : list string :=
  [ "http://localhost"; "https://localhost";
    "http://127."; "https://127.";
    "http://10."; "https://10.";
    "http://172."; "https://172.";
    "http://192.168."; "https://192.168.";
    "file://" ].

(** A number written with one digit or more. *)
Definition number (s : string) : Prop := s <> "" /\ all_digits s = true.

(** The numbers 16 to 31, written with two digits. *)
Definition in_172 (s : string) : Prop :=
  exists n : nat, (16 <= n <= 31)%nat /\
    s = String (ascii_of_nat (48 + n / 10))
               (String (ascii_of_nat (48 + n mod 10)) "").

End PrivateURL.

(** ** The SSRF check of the server *)

Module SSRF.

Import Stdlib.Strings.Ascii.
Import JsString Regex.
Local Open Scope string_scope.
Local Open Scope Z_scope.

Definition BLOCKED_HOSTS : list string :=
  [ "localhost"; "169.254.169.254"; "metadata.google.internal"; "metadata";
    "metadata.azure.com"; "kubernetes.default.svc"; "consul"; "rancher-metadata" ].

Definition PRIVATE_IP_RANGES : list (string * string) :=
  [ ("10.0.0.0", "10.255.255.255");
    ("172.16.0.0", "172.31.255.255");
    ("192.168.0.0", "192.168.255.255");
    ("127.0.0.0", "127.255.255.255");
    ("169.254.0.0", "169.254.255.255");
    ("0.0.0.0", "0.255.255.255") ].

Definition PRIVATE_IPV6_RANGES : list string :=
  [ "::1"; "fe80::"; "fc00::"; "fd00::"; "ff00::" ].

(** The 32-bit integers of the bit operators: [ToInt32] and [ToUint32]. *)
Definition toInt32 (z : Z) : Z := (z + 2 ^ 31) mod 2 ^ 32 - 2 ^ 31.
Definition toUint32 (z : Z) : Z := z mod 2 ^ 32.

(** [x << n] for [0 <= n < 32]. *)
Definition shl (x : Z) (n : Z) : Z := toInt32 (x * 2 ^ n).

(** An operand of a bit operator; a missing part is [undefined]. *)
Definition operand (x : option (option Z)) : Z :=
  match x with
  | Some (Some z) => toInt32 z
  | _ => 0
  end.

(** [/^(\d{1,3}\.){3}\d{1,3}$/]. *)
Definition octet : Re := Seq Digit (Seq (Opt Digit) (Opt Digit)).
Definition dotted_quad : Re :=
  seq [octet; Lit "."; octet; Lit "."; octet; Lit "."; octet].

Inductive Verdict := Allowed | Refused (message : string).

Definition quote : string := String (ascii_of_nat 34) EmptyString.

Section Surroundings.

(** [Number(part)], as the bit operators see it: the integer part of the
    number, [None] for [NaN] and the infinities. *)
Variable Number : string -> option Z.

(** [new url.URL(inputUrl)]: the protocol and the host name, or the
    message of the error thrown. *)
Variable parse : string -> string + string * string.

(** [dns.resolve4] and [dns.resolve6]: the addresses, [None] when the
    lookup is rejected. *)
Variable resolve4 resolve6 : string -> option (list string).

(** [ipToInt(ip)]. *)
Definition ipToInt (ip : string) : Z :=
  let parts := map Number (split "." ip) in
  toUint32
    (Z.lor (Z.lor (Z.lor (shl (operand (parts !! 0%nat)) 24)
                         (shl (operand (parts !! 1%nat)) 16))
                  (shl (operand (parts !! 2%nat)) 8))
           (operand (parts !! 3%nat))).

(** [isPrivateIPv4(ip)]. *)
Definition isPrivateIPv4 (ip : string) : bool :=
  let ipInt := ipToInt ip in
  existsb (fun range =>
             let startInt := ipToInt (fst range) in
             let endInt := ipToInt (snd range) in
             (startInt <=? ipInt) && (ipInt <=? endInt))
          PRIVATE_IP_RANGES.

(** [isPrivateIPv6(ip)]. *)
Definition isPrivateIPv6 (ip : string) : bool :=
  existsb (fun prefix => startsWith ip prefix) PRIVATE_IPV6_RANGES.

(** [isPrivateIP(ip)]. *)
Definition isPrivateIP (ip : string) : bool :=
  if includes ip ":" then isPrivateIPv6 ip else isPrivateIPv4 ip.

(** [isBlockedHost(hostname)]. *)
Definition isBlockedHost (hostname : string) : bool :=
  let lowerHostname := toLowerCase hostname in
  existsb (fun blocked =>
             String.eqb lowerHostname blocked
             || endsWith lowerHostname ("." ++ blocked))
          BLOCKED_HOSTS.

(** The addresses the two lookups give; a rejected lookup gives none. *)
Definition addresses_of (hostname : string) : list string :=
  (default [] (resolve4 hostname) ++ default [] (resolve6 hostname))%list.

(** The inner [try] block of [validateURL]: the message it throws. *)
Definition check_addresses (hostname : string) : option string :=
  let addresses := addresses_of hostname in
  if (length addresses =? 0)%nat
  then Some ("Could not resolve hostname: " ++ hostname)
  else
    let privateIPs := List.filter isPrivateIP addresses in
    if (0 <? length privateIPs)%nat
    then Some ("Scanning not allowed: " ++ quote ++ hostname ++ quote
               ++ " resolves to private IP address(es). "
               ++ "This could be an attempt to access internal resources.")
    else None.

(** [validateURL(inputUrl)]. *)
Definition validateURL (inputUrl : string) : Verdict :=
  match parse inputUrl with
  | inl message => Refused ("Invalid URL: " ++ message)
  | inr (protocol, hostname) =>
      if negb (existsb (String.eqb protocol) ["http:"; "https:"])
      then Refused ("Protocol not allowed: " ++ protocol
                    ++ ". Only HTTP and HTTPS are supported.")
      else if isBlockedHost hostname
      then Refused "Scanning of internal/metadata endpoints is not allowed for security reasons"
      else
        let isIPv4 := test_whole dotted_quad hostname in
        let isIPv6 := includes hostname ":" in
        if isIPv4 || isIPv6 then
          if isPrivateIP hostname
          then Refused "Scanning of private IP addresses is not allowed for security reasons"
          else Allowed
        else
          match check_addresses hostname with
          | Some message =>
              if includes message "Scanning not allowed"
                 || includes message "Could not resolve"
              then Refused message
              else Allowed
          | None => Allowed
          end
  end.

(** [validateScanURL(inputUrl)]. *)
Definition validateScanURL (inputUrl : string) : bool * option string :=
  match validateURL inputUrl with
  | Allowed => (true, None)
  | Refused message => (false, Some message)
  end.

(** *** Vocabulary of the properties *)

(** [Number] reads the parts of an address in dotted decimal notation. *)
Definition reads_decimals : Prop :=
  forall s, s <> EmptyString -> all_digits s = true -> (String.length s <= 3)%nat ->
            Number s = Some (decimal s).

(** When [validateURL] is meant to let a URL through. *)
Definition allowed (inputUrl : string) : Prop :=
  exists protocol hostname,
    parse inputUrl = inr (protocol, hostname) /\
    (protocol = "http:" \/ protocol = "https:") /\
    isBlockedHost hostname = false /\
    if test_whole dotted_quad hostname || includes hostname ":"
    then isPrivateIP hostname = false
    else addresses_of hostname <> [] /\
         Forall (fun ip => isPrivateIP ip = false) (addresses_of hostname).

End Surroundings.

(** A part of an address in dotted decimal notation: one to three
    digits, below 256. *)
Definition octet_ok (s : string) : bool :=
  negb (String.eqb s EmptyString) && all_digits s
  && (String.length s <=? 3)%nat && (decimal s <? 256).

(** The address [a.b.c.d] is in one of the private ranges. *)
Definition private_quad (a b c d : Z) : bool :=
  (a =? 10) || ((a =? 172) && (16 <=? b) && (b <=? 31))
  || ((a =? 192) && (b =? 168)) || (a =? 127)
  || ((a =? 169) && (b =? 254)) || (a =? 0).

(** *** Examples *)

(** [Number] on strings of digits. *)
Definition Number_of_digits (s : string) : option Z :=
  if all_digits s then Some (decimal s) else None.

(** A parser that knows the loopback URL of IPv6, and a name service
    that knows no name. *)
Definition parse_loopback (inputUrl : string) : string + string * string :=
  if String.eqb inputUrl "http://[::1]/"
  then inr ("http:", "[::1]")
  else inl "Invalid URL".

Definition no_dns (hostname : string) : option (list string) := None.

End SSRF.

(** ** The cache client without Redis *)

Module MemoryCache.

Import CircuitBreaker.
Local Open Scope Z_scope.

(** The methods of [RedisClusterClient] on a client for which no Redis is
    configured: [this.client] is [null], [this.connected] is [false] and
    every method takes the path of the in-memory cache.  Times are in
    milliseconds, as [Date.now()] gives them. *)

Record Metrics := mkMetrics {
  hits : Z;
  misses : Z;
  errors : Z;
  fallbacks : Z
}.

Section Cache.

(** The values cached, none of them [undefined]. *)
Context {V : Type}.

(** [(current || 0) + 1], from the value found under the key, if any. *)
Variable plus_one : option V -> V.

(** [JSON.stringify(value)] throws: it does on a value that holds a
    circular structure or a BigInt. *)
Variable stringify_throws : V -> bool.

Record Client := mkClient {
  options_ttl : Z;
  memoryCache : gmap string V;
  memoryCacheTTL : gmap string Z;
  metrics : Metrics
}.

(** [new RedisClusterClient(options)].  The constructor fills in the
    options and the two maps and then asks for its circuit breaker with
    [CircuitBreakerManager.getBreaker('redis', ...)], on the class that
    the module of the breakers exports.  [getBreaker] is a method of the
    instances of that class and no member of the class itself: the call
    throws a [TypeError], whatever the options, and no client is made. *)
Definition new (ttl : option Z) : Error + Client := inl TypeError.

Definition incr_hits (c : Client) : Client :=
  let m := metrics c in
  mkClient (options_ttl c) (memoryCache c) (memoryCacheTTL c)
           (mkMetrics (hits m + 1) (misses m) (errors m) (fallbacks m)).
Definition incr_misses (c : Client) : Client :=
  let m := metrics c in
  mkClient (options_ttl c) (memoryCache c) (memoryCacheTTL c)
           (mkMetrics (hits m) (misses m + 1) (errors m) (fallbacks m)).
Definition incr_fallbacks (c : Client) : Client :=
  let m := metrics c in
  mkClient (options_ttl c) (memoryCache c) (memoryCacheTTL c)
           (mkMetrics (hits m) (misses m) (errors m) (fallbacks m + 1)).

(** [this.memoryCache.delete(key); this.memoryCacheTTL.delete(key)]. *)
Definition forget (key : string) (c : Client) : Client :=
  mkClient (options_ttl c) (delete key (memoryCache c))
           (delete key (memoryCacheTTL c)) (metrics c).

(** [getFromMemory(key)] at time [now]; [None] is [null]. *)
Definition getFromMemory (key : string) (now : Z) (c : Client)
    : Client * option V :=
  let c := incr_fallbacks c in
  let ttl := memoryCacheTTL c !! key in
  if match ttl with
     | Some t => negb (t =? 0) && (t <? now)
     | None => false
     end
  then (incr_misses (forget key c), None)
  else
    match memoryCache c !! key with
    | Some value => (incr_hits c, Some value)
    | None => (incr_misses c, None)
    end.

(** [setInMemory(key, value, ttl)] at time [now]; a [ttl] that is
    missing or 0 sets no expiry. *)
Definition setInMemory (key : string) (value : V) (ttl : option Z) (now : Z)
    (c : Client) : Client :=
  let c := incr_fallbacks c in
  let c := mkClient (options_ttl c) (<[key := value]> (memoryCache c))
                    (memoryCacheTTL c) (metrics c) in
  match ttl with
  | Some t =>
      if t =? 0 then c
      else mkClient (options_ttl c) (memoryCache c)
                    (<[key := now + t * 1000]> (memoryCacheTTL c)) (metrics c)
  | None => c
  end.

(** [get(key)]. *)
Definition get (key : string) (now : Z) (c : Client) : Client * option V :=
  getFromMemory key now c.

(** [set(key, value, ttl)]: the value is serialized first, whether Redis
    is there or not; the call is rejected with what [JSON.stringify]
    throws, before anything is stored, and returns [true] otherwise. *)
Definition set (key : string) (value : V) (ttl : option Z) (now : Z)
    (c : Client) : Client * (Error + bool) :=
  if stringify_throws value then (c, inl TypeError)
  else
    let expiry := or_default ttl (options_ttl c) in
    (setInMemory key value (Some expiry) now c, inr true).

(** [setex(key, seconds, value)]. *)
Definition setex (key : string) (seconds : Z) (value : V) (now : Z)
    (c : Client) : Client * (Error + bool) :=
  set key value (Some seconds) now c.

(** [delete(key)]. *)
Definition del (key : string) (c : Client) : Client := forget key c.


(** [incr(key)] at time [now]: the new value. *)
Definition incr (key : string) (now : Z) (c : Client) : Client * V :=
  let current := memoryCache c !! key in
  let newValue := plus_one current in
  (setInMemory key newValue None now c, newValue).

(** [mget(keys)]. *)
Fixpoint mget (keys : list string) (now : Z) (c : Client)
    : Client * list (option V) :=
  match keys with
  | [] => (c, [])
  | k :: rest =>
      let '(c, v) := getFromMemory k now c in
      let '(c, vs) := mget rest now c in
      (c, v :: vs)
  end.

(** [flushall()]. *)
Definition flushall (c : Client) : Client :=
  mkClient (options_ttl c) ∅ ∅ (metrics c).

(** The callback of [startMemoryCacheCleanup], run at time [now]. *)
Definition cleanup (now : Z) (c : Client) : Client :=
  map_fold (fun key expiry c => if expiry <? now then forget key c else c)
           c (memoryCacheTTL c).

(** *** Vocabulary of the properties *)

(** The time at which [set] lets the entry expire. *)
Definition deadline (ttl : option Z) (now : Z) (c : Client) : Z :=
  now + or_default ttl (options_ttl c) * 1000.

(** The entry with that deadline has expired for [getFromMemory]. *)
Definition expired (deadline now : Z) : bool :=
  negb (deadline =? 0) && (deadline <? now).


End Cache.

Arguments Client : clear implicits.

End MemoryCache.

(** * Properties *)

(** ** The circuit breaker *)

Module CircuitBreakerFacts.

Import CircuitBreaker.
Local Open Scope Z_scope.

Lemma with_metrics_state f cb : state (with_metrics f cb) = state cb.
Proof. reflexivity. Qed.

Lemma enter_state now cb :
  state (fst (enter now cb)) =
  match state cb with
  | OPEN => if resetTimeout cb <=? now - lastStateChange cb then HALF_OPEN else OPEN
  | st => st
  end.
Proof.
  unfold enter, shouldAttemptReset; simpl.
  destruct (state cb) eqn:E; simpl; try (rewrite ?E; reflexivity).
  destruct (resetTimeout cb <=? now - lastStateChange cb); simpl;
    rewrite ?E; reflexivity.
Qed.

Lemma onSuccess_state now cb :
  state (onSuccess now cb) =
  match state cb with
  | HALF_OPEN => if successThreshold cb <=? successes cb + 1 then CLOSED else HALF_OPEN
  | st => st
  end.
Proof.
  unfold onSuccess; simpl.
  destruct (state cb) eqn:E; simpl; try (rewrite ?E; reflexivity).
  destruct (successThreshold cb <=? successes cb + 1); simpl;
    rewrite ?E; reflexivity.
Qed.

Lemma onFailure_state now error cb :
  state (fst (onFailure now error cb)) =
  if nullish error then state cb
  else match state cb with
       | HALF_OPEN => OPEN
       | st => if failureThreshold cb <=? failures cb + 1 then OPEN else st
       end.
Proof.
  unfold onFailure; simpl.
  destruct (nullish error); [reflexivity|].
  destruct (state cb) eqn:E; simpl; try (rewrite ?E; reflexivity);
    destruct (failureThreshold cb <=? failures cb + 1); simpl;
    rewrite ?E; reflexivity.
Qed.

Lemma onFailure_throws now error cb :
  snd (onFailure now error cb) = if nullish error then Some TypeError else None.
Proof. unfold onFailure. destruct (nullish error); reflexivity. Qed.

Lemma onFailure_failures now error cb :
  failures (fst (onFailure now error cb)) = failures cb + 1.
Proof.
  unfold onFailure; simpl.
  destruct (nullish error); [reflexivity|].
  destruct (state cb); simpl; try reflexivity;
    destruct (failureThreshold cb <=? failures cb + 1); reflexivity.
Qed.

Lemma onFailure_totalFailures now error cb :
  totalFailures (metrics (fst (onFailure now error cb)))
  = totalFailures (metrics cb) + 1.
Proof.
  unfold onFailure; simpl.
  destruct (nullish error); [reflexivity|].
  destruct (state cb); simpl; try reflexivity;
    destruct (failureThreshold cb <=? failures cb + 1); reflexivity.
Qed.

Lemma onFailure_totalFallbacks now error cb :
  totalFallbacks (metrics (fst (onFailure now error cb)))
  = totalFallbacks (metrics cb).
Proof.
  unfold onFailure; simpl.
  destruct (nullish error); [reflexivity|].
  destruct (state cb); simpl; try reflexivity;
    destruct (failureThreshold cb <=? failures cb + 1); reflexivity.
Qed.

Lemma onFailure_settings now error cb :
  settings (fst (onFailure now error cb)) = settings cb.
Proof.
  unfold onFailure, settings; simpl.
  destruct (nullish error); [reflexivity|].
  destruct (state cb); simpl; try reflexivity;
    destruct (failureThreshold cb <=? failures cb + 1); reflexivity.
Qed.

Lemma onFailure_lastStateChange now error cb :
  state (fst (onFailure now error cb)) = OPEN -> state cb <> OPEN ->
  lastStateChange (fst (onFailure now error cb)) = now.
Proof.
  unfold onFailure; simpl.
  destruct (nullish error); [simpl; congruence|].
  destruct (state cb) eqn:E; simpl; try congruence;
    destruct (failureThreshold cb <=? failures cb + 1); simpl;
    rewrite ?E; congruence.
Qed.

Section Calls.

Context {W A : Type}.
Implicit Types (fn : Action W A) (w : W) (cb : Breaker).

Lemma fails_with_error_fails limit (run : Run A) :
  fails_with_error limit run = true -> fails limit run = true.
Proof. destruct run as [after [v|e]|]; simpl; auto. Qed.

Lemma executeWithTimeout_fails cb fn w :
  fails (timeout cb) (snd (fn w)) = true ->
  exists elapsed e,
    executeWithTimeout cb fn w = (fst (fn w), elapsed, Rejected e) /\
    (fails_with_error (timeout cb) (snd (fn w)) = true -> nullish e = false).
Proof.
  unfold executeWithTimeout, fails, fails_with_error.
  destruct (fn w) as [w' [after [v|e]|]]; simpl; intros H.
  - apply Z.ltb_lt in H.
    destruct (after <=? timer_delay (timeout cb)) eqn:E.
    + apply Z.leb_le in E. lia.
    + eauto.
  - destruct (after <=? timer_delay (timeout cb)) eqn:E.
    + exists after, e. split; [reflexivity|].
      apply Z.leb_le in E.
      assert (L : (timer_delay (timeout cb) <? after) = false)
        by (apply Z.ltb_ge; exact E).
      rewrite L. simpl. intros N. apply negb_true_iff in N. exact N.
    + eauto.
  - eauto.
Qed.

(** A failing call let through by a breaker that is not open. *)
Lemma execute_failure now fn (fallback : option (Fallback W A)) cb w :
  state cb <> OPEN ->
  fails (timeout cb) (snd (fn w)) = true ->
  exists elapsed e,
    (fails_with_error (timeout cb) (snd (fn w)) = true -> nullish e = false) /\
    let cb1 := fst (onFailure (now + elapsed) e (with_metrics incr_totalRequests cb)) in
    execute now fn fallback (cb, w) =
    if nullish e then (cb1, fst (fn w), Rejected TypeError)
    else
      match fallback with
      | Some fb => (with_metrics incr_totalFallbacks cb1,
                    fst (fb (fst (fn w))), snd (fb (fst (fn w))))
      | None => (cb1, fst (fn w), Rejected e)
      end.
Proof.
  intros Hst Hf.
  destruct (executeWithTimeout_fails (with_metrics incr_totalRequests cb) fn w Hf)
    as (elapsed & e & He & Hn).
  exists elapsed, e. split; [exact Hn|].
  cbn zeta. unfold execute, enter. rewrite with_metrics_state.
  assert (T : forall cb0,
    match onFailure (now + elapsed) e cb0 with
    | (cb2, Some thrown) => (cb2, fst (fn w), @Rejected A thrown)
    | (cb2, None) =>
        match fallback with
        | Some fb =>
            let cb3 := with_metrics incr_totalFallbacks cb2 in
            let '(w2, r) := fb (fst (fn w)) in (cb3, w2, r)
        | None => (cb2, fst (fn w), Rejected e)
        end
    end =
    if nullish e
    then (fst (onFailure (now + elapsed) e cb0), fst (fn w), Rejected TypeError)
    else
      match fallback with
      | Some fb =>
          (with_metrics incr_totalFallbacks (fst (onFailure (now + elapsed) e cb0)),
           fst (fb (fst (fn w))), snd (fb (fst (fn w))))
      | None => (fst (onFailure (now + elapsed) e cb0), fst (fn w), Rejected e)
      end).
  { intros cb0. pose proof (onFailure_throws (now + elapsed) e cb0) as Th.
    destruct (onFailure (now + elapsed) e cb0) as [cb2 thrown]. cbn [fst snd] in *.
    subst thrown. destruct (nullish e); [reflexivity|].
    destruct fallback as [fb|]; [|reflexivity].
    cbn zeta. destruct (fb (fst (fn w))); reflexivity. }
  destruct (state cb) eqn:E; try congruence; cbn zeta; rewrite He; apply T.
Qed.

(** One failing call on a closed breaker. *)
Lemma execute_call_failure (c : Call W A) cb w :
  state cb = CLOSED ->
  failing (timeout cb) c ->
  let cb' := fst (execute_call (cb, w) c) in
  failures cb' = failures cb + 1 /\
  settings cb' = settings cb /\
  (failures cb + 1 < failureThreshold cb -> state cb' = CLOSED) /\
  (failing_with_error (timeout cb) c ->
   state cb' = if failureThreshold cb <=? failures cb + 1 then OPEN else CLOSED).
Proof.
  intros Hst Hc. cbn zeta.
  assert (Hopen : state cb <> OPEN) by congruence.
  destruct (execute_failure (call_at c) (call_fn c) (call_fallback c) cb w
              Hopen (Hc w)) as (elapsed & e & Hn & He).
  cbn zeta in He. unfold execute_call. rewrite He.
  set (cb1 := fst (onFailure _ e _)).
  assert (F : failures cb1 = failures cb + 1)
    by (subst cb1; rewrite onFailure_failures; reflexivity).
  assert (T : settings cb1 = settings cb)
    by (subst cb1; rewrite onFailure_settings; reflexivity).
  assert (S : state cb1 =
              if nullish e then CLOSED
              else if failureThreshold cb <=? failures cb + 1 then OPEN else CLOSED).
  { subst cb1. rewrite onFailure_state. simpl. rewrite Hst. reflexivity. }
  assert (G : forall r : Breaker * W * Settled A,
            fst (fst r) = cb1 \/ fst (fst r) = with_metrics incr_totalFallbacks cb1 ->
            failures (fst (fst r)) = failures cb + 1 /\
            settings (fst (fst r)) = settings cb /\
            state (fst (fst r)) = state cb1).
  { intros r [-> | ->]; auto. }
  match goal with
  | |- context [fst (fst ?r)] =>
      destruct (G r) as (G1 & G2 & G3)
  end.
  { destruct (nullish e); [left; reflexivity|].
    destruct (call_fallback c); [right | left]; reflexivity. }
  split; [exact G1|]. split; [exact G2|]. rewrite G3, S. split.
  - intros Hlt. destruct (nullish e); [reflexivity|].
    destruct (failureThreshold cb <=? failures cb + 1) eqn:L; [|reflexivity].
    apply Z.leb_le in L. lia.
  - intros Hv. rewrite (Hn (Hv w)). reflexivity.
Qed.

(** Failures of a closed breaker add up as long as the threshold is not
    reached. *)
Lemma failures_add_up (calls : list (Call W A)) : forall cb w,
  state cb = CLOSED ->
  Forall (failing (timeout cb)) calls ->
  failures cb + Z.of_nat (length calls) < failureThreshold cb ->
  let cb' := fst (execute_all calls (cb, w)) in
  state cb' = CLOSED /\
  failures cb' = failures cb + Z.of_nat (length calls) /\
  settings cb' = settings cb.
Proof.
  induction calls as [|c calls IH]; intros cb w Hst Hall Hlt.
  - simpl. split; [assumption | split; [lia | reflexivity]].
  - apply Forall_cons in Hall as [Hc Hall].
    cbn [length] in Hlt. rewrite Nat2Z.inj_succ in Hlt.
    destruct (execute_call_failure c cb w Hst Hc) as (H2 & H3 & H1 & _).
    cbn zeta. cbn [execute_all fold_left].
    destruct (execute_call (cb, w) c) as [cb1 w1]. cbn [fst] in H1, H2, H3.
    assert (Ht : timeout cb1 = timeout cb)
      by (unfold settings in H3; congruence).
    assert (Hthr : failureThreshold cb1 = failureThreshold cb)
      by (unfold settings in H3; congruence).
    destruct (IH cb1 w1) as (I1 & I2 & I3).
    + apply H1. lia.
    + rewrite Ht. exact Hall.
    + lia.
    + unfold execute_all in I1, I2, I3.
      cbn [length]. rewrite Nat2Z.inj_succ.
      split; [exact I1 | split; [rewrite I2; lia | rewrite I3; exact H3]].
Qed.

(** Five calls that fail with an error open a closed breaker whose
    threshold is 5; a sixth call entered before [resetTimeout] has passed
    does not run its action and, without fallback, is rejected with the
    breaker's own error. *)
Lemma five_failures_with_error_open (calls : list (Call W A)) cb w :
  state cb = CLOSED -> failures cb = 0 -> failureThreshold cb = 5 ->
  length calls = 5%nat ->
  Forall (failing_with_error (timeout cb)) calls ->
  let cb5 := fst (execute_all calls (cb, w)) in
  let w5 := snd (execute_all calls (cb, w)) in
  state cb5 = OPEN /\
  forall now (fn : Action W A),
    now - lastStateChange cb5 < resetTimeout cb5 ->
    exists cb6,
      execute now fn None (cb5, w5) = (cb6, w5, Rejected (CircuitOpen (name cb))) /\
      state cb6 = OPEN /\
      totalRejections (metrics cb6) = totalRejections (metrics cb5) + 1.
Proof.
  intros Hst Hf Hthr Hlen Hall.
  destruct calls as [|c1 [|c2 [|c3 [|c4 [|c5 [|]]]]]]; try discriminate.
  change [c1; c2; c3; c4; c5] with ([c1; c2; c3; c4] ++ [c5]) in *.
  apply Forall_app in Hall as [Hall4 Hall5].
  apply Forall_cons in Hall5 as [Hc5 _].
  unfold execute_all. rewrite fold_left_app.
  change (fold_left execute_call [c5] ?x) with (execute_call x c5).
  destruct (failures_add_up [c1; c2; c3; c4] cb w Hst) as (H1 & H2 & H3).
  { eapply Forall_impl; [exact Hall4|]. intros c Hc w0.
    apply fails_with_error_fails, Hc. }
  { rewrite Hf, Hthr. simpl. lia. }
  unfold execute_all in H1, H2, H3.
  destruct (fold_left execute_call [c1; c2; c3; c4] (cb, w)) as [cb4 w4].
  cbn [fst] in H1, H2, H3.
  assert (Ht : timeout cb4 = timeout cb) by (unfold settings in H3; congruence).
  assert (Hthr4 : failureThreshold cb4 = 5) by (unfold settings in H3; congruence).
  destruct (execute_call_failure c5 cb4 w4 H1) as (J2 & J3 & _ & J1).
  { rewrite Ht. intros w0. apply fails_with_error_fails, Hc5. }
  specialize (J1 ltac:(rewrite Ht; exact Hc5)).
  destruct (execute_call (cb4, w4) c5) as [cb5 w5].
  cbn [fst snd] in *.
  rewrite Hthr4, H2, Hf in J1. simpl in J1.
  split; [exact J1|].
  intros now fn Hnow.
  unfold execute, enter, shouldAttemptReset. simpl. rewrite J1.
  destruct (resetTimeout cb5 <=? now - lastStateChange cb5) eqn:R;
    [apply Z.leb_le in R; lia|].
  eexists. split; [|split].
  - simpl. f_equal. f_equal. f_equal.
    unfold settings in H3, J3. congruence.
  - simpl. exact J1.
  - reflexivity.
Qed.

(** When a call with a fallback is let through by a breaker that is
    CLOSED or HALF_OPEN and its action fails with an error, the failure
    is counted (and opens the circuit from HALF_OPEN, or once the count
    reaches the threshold) and the call settles as the fallback does. *)
Lemma fallback_masks_failure_with_error now fn (fb : Fallback W A) cb w :
  state cb = CLOSED \/ state cb = HALF_OPEN ->
  fails_with_error (timeout cb) (snd (fn w)) = true ->
  exists cb',
    execute now fn (Some fb) (cb, w)
      = (cb', fst (fb (fst (fn w))), snd (fb (fst (fn w)))) /\
    failures cb' = failures cb + 1 /\
    totalFailures (metrics cb') = totalFailures (metrics cb) + 1 /\
    totalFallbacks (metrics cb') = totalFallbacks (metrics cb) + 1 /\
    state cb' = (if State_eqb (state cb) HALF_OPEN then OPEN
                 else if failureThreshold cb <=? failures cb + 1 then OPEN
                 else CLOSED).
Proof.
  intros Hst Hf.
  assert (Hopen : state cb <> OPEN) by (destruct Hst; congruence).
  destruct (execute_failure now fn (Some fb) cb w Hopen
              (fails_with_error_fails _ _ Hf)) as (elapsed & e & Hn & He).
  cbn zeta in He. rewrite (Hn Hf) in He.
  eexists. split; [exact He|].
  change (failures (with_metrics incr_totalFallbacks ?x)) with (failures x).
  rewrite with_metrics_state, onFailure_failures, onFailure_state, (Hn Hf).
  cbn [with_metrics metrics incr_totalFallbacks totalFailures totalFallbacks].
  rewrite onFailure_totalFailures, onFailure_totalFallbacks.
  repeat split.
  simpl. destruct Hst as [-> | ->]; reflexivity.
Qed.

End Calls.

Lemma execute_steps {W A} now (fn : Action W A) fallback cb w :
  let cb' := fst (fst (execute now fn fallback (cb, w))) in
  circuit cb' = circuit (exec_step (Enter now) cb) \/
  exists t,
    circuit cb' = circuit (exec_step (Succeed t) (exec_step (Enter now) cb)) \/
    exists error,
      circuit cb' = circuit (exec_step (Fail t error) (exec_step (Enter now) cb)).
Proof.
  cbn zeta. unfold execute. cbn [exec_step].
  destruct (enter now cb) as [cb1 [|]]; cbn [fst].
  - right.
    destruct (executeWithTimeout cb1 fn w) as [[w1 elapsed] [v|e]].
    + exists (now + elapsed). left. reflexivity.
    + exists (now + elapsed). right. exists e.
      destruct (onFailure (now + elapsed) e cb1) as [cb2 [thrown|]]; [reflexivity|].
      destruct fallback as [fb|]; [destruct (fb w1)|]; reflexivity.
  - left. destruct fallback as [fb|]; [destruct (fb w)|]; reflexivity.
Qed.

(** C2, as the code has it: the steps of [execute] change the state of
    the breaker by exactly four transitions, CLOSED to OPEN on a failure
    with an error value that brings the failure count to the threshold,
    OPEN to HALF_OPEN when a call enters at least [resetTimeout] after the
    last change, HALF_OPEN to CLOSED on a success that brings the success
    count to its threshold (both counts are then 0), HALF_OPEN to OPEN on
    any failure with an error value; each trigger does change the state,
    and every call of [execute] is made of these steps.  Beside them the
    manual [open()] and [close()] set the state to OPEN and CLOSED from
    any state. *)
Theorem C2_transitions_of_execute (cb : Breaker) :
  (forall e, state (exec_step e cb) = state cb \/
             transition cb e (state cb) (state (exec_step e cb))) /\
  (forall e old new, transition cb e old new ->
             state cb = old /\ state (exec_step e cb) = new /\
             listed old new = true) /\
  (forall now, state cb = HALF_OPEN -> state (onSuccess now cb) = CLOSED ->
             failures (onSuccess now cb) = 0 /\ successes (onSuccess now cb) = 0) /\
  (forall W A now (fn : Action W A) fallback w,
     let cb' := fst (fst (execute now fn fallback (cb, w))) in
     circuit cb' = circuit (exec_step (Enter now) cb) \/
     exists t,
       circuit cb' = circuit (exec_step (Succeed t) (exec_step (Enter now) cb)) \/
       exists error,
         circuit cb' = circuit (exec_step (Fail t error) (exec_step (Enter now) cb))) /\
  (forall m, state (manual_step m cb) =
             match m with Open _ => OPEN | Close _ => CLOSED end).
Proof.
  split; [|split; [|split; [|split]]].
  - intros [now|now|now error]; cbn [exec_step].
    + rewrite enter_state. destruct (state cb) eqn:E; auto.
      destruct (resetTimeout cb <=? now - lastStateChange cb) eqn:R; auto.
      right. apply probe; [exact E | apply Z.leb_le; exact R].
    + rewrite onSuccess_state. destruct (state cb) eqn:E; auto.
      destruct (successThreshold cb <=? successes cb + 1) eqn:R; auto.
      right. apply recover; [exact E | apply Z.leb_le; exact R].
    + rewrite onFailure_state. destruct (nullish error) eqn:N; auto.
      destruct (state cb) eqn:E.
      * destruct (failureThreshold cb <=? failures cb + 1) eqn:R; auto.
        right. apply trip; [exact N | exact E | apply Z.leb_le; exact R].
      * destruct (failureThreshold cb <=? failures cb + 1); auto.
      * right. apply retrip; [exact N | exact E].
  - intros e old new [now error N Hst Hc|now Hst Hc|now Hst Hc|now error N Hst];
      cbn [exec_step].
    + rewrite onFailure_state, N, Hst.
      apply Z.leb_le in Hc. rewrite Hc. auto.
    + rewrite enter_state, Hst.
      apply Z.leb_le in Hc. rewrite Hc. auto.
    + rewrite onSuccess_state, Hst.
      apply Z.leb_le in Hc. rewrite Hc. auto.
    + rewrite onFailure_state, N, Hst. auto.
  - intros now Hst. unfold onSuccess. simpl. rewrite Hst.
    destruct (successThreshold cb <=? successes cb + 1); simpl.
    + auto.
    + rewrite ?Hst. discriminate.
  - intros W A now fn fallback w. apply execute_steps.
  - intros [now|now]; reflexivity.
Qed.

(** C2, counterexample to the claim as stated: [close()] takes an open
    breaker back to CLOSED, which is none of the four transitions. *)
Lemma C2_manual_close_counterexample :
  state tripped = OPEN /\
  state (manual_step (Close 1) tripped) = CLOSED /\
  listed OPEN CLOSED = false.
Proof. repeat split. Qed.

(** C3, the failing run.  On a breaker with the default settings
    ([failureThreshold] 5) five calls in a row whose action rejects with
    [undefined] are five failures, each counted; each call is rejected
    with the [TypeError] of [onFailure], which hides the test of the
    threshold: the breaker is still CLOSED with 5 failures counted, and a
    sixth call, made before [resetTimeout] has passed, runs its action
    (it throws an error, and only that failure opens the circuit). *)
Theorem C3_undefined_rejections_leave_circuit_closed :
  let calls := map reject_undefined_call [1; 2; 3; 4; 5] in
  let cb5 := fst (execute_all calls (fresh, O)) in
  let w5 := snd (execute_all calls (fresh, O)) in
  state fresh = CLOSED /\ failures fresh = 0 /\ failureThreshold fresh = 5 /\
  Forall (failing (timeout fresh)) calls /\
  snd (execute 1 reject_undefined None (fresh, O)) = Rejected TypeError /\
  state cb5 = CLOSED /\ failures cb5 = 5 /\ w5 = 5%nat /\
  20 - lastStateChange cb5 < resetTimeout cb5 /\
  exists cb6,
    execute 20 boom None (cb5, w5) = (cb6, 6%nat, Rejected (Thrown "boom")) /\
    state cb6 = OPEN.
Proof.
  cbn zeta.
  split; [reflexivity|]. split; [reflexivity|]. split; [reflexivity|].
  split; [repeat (constructor; [intros w; reflexivity|]); constructor|].
  split; [vm_compute; reflexivity|]. split; [vm_compute; reflexivity|].
  split; [vm_compute; reflexivity|]. split; [vm_compute; reflexivity|].
  split; [vm_compute; reflexivity|].
  eexists. split; vm_compute; reflexivity.
Qed.

(** C9, the failing run.  A call with a fallback whose action rejects
    with [null] is counted as a failure, and then rejected with the
    [TypeError] of [onFailure]: the fallback does not run and the circuit
    stays as it was, CLOSED on a closed breaker, HALF_OPEN on a half-open
    one. *)
Theorem C9_null_rejection_skips_fallback :
  fails (timeout fresh) (snd (reject_null O)) = true /\
  (exists cb',
     execute 7 reject_null (Some cached) (fresh, O)
       = (cb', 1%nat, Rejected TypeError) /\
     state cb' = CLOSED /\ failures cb' = 1 /\
     totalFailures (metrics cb') = 1 /\ totalFallbacks (metrics cb') = 0) /\
  state probing = HALF_OPEN /\
  (exists cb',
     execute 30007 reject_null (Some cached) (probing, O)
       = (cb', 1%nat, Rejected TypeError) /\
     state cb' = HALF_OPEN /\ failures cb' = 1 /\
     totalFallbacks (metrics cb') = 0).
Proof.
  split; [reflexivity|]. split; [|split; [reflexivity|]].
  - eexists. split; [vm_compute; reflexivity|].
    repeat (split; [vm_compute; reflexivity|]). vm_compute; reflexivity.
  - eexists. split; [vm_compute; reflexivity|].
    repeat (split; [vm_compute; reflexivity|]). vm_compute; reflexivity.
Qed.

End CircuitBreakerFacts.

(** ** The browser pool *)

Module BrowserPoolFacts.

Import BrowserPool.
Local Open Scope Z_scope.

(** *** Arrays *)

Lemma pop_app {A} (l : list A) (x : A) : pop (l ++ [x]) = Some (x, l).
Proof.
  unfold pop. rewrite last_snoc. rewrite removelast_last. reflexivity.
Qed.

Lemma pop_nil {A} : pop (@nil A) = None.
Proof. reflexivity. Qed.

Lemma pop_Some {A} (l rest : list A) (x : A) :
  pop l = Some (x, rest) -> l = rest ++ [x].
Proof.
  destruct l as [|y l] using rev_ind.
  - discriminate.
  - rewrite pop_app. congruence.
Qed.

Lemma pop_None {A} (l : list A) : pop l = None -> l = [].
Proof.
  destruct l as [|y l] using rev_ind; [reflexivity|].
  rewrite pop_app. discriminate.
Qed.

Lemma length_splice1 {A} (i : nat) (l : list A) :
  (length (splice1 i l) <= length l)%nat.
Proof.
  unfold splice1. revert i.
  induction l as [|x l IH]; intros [|i]; simpl; try lia.
  specialize (IH i). lia.
Qed.

Lemma findIndex_none {A} (f : A -> bool) (l : list A) :
  Forall (fun x => f x = false) l -> findIndex f l = None.
Proof.
  induction 1 as [|x l Hx _ IH]; simpl; [reflexivity|].
  rewrite Hx, IH. reflexivity.
Qed.

(** *** What each method leaves alone *)

Lemma createBrowser_frame s :
  let s' := fst (createBrowser s) in
  queue s' = queue s /\ settled s' = settled s /\ timers s' = timers s /\
  activeCount s' = activeCount s /\ minSize s' = minSize s /\
  maxSize s' = maxSize s /\ inflight s' = inflight s /\
  nextPromise s' = nextPromise s.
Proof.
  unfold createBrowser, launch.
  destruct (launches s) as [|[|] rest]; simpl; repeat split.
Qed.

Lemma createBrowser_pool s :
  match snd (createBrowser s) with
  | inl b => pool (fst (createBrowser s)) = pool s ++ [b] /\
             browsers (fst (createBrowser s)) = <[b := Connected]> (browsers s)
  | inr _ => pool (fst (createBrowser s)) = pool s /\
             browsers (fst (createBrowser s)) = browsers s
  end.
Proof.
  unfold createBrowser, launch.
  destruct (launches s) as [|[|] rest]; simpl; split; reflexivity.
Qed.

(** The recursive equation of [acquire], as the source has it. *)
Lemma acquire_unfold timeout s :
  acquire timeout s =
  let s := incr_totalAcquired s in
  match pop (pool s) with
  | Some (browser, rest) =>
      let s := set_pool rest s in
      let s := set_activeCount (activeCount s + 1) s in
      if negb (isConnected s browser) then
        let s := closeBrowser browser s in
        let s := set_activeCount (activeCount s - 1) s in
        let s := incr_totalDestroyed s in
        acquire timeout s
      else (s, Acquired browser)
  | None =>
      if activeCount s <? maxSize s then
        let s := set_activeCount (activeCount s + 1) s in
        match createBrowser s with
        | (s, inl browser) =>
            let s := set_pool (removelast (pool s)) s in
            (s, Acquired browser)
        | (s, inr error) =>
            let s := set_activeCount (activeCount s - 1) s in
            (s, Failed error)
        end
      else
        let s := set_queueHighWaterMark
                   (Z.max (queueHighWaterMark (metrics s)) (queueLength s + 1)) s in
        let p := nextPromise s in
        let s := set_nextPromise (S p) s in
        let s := set_timers (<[p := timeout]> (timers s)) s in
        let s := set_queue (queue s ++ [mkWaiter (WaiterResolve p) (WaiterReject p)]) s in
        (s, Pending p)
  end.
Proof.
  unfold acquire. destruct (pool s) as [|x l _] eqn:E using rev_ind.
  - simpl. rewrite E. reflexivity.
  - rewrite length_app, Nat.add_1_r.
    cbn [acquire_rec]. cbn zeta.
    change (pool (incr_totalAcquired s)) with (pool s).
    rewrite E, pop_app. reflexivity.
Qed.


Section AcquireInduction.

Variable timeout : Z.
Variable P : State -> State * AcquireResult -> Prop.

Hypothesis live : forall s browser rest,
  pool s = rest ++ [browser] -> isConnected s browser = true ->
  P s (popped rest s, Acquired browser).
Hypothesis dead : forall s browser rest,
  pool s = rest ++ [browser] -> isConnected s browser = false ->
  P (discarded browser rest s) (acquire timeout (discarded browser rest s)) ->
  P s (acquire timeout (discarded browser rest s)).
Hypothesis none : forall s,
  pool s = [] -> P s (acquire_fresh timeout (incr_totalAcquired s)).

Lemma acquire_ind s : P s (acquire timeout s).
Proof.
  remember (length (pool s)) as n eqn:Hn.
  revert s Hn. induction n as [|n IH]; intros s Hn.
  - assert (E : pool s = []) by (destruct (pool s); [reflexivity | discriminate]).
    rewrite acquire_unfold. cbn zeta.
    change (pool (incr_totalAcquired s)) with (pool s). rewrite E, pop_nil.
    apply none. exact E.
  - destruct (pool s) as [|browser rest _] eqn:E using rev_ind; [discriminate|].
    rewrite length_app, Nat.add_1_r in Hn. injection Hn as Hn.
    rewrite acquire_unfold. cbn zeta.
    change (pool (incr_totalAcquired s)) with (pool s). rewrite E, pop_app.
    change (isConnected (set_activeCount _ (set_pool rest (incr_totalAcquired s))) browser)
      with (isConnected s browser).
    destruct (isConnected s browser) eqn:C; cbn [negb].
    + exact (live s browser rest E C).
    + refine (dead s browser rest E C _). apply IH. exact Hn.
Qed.

End AcquireInduction.

Lemma acquire_spec timeout s : acquire_post timeout s (acquire timeout s).
Proof.
  apply (acquire_ind timeout (acquire_post timeout)); clear s; unfold acquire_post.
  - intros s b rest E C. cbn. repeat split.
    + unfold poolLength. cbn. rewrite E, length_app. cbn. lia.
    + unfold isConnected in C. destruct (browsers s !! b) as [[| |]|]; congruence.
  - intros s b rest E C.
    destruct (acquire timeout (discarded b rest s)) as [s' r]. cbn [fst snd].
    intros (H1 & H2 & H3 & H4 & H5 & H6).
    cbn in H1, H2, H3, H4.
    split; [exact H1 | split; [exact H2 | split; [exact H3 | split; [exact H4 |]]]].
    split.
    + intros Hinv. apply H5. unfold poolLength in *. cbn.
      rewrite E, length_app in Hinv. cbn in Hinv. lia.
    + destruct r as [b'|e|p]; cbn in H6; exact H6.
  - intros s E. unfold acquire_fresh.
    change (activeCount (incr_totalAcquired s)) with (activeCount s).
    change (maxSize (incr_totalAcquired s)) with (maxSize s).
    destruct (activeCount s <? maxSize s) eqn:Hlt.
    + apply Z.ltb_lt in Hlt.
      set (s1 := set_activeCount (activeCount s + 1) (incr_totalAcquired s)).
      pose proof (createBrowser_frame s1) as F. cbn zeta in F.
      pose proof (createBrowser_pool s1) as P.
      destruct (createBrowser s1) as [s2 [b|e]]; cbn [fst snd] in *;
        destruct F as (F1 & F2 & F3 & F4 & F5 & F6 & F7 & F8);
        destruct P as [P1 P2]; repeat split; try assumption.
      * intros _. unfold poolLength. cbn.
        rewrite P1, removelast_last, F4. subst s1. cbn. rewrite E. cbn. lia.
      * cbn. rewrite P2. apply lookup_insert_eq.
      * intros Hinv. unfold poolLength in *. cbn. rewrite P1, F4.
        subst s1. cbn. lia.
    + cbn. repeat split. intros H. exact H.
Qed.


(** *** Promises *)

Lemma settle_frame p v s :
  let s' := settle p v s in
  pool s' = pool s /\ activeCount s' = activeCount s /\ queue s' = queue s /\
  browsers s' = browsers s /\ timers s' = timers s /\
  minSize s' = minSize s /\ maxSize s' = maxSize s /\ inflight s' = inflight s.
Proof. unfold settle. destruct (settled s !! p); cbn; repeat split. Qed.

(** A promise keeps its first settlement. *)
Lemma settle_lookup p v s q :
  settled (settle p v s) !! q =
  match settled s !! q with
  | Some old => Some old
  | None => if decide (p = q) then Some v else None
  end.
Proof.
  unfold settle. destruct (settled s !! p) eqn:E.
  - destruct (settled s !! q) eqn:E'; [reflexivity|].
    destruct (decide (p = q)); [congruence | reflexivity].
  - cbn. rewrite lookup_insert. destruct (decide (p = q)) as [->|].
    + rewrite E. reflexivity.
    + destruct (settled s !! q); reflexivity.
Qed.

Lemma call_resolve_frame f b s :
  let s' := call_resolve f b s in
  pool s' = pool s /\ activeCount s' = activeCount s /\ queue s' = queue s /\
  browsers s' = browsers s /\
  minSize s' = minSize s /\ maxSize s' = maxSize s /\ inflight s' = inflight s.
Proof.
  destruct f as [p|p]; cbn [call_resolve].
  - destruct (settle_frame p (Resolved b) s) as (?&?&?&?&?&?&?&?). repeat split; assumption.
  - destruct (settle_frame p (Resolved b) (clearTimeout p s)) as (?&?&?&?&?&?&?&?).
    repeat split; assumption.
Qed.

Lemma call_resolve_lookup f b s q :
  settled (call_resolve f b s) !! q =
  match settled s !! q with
  | Some old => Some old
  | None => if decide (resolveTarget f = q) then Some (Resolved b) else None
  end.
Proof. destruct f; cbn [call_resolve resolveTarget]; rewrite settle_lookup; reflexivity. Qed.

Lemma call_reject_frame f e s :
  let s' := call_reject f e s in
  pool s' = pool s /\ activeCount s' = activeCount s /\ queue s' = queue s /\
  browsers s' = browsers s /\
  minSize s' = minSize s /\ maxSize s' = maxSize s /\ inflight s' = inflight s.
Proof.
  destruct f as [p|p]; cbn [call_reject].
  - destruct (settle_frame p (Rejected e) s) as (?&?&?&?&?&?&?&?). repeat split; assumption.
  - destruct (settle_frame p (Rejected e) (clearTimeout p s)) as (?&?&?&?&?&?&?&?).
    repeat split; assumption.
Qed.

Lemma call_reject_lookup f e s q :
  settled (call_reject f e s) !! q =
  match settled s !! q with
  | Some old => Some old
  | None => if decide (rejectTarget f = q) then Some (Rejected e) else None
  end.
Proof. destruct f; cbn [call_reject rejectTarget]; rewrite settle_lookup; reflexivity. Qed.

(** *** [release] *)

Lemma release_dead b s :
  isConnected s b = false ->
  release b s =
  let s1 := incr_totalDestroyed
              (closeBrowser b (set_activeCount (activeCount s - 1) (incr_totalReleased s))) in
  if poolLength s + (activeCount s - 1) <? minSize s
  then startCreateBrowser s1 else s1.
Proof.
  intros C. unfold release. cbn zeta.
  change (isConnected (set_activeCount _ (incr_totalReleased s)) b) with (isConnected s b).
  rewrite C. reflexivity.
Qed.

Lemma release_dead_effect b s :
  isConnected s b = false ->
  pool (release b s) = pool s /\
  browsers (release b s) !! b = Some Closed /\
  inflight (release b s) = (if poolLength s + (activeCount s - 1) <? minSize s
                            then S (inflight s) else inflight s).
Proof.
  intros C. rewrite (release_dead b s C). cbn zeta.
  destruct (poolLength s + (activeCount s - 1) <? minSize s); cbn;
    (split; [reflexivity | split; [apply lookup_insert_eq | reflexivity]]).
Qed.

Lemma release_live b s :
  isConnected s b = true ->
  release b s =
  let s1 := set_activeCount (activeCount s - 1) (incr_totalReleased s) in
  match queue s with
  | item :: rest =>
      call_resolve (resolve item) b
        (set_activeCount (activeCount s - 1 + 1) (set_queue rest s1))
  | [] =>
      if poolLength s <? maxSize s then set_pool (pool s ++ [b]) s1
      else incr_totalDestroyed (closeBrowser b s1)
  end.
Proof.
  intros C. unfold release. cbn zeta.
  change (isConnected (set_activeCount _ (incr_totalReleased s)) b) with (isConnected s b).
  rewrite C. reflexivity.
Qed.

Lemma release_sizes b s :
  minSize (release b s) = minSize s /\ maxSize (release b s) = maxSize s.
Proof.
  destruct (isConnected s b) eqn:C.
  - rewrite (release_live b s C). cbn zeta.
    destruct (queue s) as [|item rest].
    + destruct (poolLength s <? maxSize s); split; reflexivity.
    + destruct (call_resolve_frame (resolve item) b
        (set_activeCount (activeCount s - 1 + 1)
           (set_queue rest (set_activeCount (activeCount s - 1) (incr_totalReleased s)))))
        as (_&_&_&_&H1&H2&_).
      split; assumption.
  - rewrite (release_dead b s C). cbn zeta.
    destruct (poolLength s + (activeCount s - 1) <? minSize s); split; reflexivity.
Qed.

(** [release] never raises the number of browsers the pool counts. *)
Lemma release_bound b s :
  activeCount (release b s) + poolLength (release b s)
    <= activeCount s + poolLength s.
Proof.
  destruct (isConnected s b) eqn:C.
  - rewrite (release_live b s C). cbn zeta.
    destruct (queue s) as [|item rest].
    + destruct (poolLength s <? maxSize s); unfold poolLength; cbn;
        rewrite ?length_app; cbn; lia.
    + destruct (call_resolve_frame (resolve item) b
        (set_activeCount (activeCount s - 1 + 1)
           (set_queue rest (set_activeCount (activeCount s - 1) (incr_totalReleased s)))))
        as (H1&H2&_).
      unfold poolLength. rewrite H1, H2. cbn. lia.
  - rewrite (release_dead b s C). cbn zeta.
    destruct (poolLength s + (activeCount s - 1) <? minSize s);
      unfold poolLength; cbn; lia.
Qed.


(** *** [healthCheck], [initialize], [cleanup] and the timers *)

Lemma createBrowser_waiting s : waiting (fst (createBrowser s)) = waiting s.
Proof.
  destruct (createBrowser_frame s) as (H1 & H2 & H3 & _).
  unfold waiting. cbn zeta in *. rewrite H1, H2, H3. reflexivity.
Qed.

Lemma createBrowsers_waiting n : forall s,
  waiting (fst (createBrowsers n s)) = waiting s.
Proof.
  induction n as [|n IH]; intros s; cbn [createBrowsers]; [reflexivity|].
  pose proof (createBrowser_waiting s) as H.
  destruct (createBrowser s) as [s1 r]. cbn [fst] in H.
  specialize (IH s1). destruct (createBrowsers n s1) as [s2 ok]. cbn [fst] in *.
  congruence.
Qed.

Lemma replenish_waiting fuel : forall s, waiting (replenish fuel s) = waiting s.
Proof.
  induction fuel as [|fuel IH]; intros s; cbn [replenish];
    destruct (poolLength s + activeCount s <? minSize s); try reflexivity.
  rewrite IH. apply createBrowser_waiting.
Qed.

Lemma removeUnhealthy_waiting s b : waiting (removeUnhealthy s b) = waiting s.
Proof. unfold removeUnhealthy. destruct (indexOf b (pool s)); reflexivity. Qed.

Lemma fold_removeUnhealthy_waiting l : forall s,
  waiting (fold_left removeUnhealthy l s) = waiting s.
Proof.
  induction l as [|b l IH]; intros s; cbn [fold_left]; [reflexivity|].
  rewrite IH. apply removeUnhealthy_waiting.
Qed.

Lemma healthCheck_waiting s : waiting (fst (healthCheck s)) = waiting s.
Proof.
  unfold healthCheck. cbn [fst].
  destruct (List.filter _ (pool s)) as [|b l] eqn:E.
  - reflexivity.
  - rewrite replenish_waiting. apply fold_removeUnhealthy_waiting.
Qed.

Lemma initialize_waiting s : waiting (fst (initialize s)) = waiting s.
Proof.
  unfold initialize. pose proof (createBrowsers_waiting (Z.to_nat (minSize s)) s) as H.
  destruct (createBrowsers _ s) as [s1 ok]. exact H.
Qed.

Lemma settleLaunch_waiting s : waiting (settleLaunch s) = waiting s.
Proof.
  unfold settleLaunch. destruct (inflight s) as [|n]; [reflexivity|].
  rewrite createBrowser_waiting. reflexivity.
Qed.

Lemma disconnect_waiting b s : waiting (disconnect b s) = waiting s.
Proof. unfold disconnect. destruct (browsers s !! b) as [[| |]|]; reflexivity. Qed.

(** [cleanup] settles promises by rejecting them only. *)
Lemma rejectQueued_lookup q : forall s p,
  settled (rejectQueued q s) !! p =
  match settled s !! p with
  | Some old => Some old
  | None =>
      if existsb (fun item => Nat.eqb (rejectTarget (reject item)) p) q
      then Some (Rejected ShuttingDown) else None
  end.
Proof.
  induction q as [|item rest IH]; intros s p; cbn [rejectQueued existsb].
  - destruct (settled s !! p); reflexivity.
  - rewrite IH, call_reject_lookup.
    change (settled (set_queue rest s)) with (settled s).
    destruct (settled s !! p); [reflexivity|].
    destruct (decide (rejectTarget (reject item) = p)) as [->|Hne].
    + rewrite Nat.eqb_refl. reflexivity.
    + apply Nat.eqb_neq in Hne. rewrite Hne. reflexivity.
Qed.

Lemma rejectQueued_frame q : forall s,
  let s' := rejectQueued q s in
  pool s' = pool s /\ browsers s' = browsers s /\ inflight s' = inflight s /\
  minSize s' = minSize s /\ maxSize s' = maxSize s /\
  queue s' = match q with [] => queue s | _ :: _ => [] end.
Proof.
  induction q as [|item rest IH]; intros s; cbn [rejectQueued].
  - repeat split.
  - destruct (IH (call_reject (reject item) ShuttingDown (set_queue rest s)))
      as (H1 & H2 & H3 & H4 & H5 & H6).
    destruct (call_reject_frame (reject item) ShuttingDown (set_queue rest s))
      as (G1 & G2 & G3 & G4 & G5 & G6 & G7).
    cbn zeta in *. rewrite H1, H2, H3, H4, H5, H6, G1, G3, G4, G5, G6, G7.
    repeat split. destruct rest; reflexivity.
Qed.

Lemma rejectQueued_timers q : forall s p,
  existsb (fun item => match reject item with
                       | WaiterReject p' => Nat.eqb p' p
                       | PromiseReject _ => false
                       end) q = true ->
  timers (rejectQueued q s) !! p = None.
Proof.
  assert (Hkeep : forall l s p, timers s !! p = None ->
                                timers (rejectQueued l s) !! p = None).
  { induction l as [|item rest IH]; intros s p H; cbn [rejectQueued]; [exact H|].
    apply IH. destruct (reject item) as [p'|p']; cbn [call_reject].
    - destruct (settle_frame p' (Rejected ShuttingDown) (set_queue rest s))
        as (_&_&_&_&T&_). cbn zeta in T. rewrite T. exact H.
    - destruct (settle_frame p' (Rejected ShuttingDown)
                  (clearTimeout p' (set_queue rest s))) as (_&_&_&_&T&_).
      cbn zeta in T. rewrite T. cbn.
      destruct (decide (p' = p)) as [->|Hne].
      + apply lookup_delete_eq.
      + rewrite lookup_delete_ne by exact Hne. exact H. }
  induction q as [|item rest IH]; intros s p H; cbn [rejectQueued existsb] in *.
  - discriminate.
  - apply orb_true_iff in H as [H|H].
    + apply Hkeep. destruct (reject item) as [p'|p']; [discriminate|].
      apply Nat.eqb_eq in H. subst p'. cbn [call_reject].
      destruct (settle_frame p (Rejected ShuttingDown)
                  (clearTimeout p (set_queue rest s))) as (_&_&_&_&T&_).
      cbn zeta in T. rewrite T. cbn. apply lookup_delete_eq.
    + apply IH. exact H.
Qed.

Lemma fold_closeBrowser_frame l : forall s,
  let s' := fold_left (fun s b => closeBrowser b s) l s in
  waiting s' = waiting s /\ inflight s' = inflight s /\
  minSize s' = minSize s /\ maxSize s' = maxSize s /\
  forall b, browsers s' !! b =
            if existsb (Nat.eqb b) l then Some Closed else browsers s !! b.
Proof.
  induction l as [|x l IH]; intros s; cbn [fold_left existsb].
  - repeat split.
  - destruct (IH (closeBrowser x s)) as (H1 & H2 & H3 & H4 & H5).
    cbn zeta in *. rewrite H1, H2, H3, H4. repeat split.
    intros b. rewrite H5. cbn.
    destruct (existsb (Nat.eqb b) l); [rewrite orb_true_r; reflexivity|].
    rewrite orb_false_r. rewrite lookup_insert.
    destruct (decide (x = b)) as [->|Hne].
    + rewrite Nat.eqb_refl. reflexivity.
    + assert (E : Nat.eqb b x = false) by (apply Nat.eqb_neq; congruence).
      rewrite E. reflexivity.
Qed.

Lemma fireTimeout_lookup p s q :
  settled (fireTimeout p s) !! q =
  match settled s !! q with
  | Some old => Some old
  | None =>
      match timers s !! p with
      | Some ms => if decide (p = q) then Some (Rejected (AcquireTimeout ms)) else None
      | None => None
      end
  end.
Proof.
  unfold fireTimeout. destruct (timers s !! p) as [ms|].
  - cbn zeta. rewrite call_reject_lookup. cbn [rejectTarget].
    destruct (findIndex _ _); reflexivity.
  - destruct (settled s !! q); reflexivity.
Qed.

(** The timer of a queued request never finds its entry: the entry holds
    the closure, the timer looks for the promise's own [resolve]. *)
Lemma fireTimeout_keeps_queue p s :
  Forall queued_by_acquire (queue s) -> queue (fireTimeout p s) = queue s.
Proof.
  intros Hq. unfold fireTimeout. destruct (timers s !! p) as [ms|]; [|reflexivity].
  cbn zeta. change (queue (set_timers (delete p (timers s)) s)) with (queue s).
  rewrite findIndex_none.
  - destruct (call_reject_frame (PromiseReject p) (AcquireTimeout ms)
                (set_timers (delete p (timers s)) s)) as (_&_&Q&_).
    exact Q.
  - eapply Forall_impl; [exact Hq|]. intros item [p' ->]. reflexivity.
Qed.


(** Service is first come, first served: [acquire] queues at the end and
    [release] of a connected browser serves the head of the queue. *)
Lemma release_serves_oldest b s item rest :
  isConnected s b = true -> queue s = item :: rest ->
  queue (release b s) = rest /\
  (settled s !! resolveTarget (resolve item) = None ->
   settled (release b s) !! resolveTarget (resolve item) = Some (Resolved b)).
Proof.
  intros C Q. rewrite (release_live b s C). cbn zeta. rewrite Q.
  match goal with |- context [call_resolve ?f ?x ?y] =>
    destruct (call_resolve_frame f x y) as (_ & _ & F & _) end.
  split; [exact F|].
  intros Hnone. rewrite call_resolve_lookup. cbn. rewrite Hnone.
  destruct (decide (resolveTarget (resolve item) = resolveTarget (resolve item)));
    [reflexivity | congruence].
Qed.

Lemma waiting_queue s s' : waiting s' = waiting s -> queue s' = queue s.
Proof. unfold waiting. congruence. Qed.

(** Every entry of the queue is one made by [acquire], whatever happens
    to the pool; so no timer ever removes an entry. *)
Lemma queue_made_by_acquire_step s e :
  Forall queued_by_acquire (queue s) ->
  Forall queued_by_acquire (queue (step s e)).
Proof.
  intros Hq. destruct e as [timeout|b| | | |p| |b]; cbn [step].
  - pose proof (acquire_spec timeout s) as (_ & _ & _ & _ & _ & P).
    destruct (snd (acquire timeout s)) as [b'|e|p].
    + destruct P as (_ & Q & _). rewrite Q. exact Hq.
    + destruct P as (Q & _). rewrite Q. exact Hq.
    + destruct P as (_ & Q & _). rewrite Q. apply Forall_app. split; [exact Hq|].
      apply Forall_cons. split; [eexists; reflexivity | apply Forall_nil_2].
  - destruct (isConnected s b) eqn:C.
    + destruct (queue s) as [|item rest] eqn:Q.
      * rewrite (release_live b s C). cbn zeta. rewrite Q.
        destruct (poolLength s <? maxSize s); cbn; rewrite Q; constructor.
      * destruct (release_serves_oldest b s item rest C Q) as [R _].
        rewrite R. apply Forall_cons in Hq as [_ Hq]. exact Hq.
    + rewrite (release_dead b s C). cbn zeta.
      destruct (poolLength s + (activeCount s - 1) <? minSize s); exact Hq.
  - rewrite (waiting_queue _ _ (healthCheck_waiting s)). exact Hq.
  - rewrite (waiting_queue _ _ (initialize_waiting s)). exact Hq.
  - unfold cleanup. cbn.
    destruct (fold_closeBrowser_frame (pool (rejectQueued (queue s) s))
                (rejectQueued (queue s) s)) as (F & _).
    cbn zeta in F. rewrite (waiting_queue _ _ F).
    destruct (rejectQueued_frame (queue s) s) as (_ & _ & _ & _ & _ & R).
    cbn zeta in R. rewrite R. destruct (queue s); [exact Hq | constructor].
  - rewrite (fireTimeout_keeps_queue p s Hq). exact Hq.
  - rewrite (waiting_queue _ _ (settleLaunch_waiting s)). exact Hq.
  - rewrite (waiting_queue _ _ (disconnect_waiting b s)). exact Hq.
Qed.

Lemma timers_never_dequeue (events : list Event) opt_min env_min opt_max env_max script p :
  let s := run events (new opt_min env_min opt_max env_max script) in
  queue (fireTimeout p s) = queue s.
Proof.
  cbn zeta. apply fireTimeout_keeps_queue.
  assert (H : forall s, Forall queued_by_acquire (queue s) ->
                        Forall queued_by_acquire (queue (run events s))).
  { induction events as [|e events IH]; intros s Hq; [exact Hq|].
    cbn [run fold_left]. apply IH. apply queue_made_by_acquire_step. exact Hq. }
  apply H. constructor.
Qed.

Lemma waiting_settled s s' : waiting s' = waiting s -> settled s' = settled s.
Proof. unfold waiting. congruence. Qed.

Lemma cleanup_lookup s p :
  settled (cleanup s) !! p =
  match settled s !! p with
  | Some old => Some old
  | None =>
      if existsb (fun item => Nat.eqb (rejectTarget (reject item)) p) (queue s)
      then Some (Rejected ShuttingDown) else None
  end.
Proof.
  unfold cleanup. cbn zeta.
  change (settled (set_activeCount 0 (set_pool [] ?x))) with (settled x).
  destruct (fold_closeBrowser_frame (pool (rejectQueued (queue s) s))
              (rejectQueued (queue s) s)) as (H & _).
  cbn zeta in H. rewrite (waiting_settled _ _ H).
  apply rejectQueued_lookup.
Qed.

(** *** The bound on the number of browsers *)

Lemma createBrowser_counted s :
  let s' := fst (createBrowser s) in
  sizes s' = sizes s /\ counted s <= counted s' <= counted s + 1 /\
  (length (launches s') <= length (launches s))%nat /\
  (counted s' = counted s -> (length (launches s') < length (launches s))%nat).
Proof.
  unfold createBrowser, launch, counted, sizes, poolLength.
  destruct (launches s) as [|[|] rest]; cbn; rewrite ?length_app; cbn;
    repeat split; lia.
Qed.

Lemma replenish_counted fuel : forall s,
  let s' := replenish fuel s in
  sizes s' = sizes s /\
  (minSize s <= maxSize s -> counted s <= maxSize s -> counted s' <= maxSize s).
Proof.
  induction fuel as [|fuel IH]; intros s; cbn [replenish];
    change (poolLength s + activeCount s) with (poolLength s + activeCount s);
    destruct (poolLength s + activeCount s <? minSize s) eqn:E;
    try (split; [reflexivity | auto]).
  apply Z.ltb_lt in E.
  destruct (createBrowser_counted s) as (S1 & C1 & _).
  destruct (IH (fst (createBrowser s))) as (S2 & C2).
  cbn zeta in *. split; [congruence|].
  intros Hmm Hc. unfold sizes in S1. injection S1 as M1 M2.
  rewrite M1, M2 in C2. apply C2; [exact Hmm|].
  unfold counted in *. lia.
Qed.

(** The loop of [healthCheck] ends within the fuel it is given: when it
    stops the pool is no longer below [minSize]. *)
Lemma replenish_done fuel : forall s,
  (length (launches s) + Z.to_nat (minSize s - counted s) <= fuel)%nat ->
  (poolLength (replenish fuel s) + activeCount (replenish fuel s)
     <? minSize (replenish fuel s)) = false.
Proof.
  induction fuel as [|fuel IH]; intros s Hfuel; cbn [replenish];
    destruct (poolLength s + activeCount s <? minSize s) eqn:E; try exact E.
  - apply Z.ltb_lt in E. unfold counted in Hfuel. exfalso. lia.
  - apply Z.ltb_lt in E.
    destruct (createBrowser_counted s) as (S1 & C1 & L1 & L2).
    cbn zeta in *. apply IH.
    unfold sizes in S1. injection S1 as M1 M2. rewrite M1.
    destruct (Z.eq_dec (counted (fst (createBrowser s))) (counted s)) as [Heq|Hne].
    + specialize (L2 Heq). rewrite Heq. unfold counted in *. lia.
    + unfold counted in *. lia.
Qed.

Lemma removeUnhealthy_counted s b :
  sizes (removeUnhealthy s b) = sizes s /\
  counted (removeUnhealthy s b) <= counted s.
Proof.
  unfold removeUnhealthy, counted, sizes, poolLength.
  destruct (indexOf b (pool s)) as [i|]; cbn; split; try reflexivity; try lia.
  pose proof (length_splice1 i (pool s)). lia.
Qed.

Lemma fold_removeUnhealthy_counted l : forall s,
  sizes (fold_left removeUnhealthy l s) = sizes s /\
  counted (fold_left removeUnhealthy l s) <= counted s.
Proof.
  induction l as [|b l IH]; intros s; cbn [fold_left]; [split; [reflexivity | lia]|].
  destruct (IH (removeUnhealthy s b)) as [S1 C1].
  destruct (removeUnhealthy_counted s b) as [S2 C2].
  split; [congruence | lia].
Qed.

Lemma healthCheck_counted s :
  let s' := fst (healthCheck s) in
  sizes s' = sizes s /\
  (minSize s <= maxSize s -> counted s <= maxSize s -> counted s' <= maxSize s).
Proof.
  unfold healthCheck. cbn [fst].
  set (l := List.filter _ (pool s)).
  destruct (fold_removeUnhealthy_counted l s) as [S1 C1].
  set (s1 := fold_left removeUnhealthy l s) in *. clearbody s1.
  destruct l as [|b l']; cbn zeta.
  - split; [exact S1 | intros; lia].
  - match goal with |- context [replenish ?f ?x] =>
      destruct (replenish_counted f x) as [S2 C2] end.
    cbn zeta in S2, C2. split; [congruence|].
    intros Hmm Hc. unfold sizes in S1. injection S1 as M1 M2.
    rewrite <- M2. apply C2; [rewrite M1, M2; exact Hmm | rewrite M2; lia].
Qed.

Lemma fireTimeout_counted p s :
  sizes (fireTimeout p s) = sizes s /\ counted (fireTimeout p s) = counted s.
Proof.
  unfold fireTimeout. destruct (timers s !! p) as [ms|]; [|split; reflexivity].
  cbn zeta.
  match goal with |- context [call_reject ?f ?e ?x] =>
    destruct (call_reject_frame f e x) as (H1 & H2 & _ & _ & H3 & H4 & _) end.
  unfold sizes, counted, poolLength. cbn zeta in *. rewrite H1, H2, H3, H4.
  destruct (findIndex _ _); split; reflexivity.
Qed.

(** Where no launch is left to settle behind the back of the pool, the
    methods keep the bound: it is kept by every event but the arrival of
    an unawaited launch and a further [initialize]. *)
Lemma bound_kept_by_awaited_methods (s : State) (e : Event) :
  0 <= maxSize s -> minSize s <= maxSize s ->
  e <> SettleLaunch -> e <> Initialize ->
  within_maxSize s = true ->
  sizes (step s e) = sizes s /\ within_maxSize (step s e) = true.
Proof.
  intros Hmax Hmm Hs Hi Hin. unfold within_maxSize in *.
  apply Z.leb_le in Hin.
  assert (Hgoal : sizes (step s e) = sizes s /\ counted (step s e) <= maxSize s).
  { destruct e as [timeout|b| | | |p| |b]; cbn [step]; try congruence.
    - pose proof (acquire_spec timeout s) as (_ & M1 & M2 & _ & B & _).
      cbn zeta in *. unfold sizes, counted. rewrite M1, M2. split; [reflexivity|].
      apply B. exact Hin.
    - destruct (release_sizes b s) as [M1 M2]. pose proof (release_bound b s).
      unfold sizes, counted. rewrite M1, M2. split; [reflexivity | lia].
    - destruct (healthCheck_counted s) as [S1 C1]. cbn zeta in *.
      split; [exact S1|]. apply C1; [exact Hmm | unfold counted; lia].
    - unfold cleanup. cbn zeta.
      destruct (rejectQueued_frame (queue s) s) as (_ & _ & _ & R4 & R5 & _).
      destruct (fold_closeBrowser_frame (pool (rejectQueued (queue s) s))
                  (rejectQueued (queue s) s)) as (_ & _ & F3 & F4 & _).
      cbn zeta in *. unfold sizes, counted, poolLength. cbn.
      rewrite F3, F4, R4, R5. split; [reflexivity | lia].
    - destruct (fireTimeout_counted p s) as [S1 C1].
      split; [exact S1 | rewrite C1; unfold counted; lia].
    - unfold disconnect. destruct (browsers s !! b) as [[| |]|];
        (split; [reflexivity | unfold counted, poolLength in *; cbn; lia]). }
  destruct Hgoal as [S1 C1]. split; [exact S1|].
  apply Z.leb_le. unfold sizes in S1. injection S1 as M1 M2.
  rewrite M2. unfold counted in C1. lia.
Qed.

Lemma bound_kept_along_run (events : list Event) : forall s,
  0 <= maxSize s -> minSize s <= maxSize s ->
  Forall (fun e => e <> SettleLaunch /\ e <> Initialize) events ->
  within_maxSize s = true ->
  within_maxSize (run events s) = true.
Proof.
  induction events as [|e events IH]; intros s Hmax Hmm Hall Hin; [exact Hin|].
  apply Forall_cons in Hall as [[He1 He2] Hall].
  destruct (bound_kept_by_awaited_methods s e Hmax Hmm He1 He2 Hin) as [S1 B1].
  unfold sizes in S1. injection S1 as M1 M2.
  cbn [run fold_left]. apply IH; [lia | lia | exact Hall | exact B1].
Qed.


(** *** The claims *)

(** C1, the code at a failing input.  Two browsers are lent out, one of
    them dies and is released: a replacement is launched and not awaited.
    Four more requests each create a browser, since [acquire] compares
    [activeCount] alone with [maxSize]; when the replacement arrives the
    pool counts 5 active and 1 idle browsers with [maxSize = 5].  The same
    happens to the launches started by the constructor when five requests
    arrive before they settle. *)
Theorem C1_bound_broken_by_unawaited_launch :
  let s := run [Acquire 30000; Acquire 30000; Disconnect 0%nat; Release 0%nat;
                Acquire 30000; Acquire 30000; Acquire 30000; Acquire 30000] warm in
  let s' := run [Acquire 30000; Acquire 30000; Acquire 30000; Acquire 30000;
                 Acquire 30000; SettleLaunch; SettleLaunch]
                (new None None None None []) in
  maxSize s = 5 /\
  getStats s = mkStats 0 5 0 /\ within_maxSize s = true /\
  getStats (settleLaunch s) = mkStats 1 5 0 /\
  within_maxSize (settleLaunch s) = false /\
  maxSize s' = 5 /\
  getStats s' = mkStats 2 5 0 /\ within_maxSize s' = false.
Proof. vm_compute. repeat split. Qed.

(** C4, the code at a failing input.  With one browser lent out, two
    requests queue up.  The timer of the first fires: its promise is
    rejected with the timeout error and its timer is gone, but its entry is
    still first in the queue.  The browser released next is handed to that
    entry, whose promise is already settled: the second request stays
    pending, no browser is idle and the pool still counts one active. *)
Theorem C4_timed_out_waiter_stays_queued :
  let w0 := mkWaiter (WaiterResolve 0) (WaiterReject 0) in
  let w1 := mkWaiter (WaiterResolve 1) (WaiterReject 1) in
  let s1 := run [Acquire 30000; Acquire 500; Acquire 800] solo in
  let s2 := fireTimeout 0 s1 in
  let s3 := release 0 s2 in
  queue s1 = [w0; w1] /\
  settled s2 !! 0%nat = Some (Rejected (AcquireTimeout 500)) /\
  timers s2 !! 0%nat = None /\
  queue s2 = [w0; w1] /\
  isConnected s2 0 = true /\
  queue s3 = [w1] /\
  settled s3 !! 0%nat = Some (Rejected (AcquireTimeout 500)) /\
  settled s3 !! 1%nat = None /\
  pool s3 = [] /\ activeCount s3 = 1.
Proof. vm_compute. repeat split. Qed.

(** C5: [release] of a browser that is not connected leaves the idle list
    as it is and closes the browser; a replacement is launched, without
    being awaited, exactly when the active count it leaves plus the idle
    browsers is below [minSize].  A browser that [acquire] returns, at once
    or to a queued request through [release], is connected when it is
    handed over, hence not a closed one. *)
Theorem C5_unhealthy_release (s : State) (b : Browser) :
  isConnected s b = false ->
  let s' := release b s in
  pool s' = pool s /\
  browsers s' !! b = Some Closed /\
  inflight s' = (if poolLength s + (activeCount s - 1) <? minSize s
                 then S (inflight s) else inflight s) /\
  (forall timeout s1 b',
     snd (acquire timeout s1) = Acquired b' ->
     browsers (fst (acquire timeout s1)) !! b' = Some Connected) /\
  (forall b1 s1 p b',
     settled s1 !! p = None ->
     settled (release b1 s1) !! p = Some (Resolved b') ->
     browsers (release b1 s1) !! b' = Some Connected).
Proof.
  intros C. cbn zeta.
  destruct (release_dead_effect b s C) as (E1 & E2 & E3).
  split; [exact E1 | split; [exact E2 | split; [exact E3 | split]]].
  - intros timeout s1 b' H.
    pose proof (acquire_spec timeout s1) as (_ & _ & _ & _ & _ & P).
    rewrite H in P. apply P.
  - intros b1 s1 p b' Hnone Hres.
    destruct (isConnected s1 b1) eqn:C1.
    + rewrite (release_live b1 s1 C1) in *. cbn zeta in *.
      destruct (queue s1) as [|item rest].
      * destruct (poolLength s1 <? maxSize s1); cbn in Hres; congruence.
      * rewrite call_resolve_lookup in Hres. cbn in Hres. rewrite Hnone in Hres.
        destruct (decide (resolveTarget (resolve item) = p)); [|discriminate].
        injection Hres as <-.
        destruct (call_resolve_frame (resolve item) b1
          (set_activeCount (activeCount s1 - 1 + 1)
             (set_queue rest (set_activeCount (activeCount s1 - 1)
                                (incr_totalReleased s1))))) as (_&_&_&B&_).
        rewrite B. cbn. unfold isConnected in C1.
        destruct (browsers s1 !! b1) as [[| |]|]; congruence.
    + rewrite (release_dead b1 s1 C1) in Hres. cbn zeta in Hres.
      destruct (poolLength s1 + (activeCount s1 - 1) <? minSize s1);
        cbn in Hres; congruence.
Qed.

(** C5 on the default pool: browser 1 is lent out, dies and is released;
    the idle list still holds browser 0 alone and a replacement is under
    way. *)
Lemma C5_unhealthy_release_witness :
  let s := disconnect 1 (fst (acquire 30000 warm)) in
  pool (release 1 s) = [0%nat] /\
  browsers (release 1 s) !! 1%nat = Some Closed /\
  inflight (release 1 s) = 1%nat.
Proof.
  cbn zeta.
  destruct (C5_unhealthy_release (disconnect 1 (fst (acquire 30000 warm))) 1%nat eq_refl)
    as (H1 & H2 & H3 & _).
  split; [exact H1 | split; [exact H2 | exact H3]].
Defined.

(** C8, as the code has it: [cleanup] empties the queue, rejecting every
    request still pending with the shutting-down error and clearing the
    timers of the queued requests, closes every idle browser and empties
    the idle list, and sets [activeCount] to 0 at once: the browsers that
    are lent out are neither waited for nor closed, and launches under way
    are left to settle. *)
Theorem C8_cleanup (s : State) :
  let s' := cleanup s in
  queue s' = [] /\ pool s' = [] /\ activeCount s' = 0 /\
  (forall item, In item (queue s) ->
     settled s !! rejectTarget (reject item) = None ->
     settled s' !! rejectTarget (reject item) = Some (Rejected ShuttingDown)) /\
  (forall p, In (mkWaiter (WaiterResolve p) (WaiterReject p)) (queue s) ->
     timers s' !! p = None) /\
  (forall b, In b (pool s) -> browsers s' !! b = Some Closed) /\
  (forall b, ~ In b (pool s) -> browsers s' !! b = browsers s !! b) /\
  inflight s' = inflight s.
Proof.
  cbn zeta.
  destruct (rejectQueued_frame (queue s) s) as (R1 & R2 & R3 & R4 & R5 & R6).
  destruct (fold_closeBrowser_frame (pool (rejectQueued (queue s) s))
              (rejectQueued (queue s) s)) as (F1 & F2 & F3 & F4 & F5).
  cbn zeta in *.
  split; [|split; [|split; [|split; [|split; [|split; [|split]]]]]];
    try reflexivity.
  - unfold cleanup. cbn.
    assert (Q : queue (fold_left (fun s b => closeBrowser b s)
                         (pool (rejectQueued (queue s) s))
                         (rejectQueued (queue s) s))
                = queue (rejectQueued (queue s) s))
      by (unfold waiting in F1; congruence).
    rewrite Q, R6. destruct (queue s); reflexivity.
  - intros item Hin Hnone. rewrite cleanup_lookup, Hnone.
    assert (E : existsb (fun item0 => Nat.eqb (rejectTarget (reject item0))
                                         (rejectTarget (reject item))) (queue s) = true).
    { apply existsb_exists. exists item. split; [exact Hin | apply Nat.eqb_refl]. }
    rewrite E. reflexivity.
  - intros p Hin. unfold cleanup. cbn.
    assert (T : timers (fold_left (fun s b => closeBrowser b s)
                         (pool (rejectQueued (queue s) s))
                         (rejectQueued (queue s) s))
                = timers (rejectQueued (queue s) s))
      by (unfold waiting in F1; congruence).
    rewrite T. apply rejectQueued_timers.
    apply existsb_exists. eexists. split; [exact Hin|]. cbn. apply Nat.eqb_refl.
  - intros b Hin. unfold cleanup. cbn. rewrite F5, R1.
    assert (E : existsb (Nat.eqb b) (pool s) = true).
    { apply existsb_exists. exists b. split; [exact Hin | apply Nat.eqb_refl]. }
    rewrite E. reflexivity.
  - intros b Hin. unfold cleanup. cbn. rewrite F5, R1, R2.
    destruct (existsb (Nat.eqb b) (pool s)) eqn:E; [|reflexivity].
    apply existsb_exists in E as (x & Hx & Heq).
    apply Nat.eqb_eq in Heq. subst x. contradiction.
  - unfold cleanup. cbn. rewrite F2, R3. reflexivity.
Qed.

(** C8, counterexample to the claim as stated: browser 0 is lent out when
    [cleanup] runs, with a request queued and browser 2 idle; after
    [cleanup] returns browser 0 is still connected, nothing has waited
    for its release and [activeCount] is 0. *)
Lemma C8_active_browser_survives_counterexample :
  let s := run [Acquire 30000; Acquire 30000; Acquire 500; Disconnect 1%nat;
                Release 1%nat; SettleLaunch] pair in
  pool s = [2%nat] /\ activeCount s = 1 /\
  browsers s !! 0%nat = Some Connected /\
  browsers (cleanup s) !! 0%nat = Some Connected /\
  browsers (cleanup s) !! 2%nat = Some Closed /\
  activeCount (cleanup s) = 0.
Proof. vm_compute. repeat split. Qed.

(** C10: [release] of a browser that is not connected leaves the queue,
    the promises and the timers as they are, and so does the launch it may
    have started when it settles: the new browser goes to the idle list.
    The only event that resolves a pending promise with a browser is the
    [release] of that browser while it is connected.  So a queued request
    can time out while a browser is idle: with browser 0 lent out and one
    request queued, browser 0 dies and is released, its replacement
    arrives in the idle list, and the timer of the request then rejects
    it. *)
Theorem C10_dead_release_leaves_waiters :
  (forall s b, isConnected s b = false -> waiting (release b s) = waiting s) /\
  (forall s, waiting (settleLaunch s) = waiting s /\
             waiting (fst (createBrowser s)) = waiting s) /\
  (forall s e p b,
     settled s !! p = None -> settled (step s e) !! p = Some (Resolved b) ->
     e = Release b /\ isConnected s b = true) /\
  (let s := run [Acquire 30000; Acquire 500; Disconnect 0%nat; Release 0%nat;
                 SettleLaunch] solo in
   queue s = [mkWaiter (WaiterResolve 0) (WaiterReject 0)] /\
   settled s !! 0%nat = None /\
   pool s = [1%nat] /\ isConnected s 1 = true /\
   settled (fireTimeout 0 s) !! 0%nat = Some (Rejected (AcquireTimeout 500)) /\
   pool (fireTimeout 0 s) = [1%nat]).
Proof.
  split; [|split; [|split]].
  - intros s b C. rewrite (release_dead b s C). cbn zeta.
    destruct (poolLength s + (activeCount s - 1) <? minSize s); reflexivity.
  - intros s. split; [apply settleLaunch_waiting | apply createBrowser_waiting].
  - intros s e p b Hnone Hres.
    destruct e as [timeout|b0| | | |p0| |b0]; cbn [step] in Hres.
    + pose proof (acquire_spec timeout s) as (E & _). congruence.
    + destruct (isConnected s b0) eqn:C.
      * rewrite (release_live b0 s C) in Hres. cbn zeta in Hres.
        destruct (queue s) as [|item rest].
        -- destruct (poolLength s <? maxSize s); cbn in Hres; congruence.
        -- rewrite call_resolve_lookup in Hres. cbn in Hres. rewrite Hnone in Hres.
           destruct (decide (resolveTarget (resolve item) = p)); [|discriminate].
           injection Hres as <-. split; [reflexivity | exact C].
      * rewrite (release_dead b0 s C) in Hres. cbn zeta in Hres.
        destruct (poolLength s + (activeCount s - 1) <? minSize s);
          cbn in Hres; congruence.
    + rewrite (waiting_settled _ _ (healthCheck_waiting s)) in Hres. congruence.
    + rewrite (waiting_settled _ _ (initialize_waiting s)) in Hres. congruence.
    + rewrite cleanup_lookup, Hnone in Hres.
      destruct (existsb _ (queue s)); discriminate.
    + rewrite fireTimeout_lookup, Hnone in Hres.
      destruct (timers s !! p0); [|discriminate].
      destruct (decide (p0 = p)); discriminate.
    + rewrite (waiting_settled _ _ (settleLaunch_waiting s)) in Hres. congruence.
    + rewrite (waiting_settled _ _ (disconnect_waiting b0 s)) in Hres. congruence.
  - vm_compute. repeat split.
Qed.

End BrowserPoolFacts.

(** ** Single scans *)

Module ScannerFacts.

Import BrowserPool BrowserPoolFacts Scanner.
Local Open Scope Z_scope.

Section ScanURL.

Context {AxeResults ScanResult : Type}.
Variable isPrivateIP : string -> bool.
Variable formatScanResults : string -> AxeResults -> ScanResult.

Local Abbreviation scanURL := (scanURL isPrivateIP formatScanResults).

Implicit Types (pages : nat -> @PageRun AxeResults) (s : State).

(** An attempt that got a browser ends with the [release] of that
    browser, whether the page succeeded or threw. *)
Lemma attempt_releases (page : @PageRun AxeResults) s s1 b :
  acquire ACQUIRE_TIMEOUT s = (s1, Acquired b) ->
  attempt page s =
  (release b (if crashes page then disconnect b s1 else s1),
   match analysis page with
   | inl axeResults => inl axeResults
   | inr message => inr (PageFailure message)
   end).
Proof.
  intros E. unfold attempt. rewrite E.
  destruct (analysis page); reflexivity.
Qed.

(** The browser an attempt got is connected when the page starts. *)
Lemma acquired_connected s s1 b :
  acquire ACQUIRE_TIMEOUT s = (s1, Acquired b) -> isConnected s1 b = true.
Proof.
  intros E. pose proof (acquire_spec ACQUIRE_TIMEOUT s) as (_&_&_&_&_&P).
  rewrite E in P. cbn in P. destruct P as [P _].
  unfold isConnected. rewrite P. reflexivity.
Qed.

(** Releasing a connected browser does not close it. *)
Lemma release_live_keeps_connected b s :
  isConnected s b = true -> poolLength s < maxSize s \/ queue s <> [] ->
  browsers (release b s) !! b = Some Connected.
Proof.
  intros C H. rewrite (release_live b s C). cbn zeta.
  assert (B : browsers s !! b = Some Connected).
  { unfold isConnected in C. destruct (browsers s !! b) as [[| |]|]; congruence. }
  destruct (queue s) as [|item rest].
  - destruct H as [H|H]; [|congruence].
    apply Z.ltb_lt in H. rewrite H. exact B.
  - match goal with |- context [call_resolve ?f ?x ?y] =>
      destruct (call_resolve_frame f x y) as (_&_&_&F&_) end.
    rewrite F. exact B.
Qed.

Lemma scanURL_first url pages s axe :
  isPrivateIP url = false ->
  snd (attempt (pages 0%nat) s) = inl axe ->
  scanURL url pages s =
  (stateBefore 1 pages s, backoff 0, Scanned (formatScanResults url axe)).
Proof.
  intros Hu H0. unfold Scanner.scanURL. rewrite Hu. cbn.
  destruct (attempt (pages 0%nat) s) as [s1 r1]. cbn in *. subst r1.
  reflexivity.
Qed.

Lemma scanURL_second url pages s c0 axe :
  isPrivateIP url = false ->
  snd (attempt (pages 0%nat) s) = inr c0 ->
  snd (attempt (pages 1%nat) (stateBefore 1 pages s)) = inl axe ->
  scanURL url pages s =
  (stateBefore 2 pages s, backoff 1, Scanned (formatScanResults url axe)).
Proof.
  intros Hu H0 H1. unfold Scanner.scanURL. rewrite Hu. cbn in *.
  destruct (attempt (pages 0%nat) s) as [s1 r1]. cbn in *. subst r1.
  destruct (attempt (pages 1%nat) s1) as [s2 r2]. cbn in *. subst r2.
  reflexivity.
Qed.

Lemma scanURL_third url pages s c0 c1 r :
  isPrivateIP url = false ->
  snd (attempt (pages 0%nat) s) = inr c0 ->
  snd (attempt (pages 1%nat) (stateBefore 1 pages s)) = inr c1 ->
  snd (attempt (pages 2%nat) (stateBefore 2 pages s)) = r ->
  scanURL url pages s =
  (stateBefore 3 pages s, backoff 2,
   match r with
   | inl axe => Scanned (formatScanResults url axe)
   | inr cause => Threw (ScanFailed MAX_RETRIES cause)
   end).
Proof.
  intros Hu H0 H1 H2. unfold Scanner.scanURL. rewrite Hu. cbn in *.
  destruct (attempt (pages 0%nat) s) as [s1 r1]. cbn in *. subst r1.
  destruct (attempt (pages 1%nat) s1) as [s2 r2]. cbn in *. subst r2.
  destruct (attempt (pages 2%nat) s2) as [s3 r3]. cbn in *. subst r3.
  destruct r; reflexivity.
Qed.

(** C6, as the code has it.  An attempt that got a browser ends, failed
    or not, by releasing that browser to the pool: a browser still
    connected is not closed when somebody is queued or the idle list is
    below [maxSize], and it goes back to the idle list when nobody is
    queued; a browser that lost its connection is closed by that
    [release].  After the failure number
    [k] the scan sleeps [1000 * k] ms before the next attempt.  A scan
    whose attempt number [k + 1] is the first to succeed, [k] below
    [MAX_RETRIES], returns its formatted result; a scan whose
    [MAX_RETRIES] attempts all fail throws the error that carries
    [MAX_RETRIES] and the cause of the last failure. *)
Theorem C6_scanURL_retries (url : string) pages s :
  isPrivateIP url = false ->
  (forall n s1 b,
     acquire ACQUIRE_TIMEOUT (stateBefore n pages s) = (s1, Acquired b) ->
     let s2 := if crashes (pages n) then disconnect b s1 else s1 in
     stateBefore (S n) pages s = release b s2 /\
     (crashes (pages n) = false ->
      (poolLength s1 < maxSize s1 \/ queue s1 <> [] ->
       browsers (release b s2) !! b = Some Connected) /\
      (queue s1 = [] -> poolLength s1 < maxSize s1 ->
       pool (release b s2) = pool s1 ++ [b])) /\
     (crashes (pages n) = true ->
      browsers (release b s2) !! b = Some Closed /\
      pool (release b s2) = pool s1)) /\
  (forall k axe,
     (k < MAX_RETRIES)%nat ->
     (forall j, (j < k)%nat -> fails_at pages s j) ->
     snd (attempt (pages k) (stateBefore k pages s)) = inl axe ->
     scanURL url pages s =
     (stateBefore (S k) pages s, backoff k, Scanned (formatScanResults url axe))) /\
  (forall cause,
     (forall j, (j < MAX_RETRIES)%nat -> fails_at pages s j) ->
     snd (attempt (pages (pred MAX_RETRIES))
                  (stateBefore (pred MAX_RETRIES) pages s)) = inr cause ->
     scanURL url pages s =
     (stateBefore MAX_RETRIES pages s, backoff (pred MAX_RETRIES),
      Threw (ScanFailed MAX_RETRIES cause))).
Proof.
  intros Hu. split; [|split].
  - intros n s1 b E. cbn zeta.
    pose proof (acquired_connected _ _ _ E) as C.
    split; [|split].
    + cbn [stateBefore]. rewrite (attempt_releases _ _ _ _ E). reflexivity.
    + intros Hc. rewrite Hc. split.
      * intros H. apply release_live_keeps_connected; assumption.
      * intros Hq Hlt. rewrite (release_live b s1 C). cbn zeta. rewrite Hq.
        apply Z.ltb_lt in Hlt. rewrite Hlt. reflexivity.
    + intros Hc. rewrite Hc.
      assert (D : isConnected (disconnect b s1) b = false).
      { unfold disconnect, isConnected in *.
        destruct (browsers s1 !! b) as [[| |]|] eqn:B; try discriminate.
        cbn. rewrite lookup_insert_eq. reflexivity. }
      destruct (release_dead_effect b (disconnect b s1) D) as (P1 & P2 & _).
      split; [exact P2|].
      rewrite P1. unfold disconnect.
      destruct (browsers s1 !! b) as [[| |]|]; reflexivity.
  - intros k axe Hk Hfail Hok.
    destruct k as [|[|[|k]]]; [| | |unfold MAX_RETRIES in Hk; lia].
    + apply scanURL_first; assumption.
    + destruct (Hfail 0%nat) as [c0 H0]; [lia|].
      eapply scanURL_second; eassumption.
    + destruct (Hfail 0%nat) as [c0 H0]; [lia|].
      destruct (Hfail 1%nat) as [c1 H1]; [lia|].
      rewrite (scanURL_third url pages s c0 c1 (inl axe)); auto.
  - intros cause Hfail Hlast.
    destruct (Hfail 0%nat) as [c0 H0]; [unfold MAX_RETRIES; lia|].
    destruct (Hfail 1%nat) as [c1 H1]; [unfold MAX_RETRIES; lia|].
    rewrite (scanURL_third url pages s c0 c1 (inr cause)); auto.
Qed.

End ScanURL.

(** C6, counterexample to the claim as stated: three attempts fail on a
    pool of two idle browsers; every attempt gets browser 1 and gives it
    back, so that in the end it is idle again and connected, and the pool
    has closed no browser. *)
Lemma C6_failed_attempt_releases_counterexample :
  let r := scanURL public report "https://example.org" never_loads warm in
  snd r = Threw (ScanFailed 3 (PageFailure "Navigation timeout")) /\
  snd (fst r) = [1000; 2000] /\
  pool (fst (fst r)) = [0%nat; 1%nat] /\
  browsers (fst (fst r)) !! 1%nat = Some Connected /\
  totalAcquired (metrics (fst (fst r))) = 3 /\
  totalDestroyed (metrics (fst (fst r))) = 0.
Proof. vm_compute. repeat split. Qed.

(** C6 on the default pool, for a page that loads at the third attempt. *)
Lemma C6_scanURL_retries_witness :
  scanURL public report "https://example.org" loads_at_third warm
  = (stateBefore 3 loads_at_third warm, [1000; 2000],
     Scanned ("https://example.org"%string, "no violations"%string)).
Proof.
  destruct (C6_scanURL_retries public report "https://example.org" loads_at_third warm
              eq_refl) as (_ & H & _).
  apply (H 2%nat "no violations"%string).
  - unfold MAX_RETRIES. lia.
  - intros j Hj. exists (PageFailure "Navigation timeout").
    destruct j as [|[|j]]; [reflexivity | reflexivity | lia].
  - reflexivity.
Defined.

End ScannerFacts.

(** ** Bulk scans *)

Module BulkScanFacts.

Import BulkScan.
Local Open Scope Z_scope.

Lemma waves_of_concat {A} c (bs : list (list A)) l :
  waves_of c bs l -> concat bs = l.
Proof.
  induction 1 as [|batch H|batch rest l Hb Hr Hw IH]; cbn.
  - reflexivity.
  - apply app_nil_r.
  - rewrite IH. reflexivity.
Qed.

Lemma slice_take_drop {A} (i c : nat) (l : list A) :
  (i < length l)%nat ->
  slice (Z.of_nat i) (Z.of_nat i + Z.of_nat c) l = take c (drop i l).
Proof.
  intros Hi. unfold slice, slice_index.
  destruct (Z.of_nat i <? 0) eqn:E1; [apply Z.ltb_lt in E1; lia|].
  destruct (Z.of_nat i + Z.of_nat c <? 0) eqn:E2; [apply Z.ltb_lt in E2; lia|].
  replace (Z.to_nat (Z.min (Z.of_nat i) (Z.of_nat (length l)))) with i by lia.
  destruct (le_lt_dec c (length l - i)) as [Hc|Hc].
  - f_equal. lia.
  - rewrite (take_ge (drop i l) c) by (rewrite length_drop; lia).
    apply take_ge. rewrite length_drop. lia.
Qed.

Section Bulk.

Context {ScanResult : Type}.
Variable scanURL : string -> Settled ScanResult.

Local Abbreviation fulfilled := (fulfilled scanURL).
Local Abbreviation rejected := (fun url => negb (fulfilled url)).
Local Abbreviation covers := (covers scanURL).
Local Abbreviation wave_status := (wave_status scanURL).

Lemma collect_spec (batch : list string) : forall results errors,
  let acc := fold_left collect (combine batch (map scanURL batch)) (results, errors) in
  map result_url (fst acc) = map result_url results ++ List.filter fulfilled batch /\
  map error_url (snd acc) = map error_url errors ++ List.filter rejected batch.
Proof.
  induction batch as [|url batch IH]; intros results errors; cbn zeta.
  - cbn. rewrite !app_nil_r. split; reflexivity.
  - cbn [map combine fold_left List.filter].
    destruct (scanURL url) as [value|message] eqn:E.
    + assert (F : fulfilled url = true)
        by (unfold BulkScan.fulfilled; rewrite E; reflexivity).
      rewrite F. cbn [collect negb].
      destruct (IH (results ++ [mkResultEntry url value]) errors) as [H1 H2].
      cbn zeta in *. rewrite H1, H2, map_app, <- app_assoc. split; reflexivity.
    + assert (F : fulfilled url = false)
        by (unfold BulkScan.fulfilled; rewrite E; reflexivity).
      rewrite F. cbn [collect negb].
      destruct (IH results (errors ++ [mkErrorEntry url message])) as [H1 H2].
      cbn zeta in *. rewrite H1, H2, map_app, <- app_assoc. split; reflexivity.
Qed.

Lemma covers_step (i c : nat) (urls : list string) results errors :
  covers i urls results errors ->
  let acc := fold_left collect
               (combine (take c (drop i urls)) (map scanURL (take c (drop i urls))))
               (results, errors) in
  covers (i + c) urls (fst acc) (snd acc).
Proof.
  intros [H1 H2]. cbn zeta.
  destruct (collect_spec (take c (drop i urls)) results errors) as [G1 G2].
  cbn zeta in *. unfold covers.
  rewrite G1, G2, H1, H2, <- take_take_drop, !List.filter_app.
  split; reflexivity.
Qed.

Lemma covers_all (i : nat) (urls : list string) results errors :
  (length urls <= i)%nat -> covers i urls results errors ->
  covers (length urls) urls results errors.
Proof.
  unfold covers. intros Hi. rewrite (take_ge urls i) by exact Hi.
  rewrite firstn_all. auto.
Qed.

Lemma covers_length (urls : list string) results errors :
  covers (length urls) urls results errors ->
  (length results + length errors = length urls)%nat.
Proof.
  unfold covers. rewrite firstn_all. intros [H1 H2].
  rewrite <- (length_map result_url results), <- (length_map error_url errors), H1, H2.
  apply List.filter_length.
Qed.

Lemma waves_of_nil {A} c (l : list A) : waves_of c [] l -> l = [].
Proof. inversion 1. reflexivity. Qed.

Lemma waves_of_nonempty {A} c (bs : list (list A)) (l : list A) :
  waves_of c bs l -> bs <> [] -> l <> [].
Proof.
  induction 1 as [|batch H|batch rest l Hb Hr Hw IH]; intros Hne.
  - congruence.
  - destruct batch; [cbn in H; lia | discriminate].
  - specialize (IH Hr). destruct batch; [exact IH | discriminate].
Qed.

Lemma waves_spec (c : nat) (batchId : string) (urls : list string) :
  (0 < c)%nat ->
  forall fuel i r,
    (length urls - i <= fuel)%nat ->
    covers i urls (run_results r) (run_errors r) ->
    exists r' new statuses,
      waves scanURL fuel (Z.of_nat i) (Z.of_nat c) batchId urls r = Some r' /\
      batches r' = batches r ++ new /\
      waves_of c new (drop i urls) /\
      written r' = written r ++ statuses /\
      length statuses = length new /\
      (forall k st, statuses !! k = Some st -> wave_status urls i c k st) /\
      covers (length urls) urls (run_results r') (run_errors r') /\
      (forall v, <[batchId := v]> (bulkScanResults r')
                 = <[batchId := v]> (bulkScanResults r)).
Proof.
  intros Hc. induction fuel as [|fuel IH]; intros i r Hfuel Hcov.
  - assert (Hi : (length urls <= i)%nat) by lia.
    exists r, [], []. cbn [waves].
    destruct (Z.of_nat i <? Z.of_nat (length urls)) eqn:E;
      [apply Z.ltb_lt in E; lia|].
    rewrite !app_nil_r, drop_ge by exact Hi.
    split; [reflexivity|]. split; [reflexivity|]. split; [constructor|].
    split; [reflexivity|]. split; [reflexivity|].
    split; [intros k st H; discriminate|].
    split; [apply (covers_all i); [exact Hi | exact Hcov] | reflexivity].
  - cbn [waves].
    destruct (Z.of_nat i <? Z.of_nat (length urls)) eqn:E.
    + apply Z.ltb_lt in E. assert (Hi : (i < length urls)%nat) by lia.
      rewrite (slice_take_drop i c urls Hi).
      set (batch := take c (drop i urls)).
      pose proof (covers_step i c urls _ _ Hcov) as Hcov'. cbn zeta in Hcov'.
      fold batch in Hcov'.
      destruct (fold_left collect (combine batch (map scanURL batch))
                  (run_results r, run_errors r)) as [results errors] eqn:Eacc.
      cbn [fst snd] in Hcov'.
      rewrite <- Nat2Z.inj_add.
      set (st := mkBatchStatus Processing
                   (Z.min (Z.of_nat (i + c)) (Z.of_nat (length urls)))
                   (Z.of_nat (length urls)) results errors).
      set (r1 := write batchId st
                   (mkRun results errors (bulkScanResults r)
                          (batches r ++ [batch]) (written r))).
      destruct (IH (i + c)%nat r1) as (r' & new & statuses & W & B & P & Wr & L & S & C & M).
      { lia. }
      { exact Hcov'. }
      exists r', (batch :: new), (st :: statuses).
      assert (Hlen : length batch = Nat.min c (length urls - i))
        by (subst batch; rewrite length_take, length_drop; reflexivity).
      assert (Hsplit : drop i urls = batch ++ drop (i + c) urls).
      { subst batch. rewrite <- (take_drop c (drop i urls)) at 1.
        rewrite drop_drop. reflexivity. }
      split; [exact W|].
      split; [rewrite B; subst r1; cbn; rewrite <- app_assoc; reflexivity|].
      split.
      { rewrite Hsplit. destruct new as [|b new'].
        - apply waves_of_nil in P. rewrite P, app_nil_r.
          apply waves_last. lia.
        - apply waves_next; [|discriminate|exact P].
          assert (Hne : drop (i + c) urls <> [])
            by (eapply waves_of_nonempty; [exact P | discriminate]).
          assert ((i + c < length urls)%nat).
          { destruct (le_lt_dec (length urls) (i + c)) as [Hle|]; [|assumption].
            rewrite drop_ge in Hne by exact Hle. congruence. }
          lia. }
      split; [rewrite Wr; subst r1; cbn; rewrite <- app_assoc; reflexivity|].
      split; [cbn; rewrite L; reflexivity|].
      split.
      { intros [|k] st' H; cbn in H.
        - injection H as <-. subst st. unfold wave_status. cbn.
          split; [reflexivity|]. split; [reflexivity|].
          split; [f_equal; lia|].
          replace (Z.to_nat (Z.min (Z.of_nat (i + c)) (Z.of_nat (length urls))))
            with (Nat.min (i + c) (length urls)) by lia.
          destruct (le_lt_dec (length urls) (i + c)) as [Hle|Hlt].
          + rewrite Nat.min_r by exact Hle.
            apply (covers_all (i + c)); [exact Hle | exact Hcov'].
          + rewrite Nat.min_l by lia. exact Hcov'.
        - destruct (S k st' H) as (S1 & S2 & S3 & S4).
          unfold wave_status.
          split; [exact S1|]. split; [exact S2|]. split; [|exact S4].
          rewrite S3. f_equal. lia. }
      split; [exact C|].
      intros v. rewrite M. subst r1. cbn. apply insert_insert_eq.
    + apply Z.ltb_ge in E. assert (Hi : (length urls <= i)%nat) by lia.
      exists r, [], [].
      rewrite !app_nil_r, drop_ge by exact Hi.
      split; [reflexivity|]. split; [reflexivity|]. split; [constructor|].
      split; [reflexivity|]. split; [reflexivity|].
      split; [intros k st H; discriminate|].
      split; [apply (covers_all i); [exact Hi | exact Hcov] | reflexivity].
Qed.

(** C7: a bulk scan of [n] URLs with a wave size [c] above 0 ends; the
    batches it hands to [Promise.allSettled] cut the URLs, in order, into
    waves of [c] URLs, the last one possibly shorter; after each wave one
    status is written under the batch id, with the number of URLs done so
    far and the results and errors of exactly these URLs; the scans that
    reject end up in the errors and stop nothing: in the end every URL is
    either in the results or in the errors, [n] entries together, and the
    completed status holds both lists. *)
Theorem C7_bulk_scan_waves (batchId : string) (urls : list string)
    (env : option Z) (store : gmap string (BatchStatus ScanResult)) :
  0 < concurrency_setting env ->
  let c := concurrency_setting env in
  let n := Z.of_nat (length urls) in
  exists r statuses,
    processBulkScan scanURL batchId urls env store = Some r /\
    waves_of (Z.to_nat c) (batches r) urls /\
    written r = [mkBatchStatus Processing 0 n [] []] ++ statuses ++
                [mkBatchStatus Completed n n (run_results r) (run_errors r)] /\
    length statuses = length (batches r) /\
    (forall k st, statuses !! k = Some st ->
       status st = Processing /\ total st = n /\
       progress st = Z.min ((Z.of_nat k + 1) * c) n /\
       covers (Z.to_nat (progress st)) urls (results st) (errors st)) /\
    covers (length urls) urls (run_results r) (run_errors r) /\
    (length (run_results r) + length (run_errors r) = length urls)%nat /\
    bulkScanResults r
    = <[batchId := mkBatchStatus Completed n n (run_results r) (run_errors r)]> store.
Proof.
  intros Hc c n.
  assert (Hcn : (0 < Z.to_nat c)%nat) by (subst c; lia).
  set (r0 := write batchId (mkBatchStatus Processing 0 n [] [])
               (mkRun [] [] store [] [])).
  destruct (waves_spec (Z.to_nat c) batchId urls Hcn (length urls) 0%nat r0)
    as (r' & new & statuses & W & B & P & Wr & L & S & C & M).
  { lia. }
  { split; reflexivity. }
  rewrite Z2Nat.id in W by (subst c; lia). change (Z.of_nat 0) with 0 in W.
  unfold processBulkScan. cbv zeta. fold c. fold n. fold r0. rewrite W.
  eexists. exists statuses.
  split; [reflexivity|]. cbn [write batches written run_results run_errors bulkScanResults].
  split; [rewrite B; exact P|].
  split; [rewrite Wr; subst r0; cbn; reflexivity|].
  split; [rewrite B; exact L|].
  split.
  { intros k st H. destruct (S k st H) as (S1 & S2 & S3 & S4).
    split; [exact S1|]. split; [exact S2|]. split; [|exact S4].
    rewrite S3. fold n. f_equal. lia. }
  split; [exact C|].
  split; [apply covers_length; exact C|].
  rewrite M. subst r0. cbn. apply insert_insert_eq.
Qed.

End Bulk.

(** C7 for ten URLs, two of them failing, in waves of three (the default,
    [SCAN_CONCURRENCY] not being set). *)
Lemma C7_bulk_scan_waves_witness :
  exists r,
    processBulkScan scan_but_two "batch_1" ten None ∅ = Some r /\
    batches r = [["u0"; "u1"; "u2"]; ["u3"; "u4"; "u5"]; ["u6"; "u7"; "u8"]; ["u9"]]%string /\
    map progress (written r) = [0; 3; 6; 9; 10; 10] /\
    length (run_results r) = 8%nat /\
    map error_url (run_errors r) = ["u3"; "u7"]%string.
Proof.
  destruct (C7_bulk_scan_waves scan_but_two "batch_1" ten None ∅) as (r & sts & E & _).
  { reflexivity. }
  exists r. vm_compute in E. injection E as <-.
  vm_compute. repeat split.
Defined.

End BulkScanFacts.

(** * Further properties *)

(** ** The browser pool *)

Module BrowserPoolMoreFacts.

Import BrowserPool BrowserPoolFacts BrowserPoolLaunches.
Local Open Scope Z_scope.

(** *** What [acquire] takes *)

Lemma acquire_live timeout s b rest :
  pool s = rest ++ [b] -> isConnected s b = true ->
  acquire timeout s = (popped rest s, Acquired b).
Proof.
  intros E C. rewrite acquire_unfold. cbn zeta.
  change (pool (incr_totalAcquired s)) with (pool s). rewrite E, pop_app.
  change (isConnected (set_activeCount _ (set_pool rest (incr_totalAcquired s))) b)
    with (isConnected s b).
  rewrite C. reflexivity.
Qed.

Lemma acquire_dead timeout s b rest :
  pool s = rest ++ [b] -> isConnected s b = false ->
  acquire timeout s = acquire timeout (discarded b rest s).
Proof.
  intros E C. rewrite acquire_unfold. cbn zeta.
  change (pool (incr_totalAcquired s)) with (pool s). rewrite E, pop_app.
  change (isConnected (set_activeCount _ (set_pool rest (incr_totalAcquired s))) b)
    with (isConnected s b).
  rewrite C. reflexivity.
Qed.

Lemma acquire_none timeout s :
  pool s = [] -> acquire timeout s = acquire_fresh timeout (incr_totalAcquired s).
Proof.
  intros E. rewrite acquire_unfold. cbn zeta.
  change (pool (incr_totalAcquired s)) with (pool s). rewrite E, pop_nil.
  reflexivity.
Qed.

Lemma isConnected_discarded s x rest b :
  isConnected (discarded x rest s) b =
  if decide (x = b) then false else isConnected s b.
Proof.
  unfold isConnected. cbn.
  destruct (decide (x = b)) as [->|N].
  - rewrite lookup_insert_eq. reflexivity.
  - rewrite lookup_insert_ne by exact N. reflexivity.
Qed.

(** X1.  [acquire] hands out the idle browser that is connected and
    nearest to the end of the idle list: the dead browsers behind it
    are closed and dropped, nothing is launched and nothing is queued.
    Each dead browser dropped counts as one more acquisition in
    [totalAcquired], since [acquire] calls itself. *)
Theorem acquire_takes_last_connected timeout (l2 : list Browser) :
  forall s l1 b,
  pool s = l1 ++ b :: l2 ->
  isConnected s b = true ->
  Forall (fun x => isConnected s x = false) l2 ->
  let s' := fst (acquire timeout s) in
  snd (acquire timeout s) = Acquired b /\
  pool s' = l1 /\
  activeCount s' = activeCount s + 1 /\
  (forall x, browsers s' !! x = if bool_decide (x ∈ l2) then Some Closed
                                else browsers s !! x) /\
  nextBrowser s' = nextBrowser s /\ launches s' = launches s /\
  waiting s' = waiting s /\
  totalAcquired (metrics s') = totalAcquired (metrics s) + 1 + Z.of_nat (length l2) /\
  totalDestroyed (metrics s') = totalDestroyed (metrics s) + Z.of_nat (length l2).
Proof.
  induction l2 as [|x l2 IH] using rev_ind; intros s l1 b E C D; cbn zeta.
  - rewrite (acquire_live timeout s b l1 E C). cbn.
    repeat split; try lia.
  - apply Forall_app in D as [D Dx]. apply Forall_cons in Dx as [Dx _].
    assert (E' : pool s = (l1 ++ b :: l2) ++ [x]).
    { rewrite E, <- app_assoc. reflexivity. }
    rewrite (acquire_dead timeout s x _ E' Dx).
    assert (N : x <> b) by (intros ->; congruence).
    specialize (IH (discarded x (l1 ++ b :: l2) s) l1 b eq_refl).
    cbn zeta in IH.
    destruct IH as (R & P & A & B & NB & L & Wt & TA & TD).
    { rewrite isConnected_discarded. destruct (decide (x = b)); [contradiction|exact C]. }
    { eapply Forall_impl; [exact D|]. cbn. intros y Hy.
      rewrite isConnected_discarded. destruct (decide (x = y)); [reflexivity|exact Hy]. }
    split; [exact R|]. split; [exact P|].
    split; [rewrite A; cbn; lia|].
    split.
    { intros y. rewrite B. cbn.
      destruct (decide (y ∈ l2)) as [I|I].
      - rewrite !bool_decide_eq_true_2; [reflexivity| |exact I].
        apply elem_of_app. left. exact I.
      - rewrite (bool_decide_eq_false_2 _ I).
        destruct (decide (y = x)) as [->|Ny].
        + rewrite lookup_insert_eq, bool_decide_eq_true_2; [reflexivity|].
          apply elem_of_app. right. apply list_elem_of_singleton. reflexivity.
        + rewrite lookup_insert_ne by congruence.
          rewrite bool_decide_eq_false_2; [reflexivity|].
          intros [H|H%list_elem_of_singleton]%elem_of_app; contradiction. }
    split; [exact NB|]. split; [exact L|]. split; [exact Wt|].
    rewrite TA, TD, length_app. cbn. split; lia.
Qed.

Lemma acquire_takes_last_connected_witness :
  let s := disconnect 1%nat warm in
  snd (acquire 30000 s) = Acquired 0%nat /\
  pool (fst (acquire 30000 s)) = [] /\
  browsers (fst (acquire 30000 s)) !! 1%nat = Some Closed /\
  totalAcquired (metrics (fst (acquire 30000 s))) = 2.
Proof.
  cbn zeta.
  destruct (acquire_takes_last_connected 30000 [1%nat] (disconnect 1%nat warm) [] 0%nat)
    as (R & P & _ & B & _ & _ & _ & A & _).
  - reflexivity.
  - reflexivity.
  - repeat constructor.
  - split; [exact R|]. split; [exact P|]. split; [rewrite B; reflexivity|].
    rewrite A. reflexivity.
Defined.

(** *** The health check *)

Lemma indexOf_middle (x : Browser) (pre l : list Browser) :
  Forall (fun y => y <> x) pre ->
  indexOf x (pre ++ x :: l) = Some (length pre).
Proof.
  unfold indexOf. induction pre as [|y pre IH]; intros H; cbn.
  - rewrite Nat.eqb_refl. reflexivity.
  - apply Forall_cons in H as [N H].
    destruct (Nat.eqb_spec x y) as [->|_]; [contradiction|].
    rewrite (IH H). reflexivity.
Qed.

Lemma fold_removeUnhealthy_pool (d : Browser -> bool) (l : list Browser) :
  forall s pre,
  pool s = pre ++ l -> Forall (fun x => d x = false) pre ->
  pool (fold_left removeUnhealthy (List.filter d l) s)
  = pre ++ List.filter (fun x => negb (d x)) l.
Proof.
  induction l as [|x l IH]; intros s pre E H; cbn [List.filter fold_left].
  - exact E.
  - destruct (d x) eqn:Dx; cbn [negb fold_left].
    + apply IH; [|exact H].
      unfold removeUnhealthy. cbn. rewrite E, indexOf_middle.
      * cbn. unfold splice1. apply delete_middle.
      * eapply Forall_impl; [exact H|]. cbn. intros y Hy ->. congruence.
    + rewrite (IH s (pre ++ [x])).
      * rewrite <- app_assoc. reflexivity.
      * rewrite E, <- app_assoc. reflexivity.
      * apply Forall_app. split; [exact H|]. constructor; [exact Dx|constructor].
Qed.

Lemma fold_removeUnhealthy_browsers (l : list Browser) : forall s b,
  browsers (fold_left removeUnhealthy l s) !! b =
  if existsb (Nat.eqb b) l then Some Closed else browsers s !! b.
Proof.
  induction l as [|x l IH]; intros s b; cbn [fold_left existsb]; [reflexivity|].
  rewrite IH. destruct (existsb (Nat.eqb b) l); [rewrite orb_true_r; reflexivity|].
  rewrite orb_false_r. unfold removeUnhealthy.
  destruct (indexOf x (pool s)); cbn;
    (destruct (Nat.eqb_spec b x) as [->|N];
     [apply lookup_insert_eq | apply lookup_insert_ne; congruence]).
Qed.

Lemma fold_removeUnhealthy_activeCount (l : list Browser) : forall s,
  activeCount (fold_left removeUnhealthy l s) = activeCount s.
Proof.
  induction l as [|x l IH]; intros s; cbn [fold_left]; [reflexivity|].
  rewrite IH. unfold removeUnhealthy. destruct (indexOf x (pool s)); reflexivity.
Qed.

Lemma createBrowser_keeps_connected s :
  Forall (fun b => isConnected s b = true) (pool s) ->
  let s' := fst (createBrowser s) in
  Forall (fun b => isConnected s' b = true) (pool s') /\
  exists new, pool s' = pool s ++ new.
Proof.
  intros H. cbn zeta. pose proof (createBrowser_pool s) as P.
  destruct (snd (createBrowser s)) as [b|e]; destruct P as [P1 P2].
  - split; [|exists [b]; exact P1].
    rewrite P1. apply Forall_app. split.
    + eapply Forall_impl; [exact H|]. cbn. intros x Hx. unfold isConnected in *.
      rewrite P2. destruct (decide (b = x)) as [->|N].
      * rewrite lookup_insert_eq. reflexivity.
      * rewrite lookup_insert_ne by exact N. exact Hx.
    + constructor; [|constructor]. unfold isConnected.
      rewrite P2, lookup_insert_eq. reflexivity.
  - split; [|exists []; rewrite app_nil_r; exact P1].
    rewrite P1. eapply Forall_impl; [exact H|]. cbn. intros x Hx.
    unfold isConnected in *. rewrite P2. exact Hx.
Qed.

Lemma replenish_keeps_connected fuel : forall s,
  Forall (fun b => isConnected s b = true) (pool s) ->
  let s' := replenish fuel s in
  Forall (fun b => isConnected s' b = true) (pool s') /\
  activeCount s' = activeCount s /\
  exists new, pool s' = pool s ++ new.
Proof.
  induction fuel as [|fuel IH]; intros s H; cbn zeta; cbn [replenish].
  - destruct (_ <? _); (split; [exact H|split; [reflexivity|]]);
      exists []; rewrite app_nil_r; reflexivity.
  - destruct (_ <? _).
    + destruct (createBrowser_keeps_connected s H) as [H1 [new1 E1]].
      destruct (IH _ H1) as (H2 & A2 & new2 & E2).
      destruct (createBrowser_frame s) as (_ & _ & _ & A1 & _).
      split; [exact H2|]. split; [cbn zeta in *; congruence|].
      exists (new1 ++ new2). rewrite E2, E1, app_assoc. reflexivity.
    + split; [exact H|]. split; [reflexivity|].
      exists []; rewrite app_nil_r; reflexivity.
Qed.

(** X2.  After [healthCheck()] every idle browser is connected: the idle
    list is the connected browsers it held, in their order, followed by
    the browsers launched to replace the dead ones.  The report counts
    the dead browsers removed and the idle browsers left; no request is
    served or dropped and [activeCount] is kept; a pool without dead
    idle browser is left as it is, and one that lost some ends with at
    least [minSize] browsers. *)
Theorem healthCheck_leaves_connected_browsers (s : State) :
  let dead := List.filter (fun b => negb (isConnected s b)) (pool s) in
  let s' := fst (healthCheck s) in
  Forall (fun b => isConnected s' b = true) (pool s') /\
  (exists new, pool s' = List.filter (isConnected s) (pool s) ++ new) /\
  removedUnhealthy (snd (healthCheck s)) = length dead /\
  currentSize (snd (healthCheck s)) = length (pool s') /\
  activeCount s' = activeCount s /\
  waiting s' = waiting s /\
  (dead = [] -> s' = s) /\
  (dead <> [] -> minSize s <= poolLength s' + activeCount s').
Proof.
  cbn zeta.
  set (d := fun b => negb (isConnected s b)).
  assert (P1 : pool (fold_left removeUnhealthy (List.filter d (pool s)) s)
               = List.filter (isConnected s) (pool s)).
  { rewrite (fold_removeUnhealthy_pool d (pool s) s [] eq_refl (Forall_nil_2 _)).
    cbn. apply List.filter_ext. intros b. unfold d. apply negb_involutive. }
  assert (C1 : Forall (fun b => isConnected
                 (fold_left removeUnhealthy (List.filter d (pool s)) s) b = true)
                 (pool (fold_left removeUnhealthy (List.filter d (pool s)) s))).
  { rewrite P1. apply List.Forall_forall. intros b Hb.
    apply List.filter_In in Hb as [_ Hb]. unfold isConnected in *.
    rewrite fold_removeUnhealthy_browsers.
    destruct (existsb (Nat.eqb b) (List.filter d (pool s))) eqn:Ex; [|exact Hb].
    apply List.existsb_exists in Ex as (x & Hx & Exb).
    apply Nat.eqb_eq in Exb as <-.
    apply List.filter_In in Hx as [_ Hx]. unfold d, isConnected in Hx.
    destruct (browsers s !! b) as [[| |]|]; discriminate. }
  unfold healthCheck. cbn zeta. fold d. cbn [fst snd removedUnhealthy currentSize].
  set (s1 := fold_left removeUnhealthy (List.filter d (pool s)) s) in *.
  pose proof (fold_removeUnhealthy_activeCount (List.filter d (pool s)) s) as A1.
  fold s1 in A1.
  pose proof (fold_removeUnhealthy_waiting (List.filter d (pool s)) s) as W1.
  fold s1 in W1.
  destruct (List.filter d (pool s)) as [|x dead] eqn:Ed.
  - split; [exact C1|]. split; [exists []; rewrite app_nil_r; exact P1|].
    split; [reflexivity|]. split; [reflexivity|].
    split; [exact A1|]. split; [exact W1|].
    split; [intros _; reflexivity | congruence].
  - set (fuel := (length (launches s1)
                  + Z.to_nat (minSize s1 - (poolLength s1 + activeCount s1)))%nat).
    destruct (replenish_keeps_connected fuel s1 C1) as (H2 & A2 & new & E2).
    cbn zeta in *.
    split; [exact H2|]. split; [exists new; rewrite E2, P1; reflexivity|].
    split; [reflexivity|]. split; [reflexivity|].
    split; [congruence|].
    split; [rewrite replenish_waiting; exact W1|].
    split; [discriminate|]. intros _.
    assert (F : (length (launches s1) + Z.to_nat (minSize s1 - counted s1) <= fuel)%nat).
    { unfold fuel, counted. lia. }
    pose proof (replenish_done fuel s1 F) as D.
    apply Z.ltb_ge in D.
    destruct (replenish_counted fuel s1) as [S2 _]. cbn zeta in S2.
    destruct (fold_removeUnhealthy_counted (x :: dead) s) as [S1 _].
    unfold sizes in S1, S2. fold s1 in S1.
    injection S1 as M1 _. injection S2 as M2 _. lia.
Qed.

(** *** The bound and the late launches *)









(** *** After [cleanup] *)

Lemma cleanup_fields s :
  pool (cleanup s) = [] /\ activeCount (cleanup s) = 0 /\ queue (cleanup s) = [] /\
  maxSize (cleanup s) = maxSize s /\ launches (cleanup s) = launches s /\
  nextBrowser (cleanup s) = nextBrowser s.
Proof.
  unfold cleanup. cbn zeta. cbn.
  set (s1 := rejectQueued (queue s) s).
  assert (R : queue s1 = [] /\ maxSize s1 = maxSize s /\ launches s1 = launches s /\
              nextBrowser s1 = nextBrowser s).
  { subst s1. generalize (eq_refl (queue s)).
    generalize (queue s) at 1 3 4 5 6. intros q. revert s.
    induction q as [|item rest IH]; intros s E; cbn [rejectQueued].
    - repeat split. symmetry. exact E.
    - set (s2 := call_reject (reject item) ShuttingDown (set_queue rest s)).
      assert (F : queue s2 = rest /\ maxSize s2 = maxSize s /\
                  launches s2 = launches s /\ nextBrowser s2 = nextBrowser s).
      { subst s2. unfold call_reject, settle, clearTimeout.
        destruct (reject item); cbn;
          match goal with |- context [match ?x with _ => _ end] => destruct x end;
          cbn; repeat split. }
      destruct F as (F1 & F2 & F3 & F4).
      destruct (IH s2 (eq_sym F1)) as (I1 & I2 & I3 & I4).
      repeat split; congruence. }
  destruct R as (R1 & R2 & R3 & R4).
  assert (C : forall l s0, 
             queue (fold_left (fun s b => closeBrowser b s) l s0) = queue s0 /\
             maxSize (fold_left (fun s b => closeBrowser b s) l s0) = maxSize s0 /\
             launches (fold_left (fun s b => closeBrowser b s) l s0) = launches s0 /\
             nextBrowser (fold_left (fun s b => closeBrowser b s) l s0) = nextBrowser s0).
  { induction l as [|b l IH]; intros s0; cbn [fold_left]; [repeat split|].
    destruct (IH (closeBrowser b s0)) as (I1 & I2 & I3 & I4).
    repeat split; assumption. }
  destruct (C (pool s1) s1) as (C1 & C2 & C3 & C4).
  repeat split; congruence.
Qed.

(** X5.  [cleanup()] does not shut the pool: it leaves it empty, with
    no browser counted and no request queued, and the next [acquire]
    launches a new browser and lends it (or fails with the error of the
    launch, and not with "shutting down"). *)
Theorem acquire_after_cleanup timeout s :
  0 < maxSize s ->
  let r := acquire timeout (cleanup s) in
  pool (cleanup s) = [] /\ activeCount (cleanup s) = 0 /\ queue (cleanup s) = [] /\
  match launches s with
  | false :: _ => snd r = Failed LaunchFailed
  | _ => snd r = Acquired (nextBrowser s) /\
         isConnected (fst r) (nextBrowser s) = true /\
         activeCount (fst r) = 1 /\ pool (fst r) = []
  end.
Proof.
  intros Hmax. cbn zeta.
  destruct (cleanup_fields s) as (P & A & Q & M & L & N).
  split; [exact P|]. split; [exact A|]. split; [exact Q|].
  rewrite (acquire_none timeout (cleanup s) P).
  generalize dependent (cleanup s). intros c P A Q M L N.
  unfold acquire_fresh.
  change (activeCount (incr_totalAcquired c)) with (activeCount c).
  change (maxSize (incr_totalAcquired c)) with (maxSize c).
  rewrite A, M. destruct (Z.ltb_spec 0 (maxSize s)) as [_|]; [|lia].
  unfold createBrowser, launch.
  cbn [launches set_activeCount incr_totalAcquired set_metrics].
  rewrite L. destruct (launches s) as [|[|] rest]; cbn; rewrite ?N, ?P; cbn;
    unfold isConnected; cbn; rewrite ?lookup_insert_eq; repeat split.
Qed.

Lemma acquire_after_cleanup_witness :
  snd (acquire 30000 (cleanup warm)) = Acquired 2%nat /\
  isConnected (fst (acquire 30000 (cleanup warm))) 2 = true /\
  activeCount (fst (acquire 30000 (cleanup warm))) = 1 /\
  pool (fst (acquire 30000 (cleanup warm))) = [].
Proof.
  destruct (acquire_after_cleanup 30000 warm) as (_ & _ & _ & H);
    [vm_compute; reflexivity | exact H].
Defined.

(** *** Releases *)

(** X6.  [release] does not ask who holds the browser.  Released twice,
    a connected browser is twice in the idle list and [activeCount] is
    two lower; the next two calls of [acquire] both return it. *)
Theorem release_twice_lends_twice (b : Browser) (s : State) timeout :
  isConnected s b = true -> queue s = [] -> poolLength s + 1 < maxSize s ->
  let s2 := release b (release b s) in
  let r1 := acquire timeout s2 in
  let r2 := acquire timeout (fst r1) in
  pool s2 = pool s ++ [b; b] /\
  activeCount s2 = activeCount s - 2 /\
  snd r1 = Acquired b /\ snd r2 = Acquired b /\
  pool (fst r2) = pool s /\ activeCount (fst r2) = activeCount s.
Proof.
  intros C Q M. cbn zeta.
  rewrite (release_live b s C), Q. cbn zeta.
  destruct (Z.ltb_spec (poolLength s) (maxSize s)) as [_|]; [|lia].
  set (s1 := set_pool (pool s ++ [b]) _).
  assert (C1 : isConnected s1 b = true) by exact C.
  rewrite (release_live b s1 C1).
  change (queue s1) with (queue s). rewrite Q. cbn zeta.
  assert (L1 : poolLength s1 = poolLength s + 1).
  { unfold poolLength. subst s1. cbn. rewrite length_app. cbn. lia. }
  change (maxSize s1) with (maxSize s).
  destruct (Z.ltb_spec (poolLength s1) (maxSize s)) as [_|]; [|lia].
  set (s2 := set_pool (pool s1 ++ [b]) _).
  assert (P2 : pool s2 = (pool s ++ [b]) ++ [b]) by reflexivity.
  assert (C2 : isConnected s2 b = true) by exact C.
  rewrite (acquire_live timeout s2 b _ P2 C2). cbn [fst snd].
  assert (P3 : pool (popped (pool s ++ [b]) s2) = pool s ++ [b]) by reflexivity.
  assert (C3 : isConnected (popped (pool s ++ [b]) s2) b = true) by exact C.
  rewrite (acquire_live timeout _ b _ P3 C3). cbn [fst snd].
  split; [rewrite P2, <- app_assoc; reflexivity|].
  split; [subst s2 s1; cbn; lia|].
  split; [reflexivity|]. split; [reflexivity|].
  split; [reflexivity|]. subst s2 s1. cbn. lia.
Qed.

Lemma release_twice_lends_twice_witness :
  let s := fst (acquire 30000 warm) in
  let s2 := release 1%nat (release 1%nat s) in
  pool s2 = [0; 1; 1]%nat /\ activeCount s2 = -1 /\
  snd (acquire 30000 s2) = Acquired 1%nat /\
  snd (acquire 30000 (fst (acquire 30000 s2))) = Acquired 1%nat.
Proof.
  cbn zeta.
  destruct (release_twice_lends_twice 1%nat (fst (acquire 30000 warm)) 30000)
    as (P & A & R1 & R2 & _);
    [vm_compute; reflexivity | vm_compute; reflexivity | vm_compute; reflexivity |].
  split; [exact P|]. split; [exact A|]. split; [exact R1 | exact R2].
Defined.


(** X7.  A browser released while the oldest queued request has already
    been settled (its timer fired) is given to that request: the entry
    leaves the queue, the promise stays as it was, and the browser is
    neither idle nor closed while [activeCount] still counts it. *)
Theorem release_to_settled_waiter_loses_browser (b : Browser) (s : State)
    (item : Waiter) (rest : list Waiter) (v : Settlement) :
  isConnected s b = true -> queue s = item :: rest ->
  settled s !! resolveTarget (resolve item) = Some v ->
  let s' := release b s in
  queue s' = rest /\
  settled s' = settled s /\
  pool s' = pool s /\
  activeCount s' = activeCount s /\
  isConnected s' b = true.
Proof.
  intros C Q V. cbn zeta. rewrite (release_live b s C), Q. cbn zeta.
  unfold call_resolve, settle, clearTimeout.
  destruct (resolve item) as [p|p]; cbn in V |- *; rewrite V; cbn;
    (repeat split; try lia; exact C).
Qed.

Lemma release_to_settled_waiter_loses_browser_witness :
  let s := run [Acquire 30000; Acquire 500; FireTimeout 0] solo in
  let s' := release 0%nat s in
  queue s' = [] /\ settled s' = settled s /\ pool s' = [] /\ activeCount s' = 1 /\
  isConnected s' 0 = true.
Proof.
  cbn zeta.
  destruct (release_to_settled_waiter_loses_browser 0%nat
              (run [Acquire 30000; Acquire 500; FireTimeout 0] solo)
              (mkWaiter (WaiterResolve 0) (WaiterReject 0)) []
              (Rejected (AcquireTimeout 500)))
    as (Q & S & P & A & C);
    [vm_compute; reflexivity | vm_compute; reflexivity | vm_compute; reflexivity |].
  split; [exact Q|]. split; [exact S|].
  split; [rewrite P; vm_compute; reflexivity|].
  split; [rewrite A; vm_compute; reflexivity | exact C].
Defined.

(** *** Timeouts *)

Lemma queue_made_by_acquire_run (events : list Event) : forall s,
  Forall queued_by_acquire (queue s) ->
  Forall queued_by_acquire (queue (run events s)).
Proof.
  induction events as [|e l IH]; intros s Hq; [exact Hq|].
  cbn [run fold_left]. apply IH. apply queue_made_by_acquire_step. exact Hq.
Qed.

(** X8.  In every state a pool can reach from its constructor, the
    timer of a waiting [acquire] rejects its promise with the timeout it
    was armed for and is disarmed, and the queue keeps all its entries,
    that of the rejected request included. *)
Theorem acquire_timeout_rejects_and_stays_queued (events : list Event)
    opt_min env_min opt_max env_max script (p : PromiseId) (ms : Z) :
  let s := run events (new opt_min env_min opt_max env_max script) in
  timers s !! p = Some ms -> settled s !! p = None ->
  let s' := fireTimeout p s in
  settled s' !! p = Some (Rejected (AcquireTimeout ms)) /\
  timers s' !! p = None /\
  queue s' = queue s /\
  pool s' = pool s /\ activeCount s' = activeCount s.
Proof.
  cbn zeta. intros T V.
  set (s := run events _) in *.
  assert (Hq : Forall queued_by_acquire (queue s)).
  { subst s. apply queue_made_by_acquire_run. constructor. }
  split; [rewrite fireTimeout_lookup, V, T; destruct (decide (p = p)); congruence|].
  split.
  { unfold fireTimeout. rewrite T. cbn zeta.
    unfold call_reject, settle. cbn.
    destruct (findIndex _ _); cbn; rewrite V; cbn; apply lookup_delete_eq. }
  split; [apply fireTimeout_keeps_queue; exact Hq|].
  destruct (fireTimeout_counted p s) as [_ C1].
  unfold fireTimeout. rewrite T. cbn zeta.
  match goal with |- context [call_reject ?f ?e ?x] =>
    destruct (call_reject_frame f e x) as (H1 & H2 & _) end.
  cbn zeta in *. rewrite H1, H2. destruct (findIndex _ _); split; reflexivity.
Qed.

Lemma acquire_timeout_rejects_and_stays_queued_witness :
  let s := run [SettleLaunch; Acquire 30000; Acquire 500] (new (Some 1) None (Some 1) None []) in
  settled (fireTimeout 0 s) !! 0%nat = Some (Rejected (AcquireTimeout 500)) /\
  queue (fireTimeout 0 s) = queue s.
Proof.
  cbn zeta.
  destruct (acquire_timeout_rejects_and_stays_queued
              [SettleLaunch; Acquire 30000; Acquire 500]
              (Some 1) None (Some 1) None [] 0%nat 500)
    as (S & _ & Q & _); [vm_compute; reflexivity | vm_compute; reflexivity |].
  split; [exact S | exact Q].
Defined.

(** *** [initialize] *)

Lemma createBrowser_outcome s :
  let failed := match launches s with false :: _ => true | _ => false end in
  let s' := fst (createBrowser s) in
  launches s' = tail (launches s) /\
  pool s' = pool s ++ (if failed then [] else [nextBrowser s]) /\
  errors (metrics s') = errors (metrics s) + (if failed then 1 else 0) /\
  totalCreated (metrics s') = totalCreated (metrics s) + (if failed then 0 else 1) /\
  (match snd (createBrowser s) with inl _ => negb failed | inr _ => failed end) = true.
Proof.
  cbn zeta. unfold createBrowser, launch.
  destruct (launches s) as [|[|] rest]; cbn; rewrite ?app_nil_r;
    (split; [reflexivity|]); (split; [reflexivity|]);
    (split; [lia|]); (split; [lia|reflexivity]).
Qed.

Lemma createBrowsers_outcome n : forall s,
  let failed := length (List.filter negb (take n (launches s))) in
  let s' := fst (createBrowsers n s) in
  (length (pool s') + failed = length (pool s) + n)%nat /\
  (exists new, pool s' = pool s ++ new) /\
  launches s' = drop n (launches s) /\
  errors (metrics s') = errors (metrics s) + Z.of_nat failed /\
  totalCreated (metrics s') + Z.of_nat failed = totalCreated (metrics s) + Z.of_nat n /\
  (snd (createBrowsers n s) = true <-> failed = O).
Proof.
  induction n as [|n IH]; intros s; cbn zeta.
  - rewrite take_0, drop_0. cbn. split; [lia|].
    split; [exists []; rewrite app_nil_r; reflexivity|].
    split; [reflexivity|]. split; [lia|]. split; [lia|]. split; reflexivity.
  - cbn [createBrowsers].
    destruct (createBrowser_outcome s) as (C1 & C2 & C3 & C4 & C5). cbn zeta in *.
    destruct (createBrowser s) as [s1 r]. cbn [fst snd] in *.
    destruct (IH s1) as (I1 & [new I2] & I3 & I4 & I5 & I6). cbn zeta in *.
    destruct (createBrowsers n s1) as [s2 ok]. cbn [fst snd] in *.
    rewrite C1 in *. rewrite C2 in *. rewrite length_app in I1.
    destruct (launches s) as [|[|] rest]; cbn [tail take drop List.filter negb length] in *;
      rewrite ?take_nil, ?drop_nil in *; cbn [List.filter length] in *.
    + split; [lia|]. split; [exists ([nextBrowser s] ++ new); rewrite I2, <- app_assoc; reflexivity|].
      split; [exact I3|]. split; [lia|]. split; [lia|].
      destruct r; [exact I6 | discriminate].
    + split; [lia|]. split; [exists ([nextBrowser s] ++ new); rewrite I2, <- app_assoc; reflexivity|].
      split; [exact I3|]. split; [lia|]. split; [lia|].
      destruct r; [exact I6 | discriminate].
    + rewrite app_nil_r in *.
      split; [lia|]. split; [exists new; exact I2|].
      split; [exact I3|]. split; [lia|]. split; [lia|].
      destruct r; [discriminate|]. split; discriminate.
Qed.

(** X9.  [initialize()] attempts each of its [minSize] launches: the
    browsers that start are appended to the idle list even when another
    launch fails, every failure is counted in [errors], and the call
    throws exactly when one of the launches failed. *)
Theorem initialize_launches_all (s : State) :
  let n := Z.to_nat (minSize s) in
  let failed := length (List.filter negb (take n (launches s))) in
  let s' := fst (initialize s) in
  (length (pool s') + failed = length (pool s) + n)%nat /\
  (exists new, pool s' = pool s ++ new) /\
  launches s' = drop n (launches s) /\
  errors (metrics s') = errors (metrics s) + Z.of_nat failed /\
  (snd (initialize s) = None <-> failed = O) /\
  (snd (initialize s) <> None -> snd (initialize s) = Some LaunchFailed).
Proof.
  cbn zeta. unfold initialize.
  destruct (createBrowsers_outcome (Z.to_nat (minSize s)) s) as (H1 & H2 & H3 & H4 & _ & H6).
  cbn zeta in *.
  destruct (createBrowsers (Z.to_nat (minSize s)) s) as [s1 ok]. cbn [fst snd] in *.
  split; [exact H1|]. split; [exact H2|]. split; [exact H3|]. split; [exact H4|].
  destruct ok.
  - split; [|congruence]. split; [intros _; apply H6; reflexivity | reflexivity].
  - split; [|reflexivity]. split; [discriminate|].
    intros F. apply H6 in F. discriminate.
Qed.

(** *** The queue *)

(** X29.  A connected browser released while requests wait goes to the
    oldest of them: its promise, if not settled yet, is resolved with
    the browser and its timer is disarmed; the other promises and timers
    are left alone, the entry leaves the queue, and the browser stays
    counted in [activeCount] without passing through the idle list. *)
Theorem release_hands_over_to_oldest_waiter (b : Browser) (s : State)
    (p : PromiseId) (rest : list Waiter) :
  isConnected s b = true ->
  queue s = mkWaiter (WaiterResolve p) (WaiterReject p) :: rest ->
  settled s !! p = None ->
  let s' := release b s in
  settled s' !! p = Some (Resolved b) /\
  (forall q, q <> p -> settled s' !! q = settled s !! q) /\
  timers s' !! p = None /\
  (forall q, q <> p -> timers s' !! q = timers s !! q) /\
  queue s' = rest /\
  pool s' = pool s /\ activeCount s' = activeCount s /\
  isConnected s' b = true.
Proof.
  intros C Q V. cbn zeta. rewrite (release_live b s C), Q. cbn zeta.
  cbn [resolve call_resolve]. unfold settle, clearTimeout. cbn. rewrite V. cbn.
  split; [apply lookup_insert_eq|].
  split; [intros q N; apply lookup_insert_ne; congruence|].
  split; [apply lookup_delete_eq|].
  split; [intros q N; apply lookup_delete_ne; congruence|].
  split; [reflexivity|]. split; [reflexivity|]. split; [lia | exact C].
Qed.

Lemma release_hands_over_to_oldest_waiter_witness :
  let s := run [Acquire 30000; Acquire 500; Acquire 800] solo in
  let s' := release 0%nat s in
  settled s' !! 0%nat = Some (Resolved 0%nat) /\
  settled s' !! 1%nat = None /\
  queue s' = [mkWaiter (WaiterResolve 1) (WaiterReject 1)] /\
  activeCount s' = 1.
Proof.
  cbn zeta.
  destruct (release_hands_over_to_oldest_waiter 0%nat
              (run [Acquire 30000; Acquire 500; Acquire 800] solo) 0%nat
              [mkWaiter (WaiterResolve 1) (WaiterReject 1)])
    as (S0 & S1 & _ & _ & Q & _ & A & _);
    [vm_compute; reflexivity | vm_compute; reflexivity | vm_compute; reflexivity |].
  split; [exact S0|]. split; [rewrite S1 by discriminate; vm_compute; reflexivity|].
  split; [exact Q|]. rewrite A. vm_compute. reflexivity.
Defined.

Lemma marks_eq s s' :
  marks s' = marks s ->
  queueHighWaterMark (metrics s') = queueHighWaterMark (metrics s) /\
  queueLength s' = queueLength s.
Proof. unfold marks. intros [= H1 H2]. split; assumption. Qed.

Lemma createBrowser_marks s : marks (fst (createBrowser s)) = marks s.
Proof.
  unfold createBrowser, launch.
  destruct (launches s) as [|[|] rest]; reflexivity.
Qed.

Lemma createBrowsers_marks n : forall s, marks (fst (createBrowsers n s)) = marks s.
Proof.
  induction n as [|n IH]; intros s; cbn [createBrowsers]; [reflexivity|].
  pose proof (createBrowser_marks s) as M1.
  destruct (createBrowser s) as [s1 r]. cbn [fst] in M1.
  pose proof (IH s1) as M2.
  destruct (createBrowsers n s1) as [s2 ok]. cbn [fst] in *. congruence.
Qed.

Lemma replenish_marks fuel : forall s, marks (replenish fuel s) = marks s.
Proof.
  induction fuel as [|fuel IH]; intros s; cbn [replenish];
    destruct (_ <? _); try reflexivity.
  rewrite IH. apply createBrowser_marks.
Qed.

Lemma fold_removeUnhealthy_marks l : forall s,
  marks (fold_left removeUnhealthy l s) = marks s.
Proof.
  induction l as [|x l IH]; intros s; cbn [fold_left]; [reflexivity|].
  rewrite IH. unfold removeUnhealthy. destruct (indexOf x (pool s)); reflexivity.
Qed.

Lemma settle_marks p v s : marks (settle p v s) = marks s.
Proof. unfold settle. destruct (settled s !! p); reflexivity. Qed.

Lemma call_resolve_marks f b s : marks (call_resolve f b s) = marks s.
Proof. destruct f; cbn [call_resolve]; rewrite settle_marks; reflexivity. Qed.

Lemma call_reject_marks f e s : marks (call_reject f e s) = marks s.
Proof. destruct f; cbn [call_reject]; rewrite settle_marks; reflexivity. Qed.

Lemma rejectQueued_mark q : forall s,
  queueHighWaterMark (metrics (rejectQueued q s)) = queueHighWaterMark (metrics s).
Proof.
  induction q as [|item rest IH]; intros s; cbn [rejectQueued]; [reflexivity|].
  rewrite IH.
  pose proof (call_reject_marks (reject item) ShuttingDown (set_queue rest s)) as M.
  unfold marks in M. injection M as M _. exact M.
Qed.

Lemma fold_closeBrowser_mark l : forall s,
  queueHighWaterMark (metrics (fold_left (fun s b => closeBrowser b s) l s))
  = queueHighWaterMark (metrics s).
Proof.
  induction l as [|b l IH]; intros s; cbn [fold_left]; [reflexivity|].
  rewrite IH. reflexivity.
Qed.

Lemma acquire_marks timeout s :
  let s' := fst (acquire timeout s) in
  marks s' = marks s \/
  marks s' = (Z.max (queueHighWaterMark (metrics s)) (queueLength s + 1),
              queueLength s + 1).
Proof.
  apply (acquire_ind timeout (fun s r =>
    marks (fst r) = marks s \/
    marks (fst r) = (Z.max (queueHighWaterMark (metrics s)) (queueLength s + 1),
                     queueLength s + 1))); clear s.
  - intros s b rest E C. left. reflexivity.
  - intros s b rest E C IH. exact IH.
  - intros s E. unfold acquire_fresh.
    destruct (_ <? _).
    + left.
      pose proof (createBrowser_marks
                    (set_activeCount (activeCount (incr_totalAcquired s) + 1)
                                     (incr_totalAcquired s))) as M.
      destruct (createBrowser _) as [s2 [b|e]]; cbn [fst] in *; exact M.
    + right. unfold marks, queueLength. cbn. rewrite length_app. cbn.
      f_equal. lia.
Qed.

Lemma step_marks s e :
  queueLength s <= queueHighWaterMark (metrics s) ->
  queueHighWaterMark (metrics (step s e))
    = Z.max (queueHighWaterMark (metrics s)) (queueLength (step s e)) /\
  queueLength (step s e) <= queueHighWaterMark (metrics (step s e)).
Proof.
  intros H.
  assert (G : (queueHighWaterMark (metrics (step s e)) = queueHighWaterMark (metrics s) /\
               queueLength (step s e) <= queueLength s) \/
              marks (step s e)
              = (Z.max (queueHighWaterMark (metrics s)) (queueLength s + 1),
                 queueLength s + 1)).
  { destruct e as [timeout|b| | | |p| |b]; cbn [step].
    - destruct (acquire_marks timeout s) as [M|M]; [left|right; exact M].
      unfold marks in M. injection M as M1 M2. split; [exact M1 | lia].
    - left. destruct (isConnected s b) eqn:C.
      + rewrite (release_live b s C). cbn zeta.
        destruct (queue s) as [|item rest] eqn:Q.
        * destruct (_ <? _); unfold queueLength; cbn; rewrite Q;
            split; reflexivity || lia.
        * pose proof (call_resolve_marks (resolve item) b
                        (set_activeCount (activeCount s - 1 + 1)
                           (set_queue rest
                              (set_activeCount (activeCount s - 1)
                                 (incr_totalReleased s))))) as M.
          unfold marks in M. injection M as M1 M2. rewrite M1, M2.
          unfold queueLength. cbn. rewrite Q. cbn [length]. split; [reflexivity | lia].
      + rewrite (release_dead b s C). cbn zeta.
        destruct (_ <? _); cbn; split; reflexivity || lia.
    - left. unfold healthCheck. cbn zeta. cbn [fst].
      set (dead := List.filter _ _).
      pose proof (fold_removeUnhealthy_marks dead s) as M1.
      destruct dead as [|x dead].
      + cbn in *. split; reflexivity || lia.
      + pose proof (replenish_marks
          (length (launches (fold_left removeUnhealthy (x :: dead) s))
           + Z.to_nat (minSize (fold_left removeUnhealthy (x :: dead) s)
                       - (poolLength (fold_left removeUnhealthy (x :: dead) s)
                          + activeCount (fold_left removeUnhealthy (x :: dead) s))))
          (fold_left removeUnhealthy (x :: dead) s)) as M2.
        rewrite M1 in M2. unfold marks in M2. injection M2 as M2 M3.
        split; [exact M2 | apply Z.eq_le_incl; exact M3].
    - left. unfold initialize.
      pose proof (createBrowsers_marks (Z.to_nat (minSize s)) s) as M.
      destruct (createBrowsers _ s) as [s1 ok]. cbn [fst] in *.
      unfold marks in M. injection M as M1 M2. split; [exact M1 | lia].
    - left. unfold cleanup. cbn zeta. unfold queueLength. cbn.
      rewrite fold_closeBrowser_mark, rejectQueued_mark.
      destruct (fold_closeBrowser_frame (pool (rejectQueued (queue s) s))
                  (rejectQueued (queue s) s)) as (F & _).
      cbn zeta in F. rewrite (waiting_queue _ _ F).
      destruct (rejectQueued_frame (queue s) s) as (_ & _ & _ & _ & _ & R).
      cbn zeta in R. rewrite R. destruct (queue s); cbn [length]; split; reflexivity || lia.
    - left. unfold fireTimeout. destruct (timers s !! p) as [ms|]; [|split; reflexivity || lia].
      cbn zeta.
      match goal with |- context [call_reject ?f ?e ?x] =>
        destruct (marks_eq _ _ (call_reject_marks f e x)) as [M1 M2] end.
      rewrite M1, M2.
      destruct (findIndex _ _) as [i|]; unfold queueLength; cbn;
        (split; [reflexivity|]); [|lia].
      pose proof (length_splice1 i (queue s)). lia.
    - left. unfold settleLaunch. destruct (inflight s) as [|n]; [split; reflexivity || lia|].
      pose proof (createBrowser_marks (set_inflight n s)) as M.
      unfold marks in M. injection M as M1 M2. split; [exact M1 | ].
      rewrite M2. unfold queueLength. cbn. lia.
    - left. unfold disconnect. destruct (browsers s !! b) as [[| |]|];
        split; reflexivity || lia. }
  destruct G as [[G1 G2]|G].
  - rewrite G1. split; lia.
  - unfold marks in G. injection G as G1 G2. rewrite G1, G2. split; lia.
Qed.

(** X30.  [queueHighWaterMark] is what its name says: along any
    sequence of events from the constructor it is the longest the queue
    has been, and so never below the length of the queue. *)
Theorem queueHighWaterMark_is_the_peak (events : list Event)
    opt_min env_min opt_max env_max script :
  let s0 := new opt_min env_min opt_max env_max script in
  queueHighWaterMark (metrics (run events s0)) = peak events s0 /\
  queueLength (run events s0) <= queueHighWaterMark (metrics (run events s0)).
Proof.
  cbn zeta.
  assert (G : forall s, queueLength s <= queueHighWaterMark (metrics s) ->
    queueHighWaterMark (metrics (run events s))
      = Z.max (queueHighWaterMark (metrics s)) (peak events s) /\
    queueLength (run events s) <= queueHighWaterMark (metrics (run events s))).
  { induction events as [|e events IH]; intros s H.
    - cbn. split; lia.
    - cbn [run fold_left peak].
      destruct (step_marks s e H) as [M1 M2].
      destruct (IH (step s e) M2) as [I1 I2].
      unfold run in *. split; [|exact I2].
      rewrite I1, M1.
      assert (P : forall es s1, queueLength s1 <= peak es s1)
        by (intros es s1; destruct es; cbn [peak]; lia).
      pose proof (P events (step s e)). lia. }
  destruct (G (new opt_min env_min opt_max env_max script)) as [G1 G2];
    [unfold queueLength; cbn; lia|].
  split; [|exact G2]. rewrite G1.
  assert (P : forall es s1, 0 <= peak es s1).
  { intros es s1. destruct es; cbn [peak]; unfold queueLength; lia. }
  pose proof (P events (new opt_min env_min opt_max env_max script)).
  change (queueHighWaterMark (metrics (new opt_min env_min opt_max env_max script)))
    with 0. lia.
Qed.

End BrowserPoolMoreFacts.

(** ** The circuit breaker *)

Module CircuitBreakerMoreFacts.

Import CircuitBreaker CircuitBreakerFacts CircuitBreakerManager.
Local Open Scope Z_scope.

Section Accounting.

Context {W A : Type}.

Lemma executeWithTimeout_succeeds cb (fn : Action W A) w :
  fails (timeout cb) (snd (fn w)) = false ->
  exists elapsed v,
    executeWithTimeout cb fn w = (fst (fn w), elapsed, Fulfilled v).
Proof.
  unfold executeWithTimeout, fails. destruct (fn w) as [w' [after [v|e]|]]; cbn;
    intros H; try discriminate.
  apply Z.ltb_ge in H. apply Z.leb_le in H. rewrite H.
  exists after, v. reflexivity.
Qed.

Lemma execute_success now (fn : Action W A) fallback cb w :
  state cb <> OPEN ->
  fails (timeout cb) (snd (fn w)) = false ->
  exists elapsed v,
    execute now fn fallback (cb, w) =
    (onSuccess (now + elapsed) (with_metrics incr_totalRequests cb),
     fst (fn w), Fulfilled v).
Proof.
  intros Hs Hf.
  destruct (executeWithTimeout_succeeds (with_metrics incr_totalRequests cb) fn w Hf)
    as (elapsed & v & E).
  exists elapsed, v. unfold execute, enter.
  rewrite with_metrics_state.
  destruct (state cb) eqn:S; try contradiction; cbn zeta; rewrite E; reflexivity.
Qed.

Lemma execute_probe now (fn : Action W A) fallback cb w :
  state cb = OPEN -> resetTimeout cb <= now - lastStateChange cb ->
  fails (timeout cb) (snd (fn w)) = false ->
  exists elapsed v,
    execute now fn fallback (cb, w) =
    (onSuccess (now + elapsed)
       (transitionTo HALF_OPEN now (with_metrics incr_totalRequests cb)),
     fst (fn w), Fulfilled v).
Proof.
  intros Hs Hr Hf.
  destruct (executeWithTimeout_succeeds
              (transitionTo HALF_OPEN now (with_metrics incr_totalRequests cb)) fn w Hf)
    as (elapsed & v & E).
  exists elapsed, v. unfold execute, enter, shouldAttemptReset.
  rewrite with_metrics_state, Hs.
  change (resetTimeout (with_metrics _ cb)) with (resetTimeout cb).
  change (lastStateChange (with_metrics _ cb)) with (lastStateChange cb).
  apply Z.leb_le in Hr. rewrite Hr. cbn zeta. rewrite E. reflexivity.
Qed.

Lemma execute_rejected now (fn : Action W A) fallback cb w :
  state cb = OPEN -> now - lastStateChange cb < resetTimeout cb ->
  execute now fn fallback (cb, w) =
  let cb1 := with_metrics incr_totalRejections (with_metrics incr_totalRequests cb) in
  match fallback with
  | Some fb => (with_metrics incr_totalFallbacks cb1, fst (fb w), snd (fb w))
  | None => (cb1, w, Rejected (CircuitOpen (name cb)))
  end.
Proof.
  intros Hs Hr. unfold execute, enter, shouldAttemptReset.
  rewrite with_metrics_state, Hs.
  change (resetTimeout (with_metrics _ cb)) with (resetTimeout cb).
  change (lastStateChange (with_metrics _ cb)) with (lastStateChange cb).
  apply Z.leb_gt in Hr. rewrite Hr. cbn zeta.
  destruct fallback as [fb|]; [destruct (fb w)|]; reflexivity.
Qed.

Lemma onSuccess_metrics now cb :
  metrics (onSuccess now cb) =
  (if State_eqb (state cb) HALF_OPEN && (successThreshold cb <=? successes cb + 1)
   then incr_stateChanges else id) (incr_totalSuccesses (metrics cb)).
Proof.
  unfold onSuccess. cbn zeta. cbn [state with_metrics].
  destruct (state cb); cbn; try reflexivity.
  destruct (successThreshold cb <=? successes cb + 1); reflexivity.
Qed.

Lemma onFailure_metrics now error cb :
  metrics (fst (onFailure now error cb)) =
  (if negb (nullish error) &&
      (State_eqb (state cb) HALF_OPEN || (failureThreshold cb <=? failures cb + 1))
   then incr_stateChanges else id) (incr_totalFailures (metrics cb)).
Proof.
  unfold onFailure. cbn zeta. cbn [state with_metrics].
  destruct (nullish error); [reflexivity|].
  destruct (state cb); cbn; try reflexivity;
  destruct (failureThreshold cb <=? failures cb + 1); reflexivity.
Qed.

Lemma execute_accounted now (fn : Action W A) fallback cb w :
  accounted cb -> accounted (fst (fst (execute now fn fallback (cb, w)))).
Proof.
  unfold accounted. cbn zeta. intros (H1 & H2 & H3 & H4 & H5).
  unfold execute.
  destruct (enter now cb) as [cb1 through] eqn:En.
  assert (M1 : through = true /\
               (metrics cb1 = incr_totalRequests (metrics cb) \/
                metrics cb1 = incr_stateChanges (incr_totalRequests (metrics cb))) \/
               through = false /\
               metrics cb1 = incr_totalRejections (incr_totalRequests (metrics cb))).
  { unfold enter in En. rewrite with_metrics_state in En.
    destruct (state cb); cbn zeta in En.
    - injection En as <- <-. left. split; [reflexivity|]. left. reflexivity.
    - destruct (shouldAttemptReset now _); injection En as <- <-.
      + left. split; [reflexivity|]. right. reflexivity.
      + right. split; reflexivity.
    - injection En as <- <-. left. split; [reflexivity|]. left. reflexivity. }
  destruct M1 as [[-> M1]|[-> M1]].
  - destruct (executeWithTimeout cb1 fn w) as [[w1 elapsed] [v|e]].
    + cbn [fst]. rewrite onSuccess_metrics.
      destruct (_ && _); destruct M1 as [-> | ->]; cbn; lia.
    + pose proof (onFailure_metrics (now + elapsed) e cb1) as Mf.
      destruct (onFailure (now + elapsed) e cb1) as [cb2 thrown]. cbn [fst] in Mf.
      assert (G : let m := metrics cb2 in
                  totalRequests m = totalSuccesses m + totalFailures m + totalRejections m /\
                  0 <= totalSuccesses m /\ 0 <= totalFailures m /\ 0 <= totalRejections m /\
                  0 <= totalFallbacks m /\ totalFallbacks m + 1 <= totalFailures m + totalRejections m).
      { cbn zeta. rewrite Mf.
        destruct (_ && _); destruct M1 as [-> | ->]; cbn; lia. }
      cbn zeta in G.
      destruct thrown as [t|]; [cbn [fst]; lia|].
      destruct fallback as [fb|]; [destruct (fb w1)|]; cbn [fst]; cbn; lia.
  - destruct fallback as [fb|]; [destruct (fb w)|]; cbn [fst]; cbn; rewrite M1; cbn; lia.
Qed.

Lemma apply_op_accounted (cbw : Breaker * W) (op : Op W A) :
  accounted (fst cbw) -> accounted (fst (apply_op cbw op)).
Proof.
  destruct cbw as [cb w]. destruct op as [c|m|]; cbn [apply_op fst snd].
  - unfold execute_call. apply execute_accounted.
  - unfold accounted. destruct m; cbn; lia.
  - intros _. unfold accounted. cbn. lia.
Qed.

(** X10.  The counters of a breaker add up.  After any sequence of
    calls of [execute] made one after the other, manual [open()] and
    [close()] and [resetMetrics()], every request counted has ended as
    a success, a failure or a rejection, and the fallbacks counted are
    at most the failures and the rejections. *)
Theorem breaker_counters_add_up (options : Options) (now : Z)
    (ops : list (Op W A)) (w : W) :
  accounted (fst (apply_ops ops (new options now, w))).
Proof.
  unfold apply_ops.
  assert (G : forall cbw : Breaker * W, accounted (fst cbw) ->
                         accounted (fst (fold_left apply_op ops cbw))).
  { induction ops as [|op l IH]; intros cbw H; [exact H|].
    cbn [fold_left]. apply IH. apply apply_op_accounted. exact H. }
  apply G. unfold accounted. cbn. lia.
Qed.

End Accounting.

Section HalfOpen.

Context {W A : Type}.

Lemma execute_call_success (c : Call W A) cb w :
  state cb <> OPEN -> succeeding (timeout cb) c ->
  let cb' := fst (execute_call (cb, w) c) in
  state cb' = match state cb with
              | HALF_OPEN => if successThreshold cb <=? successes cb + 1
                             then CLOSED else HALF_OPEN
              | st => st
              end /\
  failures cb' = match state cb with
                 | HALF_OPEN => if successThreshold cb <=? successes cb + 1
                                then 0 else failures cb
                 | _ => 0
                 end /\
  successes cb' = match state cb with
                  | HALF_OPEN => if successThreshold cb <=? successes cb + 1
                                 then 0 else successes cb + 1
                  | _ => successes cb
                  end /\
  settings cb' = settings cb.
Proof.
  intros Hs Hf. cbn zeta. unfold execute_call.
  destruct (execute_success (call_at c) (call_fn c) (call_fallback c) cb w Hs (Hf w))
    as (elapsed & v & E).
  rewrite E. cbn [fst]. unfold onSuccess. cbn zeta.
  cbn [state with_metrics successes successThreshold].
  destruct (state cb); try contradiction; cbn.
  - repeat split.
  - destruct (successThreshold cb <=? successes cb + 1); cbn; repeat split.
Qed.

(** Successes that do not yet close a half-open circuit. *)
Lemma half_open_counts_successes (calls : list (Call W A)) : forall cb w,
  state cb = HALF_OPEN ->
  Forall (succeeding (timeout cb)) calls ->
  successes cb + Z.of_nat (length calls) < successThreshold cb ->
  let cb' := fst (execute_all calls (cb, w)) in
  state cb' = HALF_OPEN /\
  successes cb' = successes cb + Z.of_nat (length calls) /\
  failures cb' = failures cb /\
  settings cb' = settings cb.
Proof.
  induction calls as [|c calls IH]; intros cb w Hs Hall Hlt; cbn zeta.
  - cbn. split; [exact Hs|]. split; [lia|]. split; reflexivity.
  - apply Forall_cons in Hall as [Hc Hall].
    cbn [length] in Hlt. unfold execute_all. cbn [fold_left].
    assert (Hn : state cb <> OPEN) by congruence.
    destruct (execute_call_success c cb w Hn Hc) as (S1 & F1 & N1 & T1).
    cbn zeta in *. rewrite Hs in S1, F1, N1.
    assert (L : (successThreshold cb <=? successes cb + 1) = false)
      by (apply Z.leb_gt; lia).
    rewrite L in S1, F1, N1.
    destruct (execute_call (cb, w) c) as [cb1 w1]. cbn [fst] in *.
    assert (T1' := T1). unfold settings in T1'. injection T1' as _ _ Es Et _.
    specialize (IH cb1 w1 S1). rewrite Et in IH. specialize (IH Hall).
    cbn zeta in IH. unfold execute_all in IH.
    destruct IH as (S2 & N2 & F2 & T2); [lia|].
    split; [exact S2|]. cbn [length]. split; [lia|]. split; [congruence|]. congruence.
Qed.

(** X11.  An open circuit recovers.  Once [resetTimeout] has passed,
    [successThreshold] calls that succeed one after the other close the
    circuit, with both counts back to 0; until the last of them the
    circuit is half open. *)
Theorem open_circuit_recovers (first : Call W A) (more : list (Call W A))
    (cb : Breaker) (w : W) :
  state cb = OPEN ->
  resetTimeout cb <= call_at first - lastStateChange cb ->
  Forall (succeeding (timeout cb)) (first :: more) ->
  Z.of_nat (length (first :: more)) = successThreshold cb ->
  (forall k, (k < length (first :: more))%nat -> (0 < k)%nat ->
     state (fst (execute_all (take k (first :: more)) (cb, w))) = HALF_OPEN) /\
  let cb' := fst (execute_all (first :: more) (cb, w)) in
  state cb' = CLOSED /\ failures cb' = 0 /\ successes cb' = 0 /\
  settings cb' = settings cb.
Proof.
  intros Hs Hr Hall Hlen.
  apply Forall_cons in Hall as [Hf Hall].
  destruct (execute_probe (call_at first) (call_fn first) (call_fallback first)
              cb w Hs Hr (Hf w)) as (elapsed & v & E).
  set (cb0 := transitionTo HALF_OPEN (call_at first)
                (with_metrics incr_totalRequests cb)) in E.
  set (cb1 := onSuccess (call_at first + elapsed) cb0) in E.
  assert (First : execute_call (cb, w) first = (cb1, fst (call_fn first w))).
  { unfold execute_call. rewrite E. reflexivity. }
  cbn [length] in Hlen.
  assert (P1 : state cb1 = (if successThreshold cb <=? 1 then CLOSED else HALF_OPEN) /\
               successes cb1 = (if successThreshold cb <=? 1 then 0 else 1) /\
               ((successThreshold cb <=? 1) = true -> failures cb1 = 0) /\
               settings cb1 = settings cb).
  { subst cb1 cb0. unfold onSuccess. cbn zeta.
    cbn [state with_metrics successes successThreshold transitionTo].
    change (0 + 1) with 1.
    destruct (successThreshold cb <=? 1); cbn; repeat split; discriminate. }
  destruct P1 as (S1 & N1 & F1 & T1).
  assert (T1' := T1). unfold settings in T1'. injection T1' as _ _ Es1 Et1 _.
  unfold execute_all. 
  destruct (successThreshold cb <=? 1) eqn:L1;
    [apply Z.leb_le in L1 | apply Z.leb_gt in L1].
  - assert (more = []) by (destruct more; [reflexivity | cbn [length] in Hlen; lia]).
    subst more. split.
    + intros k Hk Hpos. cbn [length] in Hk. lia.
    + cbn [fold_left]. rewrite First. cbn [fst].
      split; [exact S1|]. split; [apply F1; reflexivity|].
      split; [exact N1 | exact T1].
  - split.
    + intros k Hk Hpos. destruct k as [|k]; [lia|]. cbn [take].
      cbn [fold_left]. rewrite First.
      cbn [length] in Hk.
      assert (Hall' : Forall (succeeding (timeout cb1)) (take k more)).
      { rewrite Et1. apply Forall_take. exact Hall. }
      destruct (half_open_counts_successes (take k more) cb1 (fst (call_fn first w))
                  S1 Hall') as (S2 & _).
      { rewrite N1, Es1, length_take. lia. }
      exact S2.
    + cbn [fold_left]. rewrite First.
      destruct more as [|c l _] using rev_ind; [cbn [length] in Hlen; lia|].
      rewrite fold_left_app. cbn [fold_left].
      apply Forall_app in Hall as [Hl Hc]. apply Forall_cons in Hc as [Hc _].
      rewrite length_app in Hlen. cbn [length] in Hlen.
      assert (Hl' : Forall (succeeding (timeout cb1)) l) by (rewrite Et1; exact Hl).
      destruct (half_open_counts_successes l cb1 (fst (call_fn first w)) S1 Hl')
        as (S2 & N2 & F2 & T2); [rewrite N1, Es1; lia|].
      cbn zeta in *. unfold execute_all in *.
      destruct (fold_left execute_call l (cb1, fst (call_fn first w))) as [cb2 w2].
      cbn [fst] in *.
      assert (T2' := T2). unfold settings in T2'. injection T2' as _ _ Es2 Et2 _.
      assert (Hn : state cb2 <> OPEN) by congruence.
      assert (Hc' : succeeding (timeout cb2) c) by (rewrite Et2, Et1; exact Hc).
      destruct (execute_call_success c cb2 w2 Hn Hc') as (S3 & F3 & N3 & T3).
      cbn zeta in *. rewrite S2 in S3, F3, N3.
      assert (L : (successThreshold cb2 <=? successes cb2 + 1) = true)
        by (apply Z.leb_le; lia).
      rewrite L in S3, F3, N3.
      split; [exact S3|]. split; [exact F3|]. split; [exact N3|]. congruence.
Qed.

End HalfOpen.

Lemma open_circuit_recovers_witness :
  let cb' := fst (execute_all [ping_call 30000; ping_call 30020] (tripped, O)) in
  state cb' = CLOSED /\ failures cb' = 0 /\ successes cb' = 0.
Proof.
  cbn zeta.
  destruct (open_circuit_recovers (ping_call 30000) [ping_call 30020] tripped O)
    as (_ & S & F & N & _).
  - reflexivity.
  - vm_compute. discriminate.
  - repeat constructor.
  - reflexivity.
  - split; [exact S|]. split; [exact F | exact N].
Defined.

Section Streaks.

Context {W A : Type}.

(** X12.  Only failures in a row open the circuit: a success in the
    closed state sets the failure count back to 0, so a closed circuit
    stays closed along any sequence of calls that never fail
    [failureThreshold] times in a row, and its failure count is the
    number of failures since the last success.  A call fails when its
    action rejects, with whatever value, or has not fulfilled when the
    timer is due; one that fulfils when the timer is due succeeds. *)
Theorem breaker_trips_on_consecutive_failures_only
    (calls : list (Call W A)) (outcomes : list bool) : forall (cb : Breaker) (w : W),
  state cb = CLOSED ->
  Forall2 (behaves (timeout cb)) calls outcomes ->
  calm (failureThreshold cb) (failures cb) outcomes = true ->
  let cb' := fst (execute_all calls (cb, w)) in
  state cb' = CLOSED /\ failures cb' = streak_after (failures cb) outcomes.
Proof.
  revert outcomes.
  induction calls as [|c calls IH]; intros outcomes cb w Hs Hall Hcalm; cbn zeta.
  - apply Forall2_nil_inv_l in Hall as ->. cbn. split; [exact Hs | reflexivity].
  - apply Forall2_cons_inv_l in Hall as (ok & rest & Hc & Hall & ->).
    unfold execute_all. cbn [fold_left]. cbn [calm streak_after] in *.
    destruct ok; cbn [behaves] in Hc.
    + assert (Hn : state cb <> OPEN) by congruence.
      destruct (execute_call_success c cb w Hn Hc) as (S1 & F1 & _ & T1).
      cbn zeta in *. rewrite Hs in S1, F1.
      destruct (execute_call (cb, w) c) as [cb1 w1]. cbn [fst] in *.
      unfold settings in T1. injection T1 as _ Ef _ Et _.
      rewrite <- Et in Hall. rewrite <- Ef, <- F1 in Hcalm.
      destruct (IH rest cb1 w1 S1 Hall Hcalm) as [S2 F2].
      unfold execute_all in *. split; [exact S2|]. rewrite F2, F1. reflexivity.
    + apply andb_true_iff in Hcalm as [Hlt Hcalm]. apply Z.ltb_lt in Hlt.
      destruct (execute_call_failure c cb w Hs Hc) as (F1 & T1 & S1 & _).
      cbn zeta in *. specialize (S1 Hlt).
      destruct (execute_call (cb, w) c) as [cb1 w1]. cbn [fst] in *.
      unfold settings in T1. injection T1 as _ Ef _ Et _.
      rewrite <- Et in Hall. rewrite <- Ef, <- F1 in Hcalm.
      destruct (IH rest cb1 w1 S1 Hall Hcalm) as [S2 F2].
      unfold execute_all in *. split; [exact S2|]. rewrite F2, F1. reflexivity.
Qed.

(** X13.  While the circuit is open and [resetTimeout] has not passed,
    no action is invoked: the calls run their fallbacks only, each is
    counted as a rejection and none as a failure, and the circuit stays
    as it is. *)
Theorem open_circuit_runs_fallbacks_only (calls : list (Call W A)) :
  forall (cb : Breaker) (w : W),
  state cb = OPEN ->
  Forall (fun c => call_at c - lastStateChange cb < resetTimeout cb) calls ->
  let cb' := fst (execute_all calls (cb, w)) in
  snd (execute_all calls (cb, w)) = fold_left fallback_only calls w /\
  circuit cb' = circuit cb /\
  settings cb' = settings cb /\
  totalRejections (metrics cb')
    = totalRejections (metrics cb) + Z.of_nat (length calls) /\
  totalSuccesses (metrics cb') = totalSuccesses (metrics cb) /\
  totalFailures (metrics cb') = totalFailures (metrics cb).
Proof.
  induction calls as [|c calls IH]; intros cb w Hs Hall; cbn zeta.
  - cbn. repeat split. lia.
  - apply Forall_cons in Hall as [Hc Hall].
    unfold execute_all. cbn [fold_left length].
    assert (E : execute_call (cb, w) c =
                (fst (execute_call (cb, w) c), fallback_only w c) /\
                circuit (fst (execute_call (cb, w) c)) = circuit cb /\
                settings (fst (execute_call (cb, w) c)) = settings cb /\
                totalRejections (metrics (fst (execute_call (cb, w) c)))
                  = totalRejections (metrics cb) + 1 /\
                totalSuccesses (metrics (fst (execute_call (cb, w) c)))
                  = totalSuccesses (metrics cb) /\
                totalFailures (metrics (fst (execute_call (cb, w) c)))
                  = totalFailures (metrics cb)).
    { unfold execute_call, fallback_only.
      rewrite (execute_rejected (call_at c) (call_fn c) (call_fallback c) cb w Hs Hc).
      cbn zeta. destruct (call_fallback c) as [fb|]; cbn; repeat split. }
    destruct E as (E & C1 & T1 & R1 & S1 & F1). rewrite E.
    set (cb1 := fst (execute_call (cb, w) c)) in *.
    assert (Hs1 : state cb1 = OPEN).
    { unfold circuit in C1. injection C1 as C1 _ _ _. congruence. }
    assert (Hall1 : Forall (fun c => call_at c - lastStateChange cb1 < resetTimeout cb1) calls).
    { unfold circuit in C1. injection C1 as _ _ _ C1.
      unfold settings in T1. injection T1 as _ _ _ _ T1. rewrite C1, T1. exact Hall. }
    destruct (IH cb1 (fallback_only w c) Hs1 Hall1) as (I1 & I2 & I3 & I4 & I5 & I6).
    cbn zeta in *. unfold execute_all in *.
    split; [exact I1|]. split; [congruence|]. split; [congruence|].
    split; [lia|]. split; congruence.
Qed.

End Streaks.

Lemma breaker_trips_on_consecutive_failures_only_witness :
  let cb' := fst (execute_all [boom_call 1; boom_call 2; boom_call 3; boom_call 4;
                               mkCall 5 on_the_dot None;
                               boom_call 70000; reject_undefined_call 70020;
                               boom_call 70040; boom_call 70060]
                              (fresh, O)) in
  state cb' = CLOSED /\ failures cb' = 4.
Proof.
  cbn zeta.
  refine (breaker_trips_on_consecutive_failures_only
            [boom_call 1; boom_call 2; boom_call 3; boom_call 4;
             mkCall 5 on_the_dot None;
             boom_call 70000; reject_undefined_call 70020;
             boom_call 70040; boom_call 70060]
            [false; false; false; false; true; false; false; false; false]
            fresh O eq_refl _ eq_refl).
  repeat (constructor; [intros w; reflexivity|]). constructor.
Defined.

Lemma open_circuit_runs_fallbacks_only_witness :
  let r := execute_all [mkCall 10 boom (Some cached); boom_call 20;
                        mkCall 29999 boom (Some cached)] (tripped, O) in
  snd r = O /\ circuit (fst r) = circuit tripped /\
  totalRejections (metrics (fst r)) = 3.
Proof.
  cbn zeta.
  destruct (open_circuit_runs_fallbacks_only
              [mkCall 10 boom (Some cached); boom_call 20;
               mkCall 29999 boom (Some cached)] tripped O eq_refl)
    as (Hw & Hc & _ & Hr & _).
  - repeat (constructor; [vm_compute; reflexivity|]). constructor.
  - split; [exact Hw|]. split; [exact Hc | exact Hr].
Defined.

(** *** The manager *)

(** X14.  [getBreaker] creates a breaker once.  The first call for a
    name makes a closed breaker with the options given and that name
    ("default" for the empty name) and stores it; every later call
    returns the stored breaker whatever the options, and the breakers of
    other names are not touched. *)
Theorem getBreaker_creates_once (name : string) (o1 o2 : Options) (t1 t2 : Z)
    (m : Manager) :
  let m1 := fst (getBreaker name o1 t1 m) in
  let cb1 := snd (getBreaker name o1 t1 m) in
  m1 !! name = Some cb1 /\
  getBreaker name o2 t2 m1 = (m1, cb1) /\
  (forall other, other <> name -> m1 !! other = m !! other) /\
  match m !! name with
  | Some cb => cb1 = cb /\ m1 = m
  | None =>
      cb1 = new (with_name name o1) t1 /\
      CircuitBreaker.name cb1 = (if String.eqb name "" then "default" else name)%string /\
      state cb1 = CLOSED
  end.
Proof.
  cbn zeta.
  assert (G : getBreaker name o1 t1 m =
              match m !! name with
              | Some cb => (m, cb)
              | None => (<[name := new (with_name name o1) t1]> m,
                         new (with_name name o1) t1)
              end) by reflexivity.
  rewrite G. clear G.
  destruct (m !! name) as [cb|] eqn:E; cbn [fst snd].
  - split; [exact E|]. split; [unfold getBreaker; rewrite E; reflexivity|].
    split; [reflexivity|]. split; reflexivity.
  - split; [apply lookup_insert_eq|].
    split; [unfold getBreaker; rewrite lookup_insert_eq; reflexivity|].
    split; [intros other N; apply lookup_insert_ne; congruence|].
    split; [reflexivity|]. split; reflexivity.
Qed.

(** X15.  [resetAll()] closes every breaker of the manager: its state
    is CLOSED and its two counts are 0, its settings are kept, and each
    breaker counts one more state change, whatever its state was; the
    other counters are not reset. *)
Theorem resetAll_closes_every_breaker (clock : string -> Z) (m : Manager)
    (name : string) :
  match m !! name with
  | None => resetAll clock m !! name = None
  | Some cb =>
      exists cb',
        resetAll clock m !! name = Some cb' /\
        state cb' = CLOSED /\ failures cb' = 0 /\ successes cb' = 0 /\
        lastStateChange cb' = clock name /\
        settings cb' = settings cb /\
        metrics cb' = incr_stateChanges (metrics cb)
  end.
Proof.
  unfold resetAll. rewrite map_lookup_imap.
  destruct (m !! name) as [cb|]; cbn; [|reflexivity].
  eexists. split; [reflexivity|]. repeat split.
Qed.

End CircuitBreakerMoreFacts.

(** ** The listeners of a circuit breaker *)

Module BreakerEventsFacts.

Import CircuitBreaker JsString BreakerEvents.
Local Open Scope string_scope.

Lemma register_lookup (registrations : list (string * Callback)) :
  forall (l l' : Listeners) (event : string),
  register registrations l = Some l' ->
  l' !! event =
  match l !! event with
  | Some callbacks => Some (callbacks ++ registered event registrations)%list
  | None => None
  end.
Proof.
  induction registrations as [|[e c] rest IH]; intros l l' event H; cbn [register] in H.
  - injection H as <-. unfold registered. cbn.
    destruct (l !! event); [rewrite app_nil_r|]; reflexivity.
  - destruct (on e c l) as [l1|] eqn:E; [|discriminate].
    rewrite (IH l1 l' event H). unfold on in E.
    unfold registered. cbn [List.filter fst].
    destruct (l !! e) as [callbacks|] eqn:Le.
    + injection E as <-. destruct (String.eqb_spec e event) as [->|N].
      * rewrite lookup_insert_eq, Le. cbn [map snd]. rewrite <- app_assoc. reflexivity.
      * rewrite lookup_insert_ne by exact N. reflexivity.
    + destruct (existsb _ _); [discriminate|]. injection E as <-.
      destruct (String.eqb_spec e event) as [->|N]; [rewrite Le|]; reflexivity.
Qed.

(** X16.  Of the listeners for state changes only those of 'open' are
    ever called: [transitionTo] emits 'closed' and 'halfopen', names
    under which [on] registers nothing, so the callbacks registered for
    'close' and 'halfOpen' are not called.  The listeners of 'success',
    'failure' and 'fallback' are called in the order of registration. *)
Theorem transition_reaches_open_listeners_only
    (registrations : list (string * Callback)) (l : Listeners) (newState : State) :
  register registrations no_listeners = Some l ->
  emit (transition_event newState) l =
  match newState with
  | OPEN => registered "open" registrations
  | CLOSED | HALF_OPEN => []
  end /\
  emit "success" l = registered "success" registrations /\
  emit "failure" l = registered "failure" registrations /\
  emit "fallback" l = registered "fallback" registrations.
Proof.
  intros H. unfold emit.
  rewrite !(register_lookup registrations no_listeners l _ H).
  split; [destruct newState; reflexivity|]. repeat split.
Qed.

Lemma transition_reaches_open_listeners_only_witness :
  exists l,
    register [("halfOpen", 1); ("open", 2); ("close", 3); ("open", 4)]%nat no_listeners
      = Some l /\
    emit (transition_event HALF_OPEN) l = [] /\
    emit (transition_event CLOSED) l = [] /\
    emit (transition_event OPEN) l = [2; 4]%nat.
Proof.
  eexists. split; [reflexivity|].
  pose (regs := [("halfOpen", 1); ("open", 2); ("close", 3); ("open", 4)]%nat).
  split; [|split].
  - exact (proj1 (transition_reaches_open_listeners_only regs _ HALF_OPEN eq_refl)).
  - exact (proj1 (transition_reaches_open_listeners_only regs _ CLOSED eq_refl)).
  - exact (proj1 (transition_reaches_open_listeners_only regs _ OPEN eq_refl)).
Defined.

End BreakerEventsFacts.

(** ** Scans and the pool *)

Module ScanHTMLFacts.

Import BrowserPool BrowserPoolFacts Scanner ScanHTML.
Local Open Scope Z_scope.

Lemma acquire_with_room timeout s :
  activeCount s < maxSize s ->
  let s' := fst (acquire timeout s) in
  queue s' = queue s /\ maxSize s' = maxSize s /\
  match snd (acquire timeout s) with
  | Acquired b => activeCount s' = activeCount s + 1 /\ isConnected s' b = true
  | Failed e => activeCount s' = activeCount s /\ e = LaunchFailed
  | Pending _ => False
  end.
Proof.
  apply (acquire_ind timeout (fun s r =>
    activeCount s < maxSize s ->
    queue (fst r) = queue s /\ maxSize (fst r) = maxSize s /\
    match snd r with
    | Acquired b => activeCount (fst r) = activeCount s + 1 /\ isConnected (fst r) b = true
    | Failed e => activeCount (fst r) = activeCount s /\ e = LaunchFailed
    | Pending _ => False
    end)); clear s.
  - intros s b rest E C _. cbn. repeat split. exact C.
  - intros s b rest E C IH H.
    destruct IH as (Q & M & R); [cbn; lia|].
    split; [exact Q|]. split; [exact M|].
    destruct (snd (acquire timeout (discarded b rest s))); cbn in R |- *;
      try exact R; destruct R as [R1 R2]; (split; [lia | exact R2]).
  - intros s E H. unfold acquire_fresh.
    change (activeCount (incr_totalAcquired s)) with (activeCount s).
    change (maxSize (incr_totalAcquired s)) with (maxSize s).
    destruct (Z.ltb_spec (activeCount s) (maxSize s)) as [_|]; [|lia].
    set (s1 := set_activeCount (activeCount s + 1) (incr_totalAcquired s)).
    pose proof (createBrowser_frame s1) as F. cbn zeta in F.
    pose proof (createBrowser_pool s1) as P.
    destruct (createBrowser s1) as [s2 [b|e]] eqn:EC; cbn [fst snd] in *;
      destruct F as (F1 & _ & _ & F4 & _ & F6 & _); destruct P as [P1 P2].
    + cbn. split; [exact F1|]. split; [exact F6|]. split; [exact F4|].
      unfold isConnected. cbn. rewrite P2, lookup_insert_eq. reflexivity.
    + cbn. split; [exact F1|]. split; [exact F6|]. split; [rewrite F4; subst s1; cbn; lia|].
      unfold createBrowser in EC. destruct (launch s1) as [s3 [b|]]; congruence.
Qed.

Lemma release_returns b s :
  queue s = [] ->
  activeCount (release b s) = activeCount s - 1 /\
  queue (release b s) = [] /\ maxSize (release b s) = maxSize s.
Proof.
  intros Q. unfold release. cbn zeta.
  destruct (negb _).
  - destruct (_ <? _); cbn; repeat split; exact Q.
  - cbn [queue incr_totalReleased set_activeCount set_metrics]. rewrite Q.
    destruct (_ <? _); cbn; repeat split; exact Q.
Qed.

Lemma disconnect_lent b s : lent (disconnect b s) = lent s.
Proof. unfold disconnect. destruct (browsers s !! b) as [[| |]|]; reflexivity. Qed.

Section Scans.

Context {AxeResults ScanResult : Type}.
Variable isPrivateIP : string -> bool.
Variable formatScanResults : string -> AxeResults -> ScanResult.

Lemma attempt_returns_what_it_takes (page : @PageRun AxeResults) s :
  has_room s ->
  lent (fst (attempt page s)) = lent s /\
  (forall e, snd (attempt page s) = inr (PoolFailure e) -> e = LaunchFailed).
Proof.
  intros [Q H]. unfold attempt.
  destruct (acquire_with_room ACQUIRE_TIMEOUT s H) as (Q1 & M1 & R).
  cbn zeta in *.
  destruct (acquire ACQUIRE_TIMEOUT s) as [s1 [b|e|p]]; cbn [fst snd] in *;
    [|destruct R as [R ->]; split; [unfold lent; congruence | intros e' [= <-]; reflexivity]
     |contradiction].
  destruct R as [A1 _].
  set (s2 := if crashes page then disconnect b s1 else s1).
  assert (L2 : lent s2 = lent s1).
  { subst s2. destruct (crashes page); [apply disconnect_lent | reflexivity]. }
  unfold lent in L2. injection L2 as A2 Q2 M2.
  destruct (release_returns b s2) as (A3 & Q3 & M3); [congruence|].
  destruct (analysis page); cbn [fst snd];
    (split; [unfold lent; rewrite A3, Q3, M3, A2, M2, A1, M1, Q; f_equal; f_equal; lia
            | discriminate]).
Qed.

Lemma scanLoop_returns_what_it_takes (todo : nat) : forall retries url pages s waits,
  has_room s -> (retries + todo = MAX_RETRIES)%nat -> (0 < todo)%nat ->
  let r := scanLoop formatScanResults todo retries url pages s waits in
  lent (fst (fst r)) = lent s /\
  snd r <> ReturnedUndefined /\
  (forall n e, snd r = Threw (ScanFailed n (PoolFailure e)) -> e = LaunchFailed).
Proof.
  induction todo as [|todo IH]; intros retries url pages s waits Hr Hsum Hpos; [lia|].
  cbn zeta. cbn [scanLoop].
  destruct (attempt_returns_what_it_takes (pages retries) s Hr) as [L1 E1].
  destruct (attempt (pages retries) s) as [s1 [axe|cause]]; cbn [fst snd] in *.
  - split; [exact L1|]. split; discriminate.
  - destruct (Nat.leb_spec MAX_RETRIES (S retries)) as [Hle|Hlt]; cbn [fst snd].
    + split; [exact L1|]. split; [discriminate|].
      intros n e [= _ ->]. apply E1. reflexivity.
    + assert (Hr1 : has_room s1).
      { destruct Hr as [Q H]. unfold lent in L1. injection L1 as A1 Q1 M1.
        split; congruence. }
      destruct (IH (S retries) url pages s1 (waits ++ [1000 * Z.of_nat (S retries)]) Hr1)
        as (L2 & U2 & E2); [lia | lia |].
      cbn zeta in *. split; [congruence|]. split; [exact U2 | exact E2].
Qed.

(** X17.  A scan gives back what it takes.  Started on a pool with room
    (nobody waiting, [activeCount] below [maxSize]), [scanURL] ends with
    [activeCount] and the queue as it found them, whether it returns or
    throws; it never waits for a browser, so the only pool error it can
    report is a failed launch; it never returns without a result; and a
    refused URL leaves the pool untouched. *)
Theorem scanURL_returns_what_it_takes (url : string) pages (s : State) :
  has_room s ->
  let r := scanURL isPrivateIP formatScanResults url pages s in
  lent (fst (fst r)) = lent s /\
  snd r <> ReturnedUndefined /\
  (forall n e, snd r = Threw (ScanFailed n (PoolFailure e)) -> e = LaunchFailed) /\
  (isPrivateIP url = true -> r = (s, [], Threw PrivateURL)).
Proof.
  intros Hr. cbn zeta. unfold scanURL. destruct (isPrivateIP url).
  - cbn. split; [reflexivity|]. split; [discriminate|]. split; [discriminate|reflexivity].
  - destruct (scanLoop_returns_what_it_takes MAX_RETRIES 0 url pages s [] Hr)
      as (L & U & E); [reflexivity | unfold MAX_RETRIES; lia |].
    cbn zeta in *. split; [exact L|]. split; [exact U|]. split; [exact E | discriminate].
Qed.

(** X18.  [scanHTML] is one attempt of [scanURL] without the URL check
    and without retry: it acquires, scans and releases once, reports the
    result under the name "[HTML Content]" and throws the error of the
    attempt as it is.  On a pool with room it leaves [activeCount] and
    the queue as it found them. *)
Theorem scanHTML_is_one_attempt (page : @PageRun AxeResults) (s : State) :
  scanHTML formatScanResults page s =
  (fst (attempt page s),
   match snd (attempt page s) with
   | inl axeResults => inl (formatScanResults "[HTML Content]"%string axeResults)
   | inr cause => inr cause
   end) /\
  (has_room s -> lent (fst (scanHTML formatScanResults page s)) = lent s).
Proof.
  assert (E : scanHTML formatScanResults page s =
    (fst (attempt page s),
     match snd (attempt page s) with
     | inl axeResults => inl (formatScanResults "[HTML Content]"%string axeResults)
     | inr cause => inr cause
     end)).
  { unfold scanHTML, attempt.
    destruct (acquire ACQUIRE_TIMEOUT s) as [s1 [b|e|p]]; try reflexivity.
    destruct (analysis page); reflexivity. }
  split; [exact E|]. intros Hr. rewrite E. cbn [fst].
  apply attempt_returns_what_it_takes. exact Hr.
Qed.

End Scans.

Lemma scanURL_returns_what_it_takes_witness :
  let r := scanURL public report "https://example.org" never_loads warm in
  lent (fst (fst r)) = lent warm /\ snd r <> ReturnedUndefined.
Proof.
  cbn zeta.
  destruct (scanURL_returns_what_it_takes public report "https://example.org"
              never_loads warm) as (L & U & _).
  - split; [reflexivity | vm_compute; reflexivity].
  - split; [exact L | exact U].
Defined.

End ScanHTMLFacts.

(** ** The URL check of the scanner *)

Module RegexFacts.

Import Stdlib.Strings.Ascii.
Import JsString Regex PrivateURL.
Local Open Scope string_scope.

(** [r] can match at the start of [s] and leave [rest]. *)
Local Abbreviation leaves r s rest := (List.In rest (run r s)).

Lemma append_cons (a : ascii) (p rest : string) :
  String a p ++ rest = String a (p ++ rest).
Proof. reflexivity. Qed.

Lemma strip_app p rest : strip p (p ++ rest) = Some rest.
Proof.
  induction p as [|a p IH]; [destruct rest; reflexivity|].
  rewrite append_cons. cbn. rewrite Ascii.eqb_refl. exact IH.
Qed.

Lemma strip_Some p : forall s rest, strip p s = Some rest -> s = p ++ rest.
Proof.
  induction p as [|a p IH]; intros s rest H; cbn in *.
  - injection H as ->. reflexivity.
  - destruct s as [|b s]; [discriminate|].
    destruct (Ascii.eqb_spec a b) as [->|]; [|discriminate].
    rewrite append_cons, (IH s rest H). reflexivity.
Qed.

Lemma leaves_lit p rest : leaves (Lit p) (p ++ rest) rest.
Proof. cbn. rewrite strip_app. left. reflexivity. Qed.

Lemma leaves_lit_inv p s rest : leaves (Lit p) s rest -> s = p ++ rest.
Proof.
  cbn. destruct (strip p s) as [r|] eqn:E; [|intros []].
  intros [<-|[]]. apply strip_Some. exact E.
Qed.

Lemma leaves_seq r1 r2 s mid rest :
  leaves r1 s mid -> leaves r2 mid rest -> leaves (Seq r1 r2) s rest.
Proof. intros H1 H2. cbn. apply List.in_flat_map. exists mid. split; assumption. Qed.

Lemma leaves_seq_inv r1 r2 s rest :
  leaves (Seq r1 r2) s rest -> exists mid, leaves r1 s mid /\ leaves r2 mid rest.
Proof. cbn. intros H. apply List.in_flat_map in H. exact H. Qed.

Lemma leaves_alt r1 r2 s rest :
  leaves (Alt r1 r2) s rest <-> leaves r1 s rest \/ leaves r2 s rest.
Proof. cbn. apply List.in_app_iff. Qed.

Lemma leaves_opt r s rest :
  leaves (Opt r) s rest <-> leaves r s rest \/ rest = s.
Proof.
  cbn. rewrite List.in_app_iff. cbn. intuition congruence.
Qed.

Lemma leaves_digits d rest : number d -> leaves Digits (d ++ rest) rest.
Proof.
  intros [Hne Hd]. cbn [run]. induction d as [|c d IH]; [contradiction|].
  rewrite append_cons. cbn in Hd |- *.
  apply andb_true_iff in Hd as [Hc Hd]. rewrite Hc.
  destruct d as [|c' d'].
  - left. reflexivity.
  - right. apply IH; [discriminate | exact Hd].
Qed.

Lemma test_start_true r s : test_start r s = true <-> exists rest, leaves r s rest.
Proof.
  unfold test_start. destruct (run r s) as [|x l]; split.
  - discriminate.
  - intros [rest []].
  - intros _. exists x. left. reflexivity.
  - reflexivity.
Qed.

End RegexFacts.

Module PrivateURLFacts.

Import Stdlib.Strings.Ascii.
Import JsString Regex PrivateURL RegexFacts.
Local Open Scope string_scope.

Local Abbreviation leaves r s rest := (List.In rest (run r s)).

Lemma leaves_scheme (secure : bool) rest :
  leaves scheme ((if secure then "https://" else "http://") ++ rest) rest.
Proof.
  unfold scheme, seq. destruct secure.
  - apply (leaves_seq _ _ _ ("s://" ++ rest)); [apply (leaves_lit "http")|].
    apply (leaves_seq _ _ _ ("://" ++ rest)); [|apply (leaves_lit "://")].
    apply leaves_opt. left. apply (leaves_lit "s").
  - apply (leaves_seq _ _ _ ("://" ++ rest)); [apply (leaves_lit "http")|].
    apply (leaves_seq _ _ _ ("://" ++ rest)); [|apply (leaves_lit "://")].
    apply leaves_opt. right. reflexivity.
Qed.

Lemma leaves_scheme_inv s rest :
  leaves scheme s rest -> exists secure : bool,
    s = (if secure then "https://" else "http://") ++ rest.
Proof.
  unfold scheme, seq. intros H.
  apply leaves_seq_inv in H as (m1 & H1 & H).
  apply leaves_seq_inv in H as (m2 & H2 & H3).
  apply leaves_lit_inv in H1. apply leaves_lit_inv in H3.
  apply leaves_opt in H2 as [H2|H2].
  - apply leaves_lit_inv in H2. exists true. rewrite H1, H2, H3. reflexivity.
  - exists false. rewrite H1, <- H2, H3. reflexivity.
Qed.

Lemma isPrivateIP_true url :
  isPrivateIP url = true <->
  exists regex rest, List.In regex privateRanges /\ leaves regex url rest.
Proof.
  unfold isPrivateIP. rewrite List.existsb_exists. split.
  - intros (regex & Hin & Ht). apply test_start_true in Ht as [rest Hr].
    exists regex, rest. split; assumption.
  - intros (regex & rest & Hin & Hr). exists regex. split; [exact Hin|].
    apply test_start_true. exists rest. exact Hr.
Qed.

Lemma leaves_dotted (a b : string) rest :
  number a -> number b ->
  leaves (seq [Digits; Lit "."; Digits]) (a ++ "." ++ b ++ rest) rest.
Proof.
  intros Ha Hb. cbn [seq].
  apply (leaves_seq _ _ _ ("." ++ b ++ rest)); [apply leaves_digits; exact Ha|].
  apply (leaves_seq _ _ _ (b ++ rest)); [apply (leaves_lit ".")|].
  apply leaves_digits. exact Hb.
Qed.

Lemma leaves_172 (a : string) rest :
  in_172 a ->
  leaves (Alt (Seq (Lit "1") (Range "6" "9"))
              (Alt (Seq (Lit "2") Digit) (Seq (Lit "3") (Range "0" "1"))))
         (a ++ rest) rest.
Proof.
  intros (n & Hn & ->).
  assert (E : (n = 16 \/ n = 17 \/ n = 18 \/ n = 19 \/ n = 20 \/ n = 21 \/ n = 22 \/
              n = 23 \/ n = 24 \/ n = 25 \/ n = 26 \/ n = 27 \/ n = 28 \/ n = 29 \/
              n = 30 \/ n = 31)%nat) by lia.
  repeat (destruct E as [-> | E]; [vm_compute; tauto|]). subst n. vm_compute. tauto.
Qed.

(** X19.  The URL check of the scanner refuses, for both schemes and
    whatever follows the address: localhost, the addresses 127.a.b.c and
    10.a.b.c, 172.n.a.b for n from 16 to 31, 192.168.a.b, and every
    file URL. *)
Theorem isPrivateIP_refuses_private_addresses (secure : bool) (a b c rest : string) :
  number a -> number b -> number c ->
  let scheme := if secure then "https://" else "http://" in
  isPrivateIP (scheme ++ "localhost" ++ rest) = true /\
  isPrivateIP (scheme ++ "127." ++ a ++ "." ++ b ++ "." ++ c ++ rest) = true /\
  isPrivateIP (scheme ++ "10." ++ a ++ "." ++ b ++ "." ++ c ++ rest) = true /\
  (forall n, in_172 n ->
     isPrivateIP (scheme ++ "172." ++ n ++ "." ++ a ++ "." ++ b ++ rest) = true) /\
  isPrivateIP (scheme ++ "192.168." ++ a ++ "." ++ b ++ rest) = true /\
  isPrivateIP ("file://" ++ rest) = true.
Proof.
  intros Ha Hb Hc. cbn zeta.
  assert (D3 : forall rest, leaves (seq [Digits; Lit "."; Digits; Lit "."; Digits])
                 (a ++ "." ++ b ++ "." ++ c ++ rest) rest).
  { intros r. cbn [seq].
    apply (leaves_seq _ _ _ ("." ++ b ++ "." ++ c ++ r)); [apply leaves_digits; exact Ha|].
    apply (leaves_seq _ _ _ (b ++ "." ++ c ++ r)); [apply (leaves_lit ".")|].
    apply (leaves_dotted b c r Hb Hc). }
  split; [|split; [|split; [|split; [|split]]]].
  - apply isPrivateIP_true. eexists _, rest. split; [left; reflexivity|].
    eapply leaves_seq; [apply leaves_scheme|].
    apply leaves_alt. left. apply (leaves_lit "localhost").
  - apply isPrivateIP_true. eexists _, rest. split; [left; reflexivity|].
    eapply leaves_seq; [apply leaves_scheme|].
    apply leaves_alt. right.
    apply (leaves_seq _ _ _ (a ++ "." ++ b ++ "." ++ c ++ rest));
      [apply (leaves_lit "127.") | apply D3].
  - apply isPrivateIP_true. eexists _, rest. split; [right; left; reflexivity|].
    eapply leaves_seq; [apply leaves_scheme|].
    apply (leaves_seq _ _ _ (a ++ "." ++ b ++ "." ++ c ++ rest));
      [apply (leaves_lit "10.") | apply D3].
  - intros n Hn.
    apply isPrivateIP_true. eexists _, rest. split; [right; right; left; reflexivity|].
    eapply leaves_seq; [apply leaves_scheme|].
    apply (leaves_seq _ _ _ (n ++ "." ++ a ++ "." ++ b ++ rest));
      [apply (leaves_lit "172.")|].
    apply (leaves_seq _ _ _ ("." ++ a ++ "." ++ b ++ rest));
      [apply leaves_172; exact Hn|].
    apply (leaves_seq _ _ _ (a ++ "." ++ b ++ rest)); [apply (leaves_lit ".")|].
    apply (leaves_dotted a b rest Ha Hb).
  - apply isPrivateIP_true. eexists _, rest.
    split; [right; right; right; left; reflexivity|].
    eapply leaves_seq; [apply leaves_scheme|].
    apply (leaves_seq _ _ _ (a ++ "." ++ b ++ rest)); [apply (leaves_lit "192.168.")|].
    apply (leaves_dotted a b rest Ha Hb).
  - apply isPrivateIP_true. eexists _, rest.
    split; [right; right; right; right; left; reflexivity|].
    apply (leaves_lit "file://").
Qed.

Lemma isPrivateIP_beginning (url : string) :
  isPrivateIP url = true ->
  existsb (startsWith url) refused_beginnings = true.
Proof.
  intros H. apply isPrivateIP_true in H as (regex & rest & Hin & Hr).
  unfold privateRanges in Hin. cbn [List.In seq] in Hin.
  destruct Hin as [<-|[<-|[<-|[<-|[<-|[]]]]]].
  - apply leaves_seq_inv in Hr as (m & Hs & Hr).
    apply leaves_scheme_inv in Hs as [secure ->].
    apply leaves_alt in Hr as [Hr|Hr].
    + apply leaves_lit_inv in Hr. subst m. destruct secure; reflexivity.
    + apply leaves_seq_inv in Hr as (m1 & Hr & _).
      apply leaves_lit_inv in Hr. subst m. destruct secure; reflexivity.
  - apply leaves_seq_inv in Hr as (m & Hs & Hr).
    apply leaves_scheme_inv in Hs as [secure ->].
    apply leaves_seq_inv in Hr as (m1 & Hr & _).
    apply leaves_lit_inv in Hr. subst m. destruct secure; reflexivity.
  - apply leaves_seq_inv in Hr as (m & Hs & Hr).
    apply leaves_scheme_inv in Hs as [secure ->].
    apply leaves_seq_inv in Hr as (m1 & Hr & _).
    apply leaves_lit_inv in Hr. subst m. destruct secure; reflexivity.
  - apply leaves_seq_inv in Hr as (m & Hs & Hr).
    apply leaves_scheme_inv in Hs as [secure ->].
    apply leaves_seq_inv in Hr as (m1 & Hr & _).
    apply leaves_lit_inv in Hr. subst m. destruct secure; reflexivity.
  - apply leaves_lit_inv in Hr. subst url. reflexivity.
Qed.

Lemma isPrivateIP_refuses_private_addresses_witness :
  isPrivateIP "http://localhost:8080/admin" = true /\
  isPrivateIP "http://127.0.0.1:8080/admin" = true /\
  isPrivateIP "http://10.0.0.1:8080/admin" = true /\
  isPrivateIP "http://172.31.0.0:8080/admin" = true /\
  isPrivateIP "http://192.168.0.0:8080/admin" = true /\
  isPrivateIP "file://:8080/admin" = true.
Proof.
  assert (N : forall d, all_digits d = true -> d <> "" -> number d)
    by (intros d H1 H2; split; assumption).
  destruct (isPrivateIP_refuses_private_addresses false "0" "0" "1" ":8080/admin")
    as (H1 & H2 & H3 & H4 & H5 & H6); try (apply N; [reflexivity | discriminate]).
  split; [exact H1|]. split; [exact H2|]. split; [exact H3|].
  split; [|split; [exact H5 | exact H6]].
  apply (H4 "31"). exists 31%nat. split; [lia | reflexivity].
Defined.

(** X20.  The URL check of the scanner looks at the beginning of the
    URL only, and to the letter: a URL that begins with none of eleven
    literal strings passes.  So pass the link-local addresses, the IPv6
    loopback and a URL written in capitals. *)
Theorem isPrivateIP_passes_other_beginnings (url : string) :
  existsb (startsWith url) refused_beginnings = false ->
  isPrivateIP url = false.
Proof.
  intros H. destruct (isPrivateIP url) eqn:E; [|reflexivity].
  apply isPrivateIP_beginning in E. congruence.
Qed.

Lemma isPrivateIP_passes_other_beginnings_witness :
  isPrivateIP "http://169.254.169.254/latest/meta-data/" = false /\
  isPrivateIP "http://[::1]:8080/" = false /\
  isPrivateIP "HTTP://LOCALHOST/" = false.
Proof.
  split; [|split].
  - exact (isPrivateIP_passes_other_beginnings
             "http://169.254.169.254/latest/meta-data/" eq_refl).
  - exact (isPrivateIP_passes_other_beginnings "http://[::1]:8080/" eq_refl).
  - exact (isPrivateIP_passes_other_beginnings "HTTP://LOCALHOST/" eq_refl).
Defined.

End PrivateURLFacts.

(** ** The SSRF check of the server *)

Module SSRFFacts.

Import Stdlib.Strings.Ascii.
Import JsString Regex SSRF.
Local Open Scope Z_scope.

Lemma land_disjoint (k y n : Z) :
  0 <= n -> 0 <= y < 2 ^ n -> Z.land (k * 2 ^ n) y = 0.
Proof.
  intros Hn Hy. apply Z.bits_inj'. intros i Hi.
  rewrite Z.land_spec, Z.bits_0.
  destruct (Z.lt_ge_cases i n) as [Hlt|Hge].
  - rewrite Z.mul_pow2_bits_low by lia. reflexivity.
  - destruct (Z.eq_dec y 0) as [->|Hy0].
    + rewrite Z.bits_0. apply andb_false_r.
    + assert (L : Z.log2 y < n) by (apply Z.log2_lt_pow2; lia).
      rewrite (Z.bits_above_log2 y i); [apply andb_false_r | lia | lia].
Qed.

Lemma lor_disjoint (k y n : Z) :
  0 <= n -> 0 <= y < 2 ^ n -> Z.lor (k * 2 ^ n) y = k * 2 ^ n + y.
Proof.
  intros Hn Hy. pose proof (Z.add_lor_land (k * 2 ^ n) y) as H.
  rewrite (land_disjoint k y n Hn Hy) in H. lia.
Qed.
Section Addresses.

Variable Number : string -> option Z.

Local Abbreviation ipToInt := (ipToInt Number).
Local Abbreviation isPrivateIPv4 := (isPrivateIPv4 Number).

Lemma ipToInt_octets (ip : string) (a b c d : Z) :
  map Number (split "." ip) = [Some a; Some b; Some c; Some d] ->
  0 <= a < 256 -> 0 <= b < 256 -> 0 <= c < 256 -> 0 <= d < 256 ->
  ipToInt ip = a * 2 ^ 24 + b * 2 ^ 16 + c * 2 ^ 8 + d.
Proof.
  intros E Ha Hb Hc Hd. unfold SSRF.ipToInt. cbn zeta. rewrite E. cbn [lookup list_lookup operand].
  assert (P32 : 2 ^ 32 = 4294967296) by reflexivity.
  assert (P31 : 2 ^ 31 = 2147483648) by reflexivity.
  assert (P24 : 2 ^ 24 = 16777216) by reflexivity.
  assert (P16 : 2 ^ 16 = 65536) by reflexivity.
  assert (P8 : 2 ^ 8 = 256) by reflexivity.
  assert (I : forall z, 0 <= z < 256 -> toInt32 z = z).
  { intros z Hz. unfold toInt32. rewrite Z.mod_small; lia. }
  rewrite (I a Ha), (I b Hb), (I c Hc), (I d Hd).
  unfold shl.
  assert (S1 : toInt32 (b * 2 ^ 16) = b * 2 ^ 16).
  { unfold toInt32. rewrite Z.mod_small; lia. }
  assert (S2 : toInt32 (c * 2 ^ 8) = c * 2 ^ 8).
  { unfold toInt32. rewrite Z.mod_small; lia. }
  assert (S0 : exists k, toInt32 (a * 2 ^ 24) = k * 2 ^ 32 + a * 2 ^ 24 /\ (k = 0 \/ k = -1)).
  { unfold toInt32. destruct (Z.lt_ge_cases a 128).
    - exists 0. rewrite Z.mod_small; lia.
    - exists (-1). split; [|right; reflexivity].
      replace (a * 2 ^ 24 + 2 ^ 31) with ((a * 2 ^ 24 - 2 ^ 31) + 1 * 2 ^ 32) by lia.
      rewrite Z.mod_add by lia. rewrite Z.mod_small; lia. }
  destruct S0 as (k & S0 & Hk). rewrite S0, S1, S2.
  replace (k * 2 ^ 32 + a * 2 ^ 24) with ((k * 2 ^ 8 + a) * 2 ^ 24) by lia.
  rewrite (lor_disjoint _ (b * 2 ^ 16) 24) by lia.
  replace ((k * 2 ^ 8 + a) * 2 ^ 24 + b * 2 ^ 16)
    with (((k * 2 ^ 8 + a) * 2 ^ 8 + b) * 2 ^ 16) by lia.
  rewrite (lor_disjoint _ (c * 2 ^ 8) 16) by lia.
  replace (((k * 2 ^ 8 + a) * 2 ^ 8 + b) * 2 ^ 16 + c * 2 ^ 8)
    with ((((k * 2 ^ 8 + a) * 2 ^ 8 + b) * 2 ^ 8 + c) * 2 ^ 8) by lia.
  rewrite (lor_disjoint _ d 8) by lia.
  unfold toUint32.
  replace ((((k * 2 ^ 8 + a) * 2 ^ 8 + b) * 2 ^ 8 + c) * 2 ^ 8 + d)
    with ((a * 2 ^ 24 + b * 2 ^ 16 + c * 2 ^ 8 + d) + k * 2 ^ 32) by lia.
  rewrite Z.mod_add by lia. apply Z.mod_small. lia.
Qed.

Hypothesis Number_decimals : reads_decimals Number.

Lemma ipToInt_dotted (ip sa sb sc sd : string) :
  split "." ip = [sa; sb; sc; sd] ->
  octet_ok sa && octet_ok sb && octet_ok sc && octet_ok sd = true ->
  ipToInt ip = decimal sa * 2 ^ 24 + decimal sb * 2 ^ 16 + decimal sc * 2 ^ 8 + decimal sd
  /\ 0 <= decimal sa < 256 /\ 0 <= decimal sb < 256
  /\ 0 <= decimal sc < 256 /\ 0 <= decimal sd < 256.
Proof.
  intros E H.
  assert (O : forall s, octet_ok s = true ->
                        Number s = Some (decimal s) /\ 0 <= decimal s < 256).
  { intros s Hs. unfold octet_ok in Hs.
    apply andb_true_iff in Hs as [Hs H4]. apply andb_true_iff in Hs as [Hs H3].
    apply andb_true_iff in Hs as [H1 H2].
    apply negb_true_iff in H1. apply String.eqb_neq in H1.
    apply Nat.leb_le in H3. apply Z.ltb_lt in H4.
    split; [apply Number_decimals; assumption|].
    split; [|exact H4].
    assert (G : forall s acc, 0 <= acc -> 0 <= decimal_from acc s).
    { clear. induction s as [|c s IH]; intros acc Hacc; cbn; [exact Hacc|].
      apply IH. lia. }
    apply G. lia. }
  apply andb_true_iff in H as [H Hd]. apply andb_true_iff in H as [H Hc].
  apply andb_true_iff in H as [Ha Hb].
  destruct (O sa Ha) as [Na Ra]. destruct (O sb Hb) as [Nb Rb].
  destruct (O sc Hc) as [Nc Rc]. destruct (O sd Hd) as [Nd Rd].
  split; [|repeat split; lia].
  apply ipToInt_octets; try lia.
  rewrite E. cbn [map]. rewrite Na, Nb, Nc, Nd. reflexivity.
Qed.

(** X22.  For an address in dotted decimal notation, four numbers
    below 256, [ipToInt] is the 32-bit number a.b.c.d stands for (also
    when [a << 24] is negative as a 32-bit integer), and [isPrivateIPv4]
    holds exactly for 10.x.x.x, 172.16-31.x.x, 192.168.x.x, 127.x.x.x,
    169.254.x.x and 0.x.x.x. *)
Theorem isPrivateIPv4_tells_private_ranges (ip sa sb sc sd : string) :
  split "." ip = [sa; sb; sc; sd] ->
  octet_ok sa && octet_ok sb && octet_ok sc && octet_ok sd = true ->
  ipToInt ip = decimal sa * 2 ^ 24 + decimal sb * 2 ^ 16 + decimal sc * 2 ^ 8 + decimal sd /\
  isPrivateIPv4 ip = private_quad (decimal sa) (decimal sb) (decimal sc) (decimal sd).
Proof.
  intros E H. destruct (ipToInt_dotted ip sa sb sc sd E H) as (V & Ra & Rb & Rc & Rd).
  split; [exact V|].
  unfold SSRF.isPrivateIPv4. cbn zeta. rewrite V.
  unfold PRIVATE_IP_RANGES. cbn [existsb fst snd].
  assert (B : forall ip' (a b c d : string),
             split "." ip' = [a; b; c; d] ->
             octet_ok a && octet_ok b && octet_ok c && octet_ok d = true ->
             ipToInt ip' = decimal a * 2 ^ 24 + decimal b * 2 ^ 16 + decimal c * 2 ^ 8 + decimal d).
  { intros ip' a b c d E' H'. apply (ipToInt_dotted ip' a b c d E' H'). }
  rewrite (B "10.0.0.0" "10" "0" "0" "0")%string by reflexivity.
  rewrite (B "10.255.255.255" "10" "255" "255" "255")%string by reflexivity.
  rewrite (B "172.16.0.0" "172" "16" "0" "0")%string by reflexivity.
  rewrite (B "172.31.255.255" "172" "31" "255" "255")%string by reflexivity.
  rewrite (B "192.168.0.0" "192" "168" "0" "0")%string by reflexivity.
  rewrite (B "192.168.255.255" "192" "168" "255" "255")%string by reflexivity.
  rewrite (B "127.0.0.0" "127" "0" "0" "0")%string by reflexivity.
  rewrite (B "127.255.255.255" "127" "255" "255" "255")%string by reflexivity.
  rewrite (B "169.254.0.0" "169" "254" "0" "0")%string by reflexivity.
  rewrite (B "169.254.255.255" "169" "254" "255" "255")%string by reflexivity.
  rewrite (B "0.0.0.0" "0" "0" "0" "0")%string by reflexivity.
  rewrite (B "0.255.255.255" "0" "255" "255" "255")%string by reflexivity.
  change (decimal "10") with 10. change (decimal "0") with 0.
  change (decimal "255") with 255. change (decimal "172") with 172.
  change (decimal "16") with 16. change (decimal "31") with 31.
  change (decimal "192") with 192. change (decimal "168") with 168.
  change (decimal "127") with 127. change (decimal "169") with 169.
  change (decimal "254") with 254.
  set (a := decimal sa) in *. set (b := decimal sb) in *.
  set (c := decimal sc) in *. set (d := decimal sd) in *.
  change (2 ^ 24) with 16777216. change (2 ^ 16) with 65536. change (2 ^ 8) with 256.
  unfold private_quad.
  apply Bool.eq_iff_eq_true.
  rewrite orb_false_r.
  repeat first [rewrite orb_true_iff | rewrite andb_true_iff
               | rewrite Z.leb_le | rewrite Z.eqb_eq].
  lia.
Qed.

End Addresses.

Lemma Number_of_digits_reads_decimals : reads_decimals Number_of_digits.
Proof. intros s _ H _. unfold Number_of_digits. rewrite H. reflexivity. Qed.

Lemma isPrivateIPv4_tells_private_ranges_witness :
  ipToInt Number_of_digits "172.20.1.9" = 2886992137 /\
  isPrivateIPv4 Number_of_digits "172.20.1.9" = true.
Proof.
  exact (isPrivateIPv4_tells_private_ranges Number_of_digits
           Number_of_digits_reads_decimals
           "172.20.1.9" "172" "20" "1" "9" eq_refl eq_refl).
Defined.

(** *** Host names *)

Local Open Scope string_scope.

Lemma toLowerCase_app (s t : string) :
  toLowerCase (s ++ t) = toLowerCase s ++ toLowerCase t.
Proof.
  induction s as [|c s IH]; [reflexivity|].
  change (String c s ++ t) with (String c (s ++ t)). cbn [toLowerCase].
  rewrite IH. reflexivity.
Qed.

Lemma endsWith_refl (s : string) : endsWith s s = true.
Proof. destruct s; cbn [endsWith]; rewrite String.eqb_refl; reflexivity. Qed.

Lemma endsWith_app (p s t : string) :
  endsWith s t = true -> endsWith (p ++ s) t = true.
Proof.
  intros H. induction p as [|c p IH]; [exact H|].
  change (String c p ++ s) with (String c (p ++ s)). cbn [endsWith].
  rewrite IH. apply orb_true_r.
Qed.

(** X23.  A blocked host name is blocked in any letter case and with
    every name under it. *)
Theorem isBlockedHost_covers_subdomains (hostname other sub : string) :
  isBlockedHost hostname = true ->
  toLowerCase other = toLowerCase hostname ->
  isBlockedHost other = true /\ isBlockedHost (sub ++ "." ++ other) = true.
Proof.
  intros H E. unfold isBlockedHost in *. cbn zeta in *.
  rewrite E. split; [exact H|].
  rewrite toLowerCase_app, toLowerCase_app, E.
  change (toLowerCase ".") with ".".
  apply List.existsb_exists in H as (blocked & Hin & Hb).
  apply List.existsb_exists. exists blocked. split; [exact Hin|].
  apply orb_true_iff. right.
  apply endsWith_app.
  apply orb_true_iff in Hb as [Hb|Hb].
  - apply String.eqb_eq in Hb. rewrite Hb. apply endsWith_refl.
  - apply (endsWith_app "." _ _ Hb).
Qed.

Lemma isBlockedHost_covers_subdomains_witness :
  isBlockedHost "Metadata.Google.Internal" = true /\
  isBlockedHost ("foo" ++ "." ++ "Metadata.Google.Internal") = true.
Proof.
  exact (isBlockedHost_covers_subdomains "metadata.google.internal"
           "Metadata.Google.Internal" "foo" eq_refl eq_refl).
Defined.

Lemma last_char_lower (s : string) :
  last_char (toLowerCase s) = option_map lower (last_char s).
Proof.
  induction s as [|c s IH]; [reflexivity|].
  cbn [toLowerCase]. destruct s as [|d s]; [reflexivity|].
  cbn [toLowerCase] in *. cbn [last_char] in *. exact IH.
Qed.

Lemma endsWith_last (s t : string) :
  endsWith s t = true -> t <> "" -> last_char s = last_char t.
Proof.
  intros H Ht. induction s as [|c s IH]; cbn [endsWith] in H.
  - rewrite orb_false_r in H. apply String.eqb_eq in H. congruence.
  - apply orb_true_iff in H as [H|H].
    + apply String.eqb_eq in H. congruence.
    + specialize (IH H). destruct s as [|d s].
      * cbn [endsWith] in H. rewrite orb_false_r in H.
        apply String.eqb_eq in H. congruence.
      * cbn [last_char] in *. exact IH.
Qed.

Lemma bracketed_not_blocked (hostname : string) :
  startsWith hostname "[" = true -> last_char hostname = Some "]"%char ->
  isBlockedHost hostname = false.
Proof.
  intros Hs Hl. unfold isBlockedHost. cbn zeta.
  assert (Ls : startsWith (toLowerCase hostname) "[" = true).
  { destruct hostname as [|c s]; [discriminate|].
    cbn [startsWith] in Hs. rewrite andb_true_r in Hs. apply Ascii.eqb_eq in Hs. subst c.
    reflexivity. }
  assert (Ll : last_char (toLowerCase hostname) = Some "]"%char).
  { rewrite last_char_lower, Hl. reflexivity. }
  generalize dependent (toLowerCase hostname). intros lh Ls Ll.
  apply not_true_is_false. intros H.
  apply List.existsb_exists in H as (blocked & Hin & Hb).
  apply orb_true_iff in Hb as [Hb|Hb].
  - apply String.eqb_eq in Hb. subst lh.
    unfold BLOCKED_HOSTS in Hin. cbn [List.In] in Hin.
    repeat (destruct Hin as [<-|Hin]; [discriminate|]). exact Hin.
  - apply endsWith_last in Hb; [|discriminate].
    rewrite Ll in Hb.
    unfold BLOCKED_HOSTS in Hin. cbn [List.In] in Hin.
    repeat (destruct Hin as [<-|Hin]; [discriminate|]). exact Hin.
Qed.

(** *** [validateURL] *)

Lemma filter_nil_Forall {A} (f : A -> bool) (l : list A) :
  (0 <? length (List.filter f l))%nat = false <-> Forall (fun x => f x = false) l.
Proof.
  induction l as [|x l IH]; cbn [List.filter].
  - split; [constructor | reflexivity].
  - destruct (f x) eqn:E; cbn [length].
    + split; [discriminate|]. intros H. apply Forall_cons in H as [H _]. congruence.
    + rewrite IH. split; [intros H; constructor; assumption|].
      intros H. apply Forall_cons in H as [_ H]. exact H.
Qed.
Section Surroundings.

Variable Number : string -> option Z.
Variable parse : string -> string + string * string.
Variable resolve4 resolve6 : string -> option (list string).

Local Abbreviation validateURL := (validateURL Number parse resolve4 resolve6).
Local Abbreviation check_addresses := (check_addresses Number resolve4 resolve6).
Local Abbreviation addresses_of := (addresses_of resolve4 resolve6).
Local Abbreviation allowed := (allowed Number parse resolve4 resolve6).

Lemma check_addresses_rethrown hostname message :
  check_addresses hostname = Some message ->
  includes message "Scanning not allowed" || includes message "Could not resolve" = true.
Proof.
  unfold SSRF.check_addresses. cbn zeta.
  destruct (_ =? _)%nat; [intros [= <-]; apply orb_true_iff; right; reflexivity|].
  destruct (_ <? _)%nat; [intros [= <-]; reflexivity | discriminate].
Qed.

Lemma check_addresses_None hostname :
  check_addresses hostname = None <->
  addresses_of hostname <> [] /\
  Forall (fun ip => isPrivateIP Number ip = false) (addresses_of hostname).
Proof.
  unfold SSRF.check_addresses. cbn zeta.
  destruct (addresses_of hostname) as [|ip l] eqn:E.
  - cbn. split; [discriminate | intros [H _]; congruence].
  - cbn [length Nat.eqb].
    destruct (0 <? length (List.filter (isPrivateIP Number) (ip :: l)))%nat eqn:F.
    + split; [discriminate|]. intros [_ H]. apply filter_nil_Forall in H. congruence.
    + apply filter_nil_Forall in F. split; [|reflexivity]. intros _. split; [discriminate|exact F].
Qed.

(** X24.  [validateURL] never fails open.  It lets a URL through
    exactly when the URL parses, the protocol is http or https, the host
    is not blocked and, for an address, [isPrivateIP] does not hold; for
    a name, at least one address is found and none is private.  A name
    no lookup resolves is refused: the branch that would allow the
    request after a failed lookup is never taken. *)
Theorem validateURL_never_fails_open (inputUrl : string) :
  validateURL inputUrl = Allowed <-> allowed inputUrl.
Proof.
  unfold SSRF.validateURL, SSRF.allowed.
  destruct (parse inputUrl) as [message|[protocol hostname]].
  - split; [discriminate|]. intros (p & h & E & _). discriminate.
  - cbn zeta.
    assert (P : existsb (String.eqb protocol) ["http:"; "https:"]%string = true <->
                (protocol = "http:" \/ protocol = "https:")%string).
    { cbn. rewrite orb_false_r, orb_true_iff, !String.eqb_eq. reflexivity. }
    destruct (existsb (String.eqb protocol) ["http:"; "https:"]%string); cbn [negb].
    2: { split; [discriminate|]. intros (p & h & [= <- <-] & Hp & _).
         apply P in Hp. discriminate. }
    destruct (isBlockedHost hostname) eqn:B.
    { split; [discriminate|]. intros (p & h & [= <- <-] & _ & Hb & _). congruence. }
    destruct (test_whole dotted_quad hostname || includes hostname ":") eqn:L.
    + destruct (isPrivateIP Number hostname) eqn:V.
      * split; [discriminate|]. intros (p & h & [= <- <-] & _ & _ & H).
        rewrite L in H. congruence.
      * split; [|reflexivity]. intros _. exists protocol, hostname.
        split; [reflexivity|]. split; [apply P; reflexivity|]. split; [exact B|].
        rewrite L. exact V.
    + destruct (check_addresses hostname) as [message|] eqn:C.
      * rewrite (check_addresses_rethrown hostname message C).
        split; [discriminate|]. intros (p & h & [= <- <-] & _ & _ & H).
        rewrite L in H. apply check_addresses_None in H. congruence.
      * split; [|reflexivity]. intros _. exists protocol, hostname.
        split; [reflexivity|]. split; [apply P; reflexivity|]. split; [exact B|].
        rewrite L. apply check_addresses_None. exact C.
Qed.

(** X25.  A host written in brackets and containing a colon, the form
    in which a parsed URL gives an IPv6 address, is never private for
    [isPrivateIP] (the prefixes are compared with the bracket) and
    [validateURL] lets the URL through. *)
Theorem validateURL_allows_bracketed_addresses (inputUrl protocol hostname : string) :
  parse inputUrl = inr (protocol, hostname) ->
  protocol = "http:" \/ protocol = "https:" ->
  startsWith hostname "[" = true -> last_char hostname = Some "]"%char ->
  includes hostname ":" = true ->
  isPrivateIP Number hostname = false /\ validateURL inputUrl = Allowed.
Proof.
  intros Hp Hproto Hs Hl Hc.
  assert (V : isPrivateIP Number hostname = false).
  { unfold isPrivateIP. rewrite Hc. unfold isPrivateIPv6.
    destruct hostname as [|c s]; [discriminate|].
    cbn [startsWith] in Hs. rewrite andb_true_r in Hs. apply Ascii.eqb_eq in Hs. subst c.
    reflexivity. }
  split; [exact V|].
  unfold SSRF.validateURL. rewrite Hp.
  assert (P : existsb (String.eqb protocol) ["http:"; "https:"] = true).
  { destruct Hproto as [-> | ->]; reflexivity. }
  rewrite P. cbn [negb].
  rewrite (bracketed_not_blocked hostname Hs Hl). cbn zeta.
  rewrite Hc, orb_true_r, V. reflexivity.
Qed.

End Surroundings.

Lemma validateURL_allows_bracketed_addresses_witness :
  validateURL Number_of_digits parse_loopback no_dns no_dns "http://[::1]/" = Allowed.
Proof.
  exact (proj2 (validateURL_allows_bracketed_addresses Number_of_digits parse_loopback
                  no_dns no_dns "http://[::1]/" "http:" "[::1]"
                  eq_refl (or_introl eq_refl) eq_refl eq_refl eq_refl)).
Defined.

End SSRFFacts.

(** ** Bulk scans *)

Module BulkScanMoreFacts.

Import BulkScan.
Local Open Scope Z_scope.

Section Bulk.
Context {ScanResult : Type}.
Variable scanURL : string -> Settled ScanResult.

Lemma waves_never_end (fuel : nat) : forall i c batchId (urls : list string) r,
  c < 0 -> i <= 0 -> urls <> [] ->
  waves scanURL fuel i c batchId urls r = None.
Proof.
  induction fuel as [|fuel IH]; intros i c batchId urls r Hc Hi Hu; cbn [waves].
  - destruct (Z.ltb_spec i (Z.of_nat (length urls))) as [_|H]; [reflexivity|].
    destruct urls; [contradiction | cbn [length] in H; lia].
  - destruct (Z.ltb_spec i (Z.of_nat (length urls))) as [_|H];
      [|destruct urls; [contradiction | cbn [length] in H; lia]].
    cbn zeta.
    destruct (fold_left _ _ _) as [results errors].
    apply IH; [exact Hc | lia | exact Hu].
Qed.

(** X21.  With a negative [SCAN_CONCURRENCY] a bulk scan of one URL or
    more never completes: the index of the loop never reaches the number
    of URLs, whatever the number of turns. *)
Theorem negative_concurrency_never_completes (batchId : string) (urls : list string)
    (env : option Z) (store : gmap string (BatchStatus ScanResult)) :
  concurrency_setting env < 0 -> urls <> [] ->
  (forall fuel r, waves scanURL fuel 0 (concurrency_setting env) batchId urls r = None) /\
  processBulkScan scanURL batchId urls env store = None.
Proof.
  intros Hc Hu. split.
  - intros fuel r. apply waves_never_end; [exact Hc | lia | exact Hu].
  - unfold processBulkScan. cbn zeta.
    rewrite waves_never_end; [reflexivity | exact Hc | lia | exact Hu].
Qed.

End Bulk.

Lemma negative_concurrency_never_completes_witness :
  processBulkScan scan_but_two "batch_1" ten (Some (-1)) ∅ = None.
Proof.
  exact (proj2 (negative_concurrency_never_completes scan_but_two "batch_1" ten
                  (Some (-1)) ∅ ltac:(reflexivity) ltac:(discriminate))).
Defined.

End BulkScanMoreFacts.

(** ** The cache client without Redis *)

Module MemoryCacheFacts.

Import CircuitBreaker MemoryCache.
Local Open Scope Z_scope.

Section Cache.

Context {V : Type}.
Variable plus_one : option V -> V.
Variable stringify_throws : V -> bool.



(** X27.  [incr] stores the new value without touching the expiry of
    the key: it counts on from the value it finds, expired or not; the
    counter of a key without expiry never expires, and that of a key
    whose expiry has passed is lost at the next [get]. *)
Theorem incr_keeps_the_old_expiry (key : string) (now later : Z) (c : Client V) :
  let r := incr plus_one key now c in
  snd r = plus_one (memoryCache c !! key) /\
  memoryCache (fst r) !! key = Some (snd r) /\
  memoryCacheTTL (fst r) = memoryCacheTTL c /\
  snd (get key later (fst r)) =
  match memoryCacheTTL c !! key with
  | Some t => if expired t later then None else Some (snd r)
  | None => Some (snd r)
  end.
Proof.
  cbn zeta. unfold incr, setInMemory. cbn zeta. cbn [fst snd].
  split; [reflexivity|]. split; [cbn; apply lookup_insert_eq|].
  split; [reflexivity|].
  unfold get, getFromMemory. cbn zeta. cbn [memoryCacheTTL memoryCache incr_fallbacks].
  rewrite lookup_insert_eq.
  destruct (memoryCacheTTL c !! key) as [t|]; [|reflexivity].
  fold (expired t later). destruct (expired t later); reflexivity.
Qed.

Lemma forget_lookup (k key : string) (c : Client V) :
  memoryCache (forget k c) !! key
    = (if decide (k = key) then None else memoryCache c !! key) /\
  memoryCacheTTL (forget k c) !! key
    = (if decide (k = key) then None else memoryCacheTTL c !! key).
Proof.
  unfold forget. cbn. destruct (decide (k = key)) as [->|N].
  - rewrite !lookup_delete_eq. split; reflexivity.
  - rewrite !lookup_delete_ne by exact N. split; reflexivity.
Qed.

(** X28.  The periodic clean up forgets exactly the entries whose
    expiry has passed, value and expiry, and keeps all others, those
    without expiry included. *)
Theorem cleanup_forgets_what_expired (now : Z) (c : Client V) (key : string) :
  let gone := match memoryCacheTTL c !! key with
              | Some expiry => expiry <? now
              | None => false
              end in
  memoryCache (cleanup now c) !! key
    = (if gone then None else memoryCache c !! key) /\
  memoryCacheTTL (cleanup now c) !! key
    = (if gone then None else memoryCacheTTL c !! key) /\
  metrics (cleanup now c) = metrics c /\
  options_ttl (cleanup now c) = options_ttl c.
Proof.
  cbn zeta. unfold cleanup.
  assert (G : forall ttls : gmap string Z,
    let r := map_fold (fun key expiry c => if expiry <? now then forget key c else c)
                      c ttls in
    let gone := match ttls !! key with
                | Some expiry => expiry <? now
                | None => false
                end in
    memoryCache r !! key = (if gone then None else memoryCache c !! key) /\
    memoryCacheTTL r !! key = (if gone then None else memoryCacheTTL c !! key) /\
    metrics r = metrics c /\ options_ttl r = options_ttl c).
  { intros ttls. cbn zeta.
    apply (map_fold_weak_ind (fun r (m : gmap string Z) =>
      memoryCache r !! key
        = (if match m !! key with Some expiry => expiry <? now | None => false end
           then None else memoryCache c !! key) /\
      memoryCacheTTL r !! key
        = (if match m !! key with Some expiry => expiry <? now | None => false end
           then None else memoryCacheTTL c !! key) /\
      metrics r = metrics c /\ options_ttl r = options_ttl c)).
    - rewrite lookup_empty. repeat split.
    - intros k expiry m r Hk (I1 & I2 & I3 & I4).
      destruct (decide (k = key)) as [->|N].
      + rewrite lookup_insert_eq. rewrite Hk in I1, I2.
        destruct (expiry <? now).
        * destruct (forget_lookup key key r) as [F1 F2].
          destruct (decide (key = key)); [|contradiction].
          split; [exact F1|]. split; [exact F2|]. split; assumption.
        * split; [exact I1|]. split; [exact I2|]. split; assumption.
      + rewrite lookup_insert_ne by exact N.
        destruct (expiry <? now).
        * destruct (forget_lookup k key r) as [F1 F2].
          destruct (decide (k = key)); [contradiction|].
          split; [rewrite F1; exact I1|]. split; [rewrite F2; exact I2|].
          split; assumption.
        * split; [exact I1|]. split; [exact I2|]. split; assumption. }
  exact (G (memoryCacheTTL c)).
Qed.

End Cache.


End MemoryCacheFacts.
